(** * Batch image resizer: a shallow embedding of [ImageProcessor]

    The Python class [ImageProcessor] scans a directory tree, groups the files
    by lower-cased basename, converts standard images on a thread pool with a
    retry loop, converts camera RAW files sequentially, and keeps run counters
    and an error log.  This development embeds the parts of it that the
    specification speaks about:

    - Python numbers: [int] as [Z]; [float] as a binary64 value written
      [mant * 2 ^ expo], every float operation being the exact operation
      followed by round-to-nearest-even ([rnd]);
    - Python strings as [string] (byte strings); POSIX [os.path];
    - the processor object as a record, methods as state transformers in a
      small state-and-exception monad;
    - the codec, the directory walk, thread timing and cancellation as
      oracles collected in a [world].

    Definitions come first, lemmas and the properties of the specification
    after them. The scan lower-cases file names with [str.lower]; the
    development is parametric in that function, and ends with the program
    evaluated on example trees. *)

From Stdlib Require Import ZArith List String Ascii Bool Lia Reals Lra.
From Stdlib Require Import Permutation.
From Stdlib Require Import SpecFloat.
Import ListNotations.

Local Open Scope string_scope.
Local Open Scope Z_scope.

(** ** Python floats

    A finite non-negative binary64 value is [mant * 2 ^ expo].  The image
    arithmetic only meets positive normal numbers far from overflow, so
    signs, subnormals and infinities are left out. *)

Record pyfloat := mkFloat { mant : Z; expo : Z }.

(** Nearest integer to [N / D], ties to the even one ([0 <= N], [0 < D]). *)
Definition rne (N D : Z) : Z :=
  let q := N / D in
  let r := N mod D in
  if 2 * r <? D then q
  else if D <? 2 * r then q + 1
  else if Z.even q then q else q + 1.

(** [2 ^ e] for [e >= 0], and [1] otherwise; [up2 e / up2 (- e)] is the
    rational [2 ^ e] for every [e]. *)
Definition up2 (e : Z) : Z := 2 ^ Z.max 0 e.

(** Exponent of the binary64 nearest to [n / d]: the one that puts the
    scaled quotient in [[2^52, 2^53)]. *)
Definition rnd_expo (n d : Z) : Z :=
  let e0 := Z.log2 n - Z.log2 d - 53 in
  if 2 ^ 53 * (d * up2 e0) <=? n * up2 (- e0) then e0 + 1 else e0.

(** The rational [n / d] rounded to binary64, round-to-nearest-even. *)
Definition rnd (n d : Z) : pyfloat :=
  if n =? 0 then mkFloat 0 0 else
  let e := rnd_expo n d in
  mkFloat (rne (n * up2 (- e)) (d * up2 e)) e.

Definition float_num (f : pyfloat) : Z := mant f * up2 (expo f).
Definition float_den (f : pyfloat) : Z := up2 (- expo f).

(** The real number a float stands for. *)
Definition val (f : pyfloat) : R := (IZR (float_num f) / IZR (float_den f))%R.

(** Half an ulp, relative: [2 ^ -53]. *)
Definition ulp_rel : R := (/ IZR (2 ^ 53))%R.

(** [a / b] on Python ints: the correctly rounded quotient. *)
Definition py_truediv (a b : Z) : pyfloat := rnd a b.

(** [w * f] for an int [w] and a float [f]: [w] converts exactly (image
    sides are far below [2 ^ 53]), the product is rounded once. *)
Definition py_mul_int (w : Z) (f : pyfloat) : pyfloat :=
  rnd (w * float_num f) (float_den f).

(** [round(f, 2)] works on the decimal expansion of the exact binary value:
    the hundredths are rounded half-even, and the decimal result is read back
    as the nearest float. *)
Definition round2_cents (f : pyfloat) : Z := rne (100 * float_num f) (float_den f).
Definition py_round2 (f : pyfloat) : pyfloat := rnd (round2_cents f) 100.

(** [int(f)]: truncation toward zero. *)
Definition py_int (f : pyfloat) : Z := Z.quot (float_num f) (float_den f).

(** The same operations through the Standard Library's IEEE 754
    specification, used to cross-check [rnd] on the inputs of the examples. *)
Definition sf_of_int (z : Z) : spec_float := binary_normalize 53 1024 z 0 false.
Definition sf_truediv (a b : Z) : spec_float := SFdiv 53 1024 (sf_of_int a) (sf_of_int b).
Definition sf_mul_int (w : Z) (f : spec_float) : spec_float := SFmul 53 1024 (sf_of_int w) f.
Definition sf_of_pyfloat (f : pyfloat) : spec_float :=
  if mant f =? 0 then S754_zero false
  else binary_normalize 53 1024 (mant f) (expo f) false.

(** ** Resize arithmetic (process_image, lines 133-142; process_raw, lines 233-239) *)

(** [n if n % 2 == 0 else n + 1] *)
Definition force_even (n : Z) : Z := if n mod 2 =? 0 then n else n + 1.

(** [int(round(w * ratio, 2))], then forced even: the standard pipeline. *)
Definition std_dim (w : Z) (ratio : pyfloat) : Z :=
  force_even (py_int (py_round2 (py_mul_int w ratio))).

(** [int(w * ratio)], then forced even: the RAW pipeline. *)
Definition raw_dim (w : Z) (ratio : pyfloat) : Z :=
  force_even (py_int (py_mul_int w ratio)).

Definition std_size (max_side w h : Z) : Z * Z :=
  if Z.max w h >? max_side then
    let ratio := py_truediv max_side (Z.max w h) in
    (std_dim w ratio, std_dim h ratio)
  else (w, h).

Definition raw_size (max_side w h : Z) : Z * Z :=
  if Z.max w h >? max_side then
    let ratio := py_truediv max_side (Z.max w h) in
    (raw_dim w ratio, raw_dim h ratio)
  else (w, h).

(** Image sides are C ints in the imaging library. *)
Definition dim_limit : Z := 2 ^ 31.

(** Bound on the accumulated rounding error of [w * (max_side / mx)]. *)
Definition slack : R := (/ 1048576)%R.

(** ** Python strings and POSIX paths

    A string is the sequence of the bytes of its UTF-8 encoding: the
    separators of paths and extensions are single bytes, and finding or
    replacing a substring gives the same result on bytes as on characters. *)

Definition sep : ascii := "/"%char.
Definition extsep : ascii := "."%char.

Definition is_upper (c : ascii) : bool :=
  let n := nat_of_ascii c in ((65 <=? n)%nat && (n <=? 90)%nat)%bool.

Definition lower_char (c : ascii) : ascii :=
  if is_upper c then ascii_of_nat (nat_of_ascii c + 32) else c.

(** [str.lower] on a string of ASCII characters: only the letters [A] to
    [Z] change. *)
Fixpoint ascii_lower (s : string) : string :=
  match s with
  | EmptyString => EmptyString
  | String c r => String (lower_char c) (ascii_lower r)
  end.

Fixpoint contains_char (c : ascii) (s : string) : bool :=
  match s with
  | EmptyString => false
  | String a r => (Ascii.eqb a c || contains_char c r)%bool
  end.

(** [s.startswith(p)] *)
Definition startswith (s p : string) : bool := String.prefix p s.

Fixpoint endswith_char (s : string) (c : ascii) : bool :=
  match s with
  | EmptyString => false
  | String a EmptyString => Ascii.eqb a c
  | String _ r => endswith_char r c
  end.

Fixpoint all_char (c : ascii) (s : string) : bool :=
  match s with
  | EmptyString => true
  | String a r => (Ascii.eqb a c && all_char c r)%bool
  end.

(** [s.rstrip(c)] *)
Fixpoint rstrip_char (c : ascii) (s : string) : string :=
  match s with
  | EmptyString => EmptyString
  | String a r =>
      match rstrip_char c r with
      | EmptyString => if Ascii.eqb a c then EmptyString else String a EmptyString
      | r' => String a r'
      end
  end.

(** Split after the last [c]: (everything up to and including it, the rest);
    the first part is empty when [c] does not occur. *)
Fixpoint rsplit_after (c : ascii) (s : string) : string * string :=
  match s with
  | EmptyString => (EmptyString, EmptyString)
  | String a r =>
      if contains_char c r then
        let (h, t) := rsplit_after c r in (String a h, t)
      else if Ascii.eqb a c then (String a EmptyString, r)
      else (EmptyString, String a r)
  end.

(** Split before the last [c], when there is one. *)
Fixpoint rsplit_before (c : ascii) (s : string) : option (string * string) :=
  match s with
  | EmptyString => None
  | String a r =>
      match rsplit_before c r with
      | Some (h, t) => Some (String a h, t)
      | None => if Ascii.eqb a c then Some (EmptyString, String a r) else None
      end
  end.

(** [os.path.splitext]: the extension starts at the last dot of the last
    component, unless only dots stand before it in that component. *)
Definition splitext (p : string) : string * string :=
  let (head, name) := rsplit_after sep p in
  match rsplit_before extsep name with
  | Some (stem, ext) =>
      if all_char extsep stem then (p, EmptyString) else (head ++ stem, ext)
  | None => (p, EmptyString)
  end.

(** [os.path.basename] *)
Definition basename (p : string) : string := snd (rsplit_after sep p).

(** [os.path.dirname] *)
Definition dirname (p : string) : string :=
  let head := fst (rsplit_after sep p) in
  if all_char sep head then head else rstrip_char sep head.

(** [os.path.join(a, b)] *)
Definition path_join (a b : string) : string :=
  if startswith b "/" then b
  else if (String.eqb a "" || endswith_char a sep)%bool then a ++ b
  else a ++ "/" ++ b.

Fixpoint split_on_aux (c : ascii) (s acc : string) : list string :=
  match s with
  | EmptyString => [acc]
  | String a r =>
      if Ascii.eqb a c then acc :: split_on_aux c r EmptyString
      else split_on_aux c r (acc ++ String a EmptyString)
  end.

(** [s.split(c)] *)
Definition split_on (c : ascii) (s : string) : list string :=
  split_on_aux c s EmptyString.

(** [[x for x in p.split(sep) if x]] *)
Definition components (p : string) : list string :=
  filter (fun x => negb (String.eqb x "")) (split_on sep p).

Fixpoint drop_common (a b : list string) : list string * list string :=
  match a, b with
  | x :: a', y :: b' => if String.eqb x y then drop_common a' b' else (a, b)
  | _, _ => (a, b)
  end.

(** [os.path.join( *l )] *)
Definition join_all (l : list string) : string :=
  match l with
  | [] => EmptyString
  | x :: r => fold_left path_join r x
  end.

(** [os.path.relpath(path, start)] for absolute, normalised paths (what
    [os.path.abspath] and [os.walk] hand to it). *)
Definition relpath (path start : string) : string :=
  let (start_rest, path_rest) := drop_common (components start) (components path) in
  let rel_list := (repeat ".." (List.length start_rest) ++ path_rest)%list in
  match rel_list with
  | [] => "."
  | _ => join_all rel_list
  end.

(** [s.replace(old, new)] for a non-empty [old]: every occurrence, left to
    right, without overlap; [skip] counts the characters of a match still to
    be dropped. *)
Fixpoint replace_from (skip : nat) (old new s : string) : string :=
  match s with
  | EmptyString => EmptyString
  | String c r =>
      match skip with
      | S k => replace_from k old new r
      | O =>
          if String.prefix old s
          then new ++ replace_from (String.length old - 1) old new r
          else String c (replace_from O old new r)
      end
  end.

Fixpoint intersperse (new s : string) : string :=
  match s with
  | EmptyString => new
  | String c r => new ++ String c (intersperse new r)
  end.

(** [s.replace(old, new)] *)
Definition str_replace (s old new : string) : string :=
  if String.eqb old "" then intersperse new s else replace_from O old new s.

(** The output path of process_image (lines 161-164), process_raw
    (lines 246-249) and _is_processed (lines 350-352). *)
Definition output_path_of (input_dir output_dir filepath : string) : string :=
  path_join output_dir (relpath filepath input_dir).

Definition output_jpg (input_dir output_dir filepath : string) : string :=
  let output_path := output_path_of input_dir output_dir filepath in
  str_replace output_path (snd (splitext output_path)) ".jpg".

(** The mapping in the specification's words: the output root joined with
    the relative path, only the final extension replaced by [.jpg]. *)
Definition mirrored_jpg (input_dir output_dir filepath : string) : string :=
  fst (splitext (output_path_of input_dir output_dir filepath)) ++ ".jpg".

(** ** Constants of the module (lines 31-40) *)

Definition DEFAULT_MAX_SIDE : Z := 3000.
Definition DEFAULT_JPG_QUALITY : Z := 95.
Definition RAW_EXTENSIONS : list string :=
  [".cr2"; ".cr3"; ".nef"; ".arw"; ".dng"; ".raw"; ".raf"; ".rw2"; ".srw"; ".3fr"].
Definition IMAGE_EXTENSIONS : list string :=
  [".jpg"; ".jpeg"; ".png"; ".heic"; ".bmp"; ".gif"; ".tiff"].
Definition JPG_THREAD_MULTIPLIER : Z := 4.
Definition JPG_RETRY_COUNT : nat := 2.

(** [x in l] *)
Definition mem (x : string) (l : list string) : bool := existsb (String.eqb x) l.

(** ** The processor object, the disk and the environment *)

(** An entry of [error_log]: the basename and the error text of the line
    [[HH:MM:SS] 错误: basename - error]; the time stamp is left out. *)
Record log_entry := mkEntry { entry_file : string; entry_error : string }.

Inductive file_content :=
| Jpeg (width height quality : Z)
| Report (entries : list log_entry).

Record filesystem := mkFs {
  fs_dirs : list string;
  fs_files : list (string * file_content) }.

(** The attributes of [ImageProcessor] set by [__init__] (lines 46-62); the
    queues and the fields of the unused thread adjuster are left out. *)
Record processor := mkProc {
  input_dir : string;
  output_dir : string;
  max_side : Z;
  jpg_quality : Z;
  process_raw_enabled : bool;
  high_quality_raw : bool;
  error_log : list log_entry;
  total_files : Z;
  processed_files : Z;
  skip_files : Z;
  skipped_system_files : Z;
  jpg_threads : Z;
  running : bool }.

Record state := mkState { self : processor; disk : filesystem }.

(** What a call ends with: a value, or an exception with its message. *)
Inductive result (A : Type) : Type :=
| Ok (a : A)
| Raise (msg : string).
Arguments Ok {A} a.
Arguments Raise {A} msg.

(** What process_image returns: [True], [False], or [None] when the [for]
    loop falls through. *)
Inductive pyval := PyBool (b : bool) | PyNone.

Definition truthy (v : pyval) : bool :=
  match v with PyBool b => b | PyNone => false end.

(** A poll of the scheduler loop: which in-flight jobs [future.done()]
    reports finished, and whether [cancel()] is called before the next
    test of [self.running]. *)
Record poll_event := mkPoll { done_now : string -> bool; cancel_after : bool }.

(** Everything the processor does not decide itself. [decode f n] is the
    outcome of opening, transposing and colour-converting [f] on attempt [n]
    (the image size, or the exception); [scan_cancel] gives the directory
    of the walk whose test of [self.running] is the first to see a call of
    [cancel()], the number of directories standing for a call that comes
    after the last test; [raw_cancel] gives the RAW file before which
    [cancel()] is called. Polls beyond the list find every job finished.
    [os_error path] is the error with which the operating system refuses
    to create or open [path] (permissions, a read-only or full disk), if it
    does. *)
Record world := mkWorld {
  walk : list (string * list string);
  decode : string -> nat -> result (Z * Z);
  raw_decode : string -> result (Z * Z);
  rawpy_available : bool;
  scan_cancel : option nat;
  polls : list poll_event;
  raw_cancel : option nat;
  os_error : string -> option string }.

(** *** Field updates *)

Definition set_process_raw_enabled (b : bool) (p : processor) : processor :=
  mkProc (input_dir p) (output_dir p) (max_side p) (jpg_quality p) b
    (high_quality_raw p) (error_log p) (total_files p) (processed_files p)
    (skip_files p) (skipped_system_files p) (jpg_threads p) (running p).

Definition set_error_log (l : list log_entry) (p : processor) : processor :=
  mkProc (input_dir p) (output_dir p) (max_side p) (jpg_quality p)
    (process_raw_enabled p) (high_quality_raw p) l (total_files p)
    (processed_files p) (skip_files p) (skipped_system_files p)
    (jpg_threads p) (running p).

Definition set_total_files (n : Z) (p : processor) : processor :=
  mkProc (input_dir p) (output_dir p) (max_side p) (jpg_quality p)
    (process_raw_enabled p) (high_quality_raw p) (error_log p) n
    (processed_files p) (skip_files p) (skipped_system_files p)
    (jpg_threads p) (running p).

Definition set_processed_files (n : Z) (p : processor) : processor :=
  mkProc (input_dir p) (output_dir p) (max_side p) (jpg_quality p)
    (process_raw_enabled p) (high_quality_raw p) (error_log p) (total_files p)
    n (skip_files p) (skipped_system_files p) (jpg_threads p) (running p).

Definition set_skip_files (n : Z) (p : processor) : processor :=
  mkProc (input_dir p) (output_dir p) (max_side p) (jpg_quality p)
    (process_raw_enabled p) (high_quality_raw p) (error_log p) (total_files p)
    (processed_files p) n (skipped_system_files p) (jpg_threads p) (running p).

Definition set_skipped_system_files (n : Z) (p : processor) : processor :=
  mkProc (input_dir p) (output_dir p) (max_side p) (jpg_quality p)
    (process_raw_enabled p) (high_quality_raw p) (error_log p) (total_files p)
    (processed_files p) (skip_files p) n (jpg_threads p) (running p).

Definition set_running (b : bool) (p : processor) : processor :=
  mkProc (input_dir p) (output_dir p) (max_side p) (jpg_quality p)
    (process_raw_enabled p) (high_quality_raw p) (error_log p) (total_files p)
    (processed_files p) (skip_files p) (skipped_system_files p)
    (jpg_threads p) b.

(** [ImageProcessor.__init__] (lines 44-62); the directories are given
    absolute, [cpu_count] is [psutil.cpu_count(logical=False) or 4]. *)
Definition init (input output : string) (max_side_arg jpg_quality_arg : Z)
    (process_raw_arg high_quality_raw_arg : bool) (threads : option Z)
    (cpu_count : Z) : processor :=
  mkProc input output max_side_arg
    (Z.max 85 (Z.min jpg_quality_arg 100))
    process_raw_arg high_quality_raw_arg [] 0 0 0 0
    (match threads with
     | Some t => if t =? 0 then Z.max 4 (cpu_count * JPG_THREAD_MULTIPLIER)
                 else Z.max 4 t
     | None => Z.max 4 (cpu_count * JPG_THREAD_MULTIPLIER)
     end)
    true.

(** [ImageProcessor.cancel] (lines 479-481) *)
Definition cancel (p : processor) : processor := set_running false p.

(** ** State and exceptions *)

Definition M (A : Type) : Type := state -> result A * state.

Definition ret {A : Type} (a : A) : M A := fun s => (Ok a, s).

Definition bind {A B : Type} (m : M A) (k : A -> M B) : M B :=
  fun s =>
    match m s with
    | (Ok a, s') => k a s'
    | (Raise e, s') => (Raise e, s')
    end.

Definition raise {A : Type} (e : string) : M A := fun s => (Raise e, s).

(** [try: m except Exception as e: h e] *)
Definition try_except {A : Type} (m : M A) (h : string -> M A) : M A :=
  fun s =>
    match m s with
    | (Ok a, s') => (Ok a, s')
    | (Raise e, s') => h e s'
    end.

Definition get_state : M state := fun s => (Ok s, s).
Definition get_self : M processor := fun s => (Ok (self s), s).
Definition get_disk : M filesystem := fun s => (Ok (disk s), s).
Definition modify_self (f : processor -> processor) : M unit :=
  fun s => (Ok tt, mkState (f (self s)) (disk s)).
Definition modify_disk (f : filesystem -> filesystem) : M unit :=
  fun s => (Ok tt, mkState (self s) (f (disk s))).

Definition lift {A : Type} (r : result A) : M A :=
  match r with Ok a => ret a | Raise e => raise e end.

Declare Scope monad_scope.
Delimit Scope monad_scope with monad.
Notation "x <- m ;; k" := (bind m (fun x => k))
  (at level 61, m at next level, right associativity) : monad_scope.
Notation "m ;; k" := (bind m (fun _ => k))
  (at level 61, right associativity) : monad_scope.
Local Open Scope monad_scope.

(** ** The disk *)

Definition dir_exists (d : string) (fs : filesystem) : bool :=
  (all_char sep d || mem d (fs_dirs fs))%bool.

(** [os.path.exists] *)
Definition path_exists (p : string) (fs : filesystem) : bool :=
  (dir_exists p fs || mem p (map fst (fs_files fs)))%bool.

(** A directory and the directories above it, the root apart. *)
Fixpoint ancestors (fuel : nat) (d : string) : list string :=
  match fuel with
  | O => []
  | S k => if all_char sep d then [] else d :: ancestors k (dirname d)
  end.

(** A regular file has this name. *)
Definition is_file (p : string) (fs : filesystem) : bool :=
  mem p (map fst (fs_files fs)).

(** [os.mkdir(d)] for a directory that is missing: refused when a regular
    file has its name or the name of its parent, or by the system. *)
Definition mkdir (w : world) (d : string) : M unit :=
  fs <- get_disk ;;
  if (is_file d fs || is_file (dirname d) fs)%bool then raise "File exists"
  else match os_error w d with
       | Some e => raise e
       | None => modify_disk (fun fs => mkFs (d :: fs_dirs fs) (fs_files fs))
       end.

Fixpoint mkdirs (w : world) (ds : list string) : M unit :=
  match ds with
  | [] => ret tt
  | d :: rest => mkdir w d ;; mkdirs w rest
  end.

(** [os.makedirs(d, exist_ok=True)]: the missing directories are created
    from the top; those made before a failure stay. *)
Definition makedirs (w : world) (d : string) : M unit :=
  if String.eqb d "" then raise "No such file or directory: ''"
  else
    fs <- get_disk ;;
    mkdirs w (rev (filter (fun a => negb (mem a (fs_dirs fs)))
                          (ancestors (String.length d) d))).

(** [open(p, 'w')]: the directory has to exist, [p] must not be a
    directory, and the system has to allow it. *)
Definition open_for_writing (w : world) (p : string) : M unit :=
  fs <- get_disk ;;
  if negb (dir_exists (dirname p) fs) then raise "No such file or directory"
  else if dir_exists p fs then raise "Is a directory"
  else match os_error w p with
       | Some e => raise e
       | None => ret tt
       end.

(** Writing a file. *)
Definition write_file (w : world) (p : string) (c : file_content) : M unit :=
  open_for_writing w p ;;
  modify_disk (fun fs => mkFs (fs_dirs fs) ((p, c) :: fs_files fs)).

(** [img.save(p, 'JPEG', quality=q, ...)]: the file is opened, then the
    image is encoded; the JPEG encoder refuses a side above 65500, and a
    save that fails leaves no new file. *)
Definition pil_save (w : world) (p : string) (width height quality : Z) : M unit :=
  open_for_writing w p ;;
  if ((65500 <? width) || (65500 <? height))%bool
  then raise "encoder error -2 when writing image file"
  else modify_disk (fun fs =>
         mkFs (fs_dirs fs) ((p, Jpeg width height quality) :: fs_files fs)).

(** [img.resize(size, ...)]: refuses an empty target. *)
Definition pil_resize (size : Z * Z) : M (Z * Z) :=
  if ((0 <? fst size) && (0 <? snd size))%bool then ret size
  else raise "height and width must be > 0".

(** ** Logging (lines 80-83) *)

Definition log_error (filename error : string) : M unit :=
  modify_self (fun p =>
    set_error_log (error_log p ++ [mkEntry (basename filename) error])%list p).

(** ** process_image (lines 118-189) *)

(** The body of the [try] block: decode, resize, map the output path,
    create its directory, save. *)
Definition convert_image (w : world) (filepath : string) (retry : nat) : M unit :=
  p <- get_self ;;
  size <- lift (decode w filepath retry) ;;
  new_size <- (if Z.max (fst size) (snd size) >? max_side p
               then pil_resize (std_size (max_side p) (fst size) (snd size))
               else ret size) ;;
  let output_path := output_path_of (input_dir p) (output_dir p) filepath in
  makedirs w (dirname output_path) ;;
  pil_save w (str_replace output_path (snd (splitext output_path)) ".jpg")
           (fst new_size) (snd new_size) (jpg_quality p).

(** [for retry in range(JPG_RETRY_COUNT + 1)] *)
Fixpoint process_image_loop (w : world) (filepath : string) (retries : list nat)
  : M pyval :=
  match retries with
  | [] => ret PyNone
  | retry :: rest =>
      try_except
        (convert_image w filepath retry ;; ret (PyBool true))
        (fun e =>
           if (retry <? JPG_RETRY_COUNT)%nat
           then process_image_loop w filepath rest
           else log_error filepath e ;; ret (PyBool false))
  end.

Definition process_image (w : world) (filepath : string) : M pyval :=
  process_image_loop w filepath (seq 0 (JPG_RETRY_COUNT + 1)).

(** ** process_raw (lines 192-271) *)

Definition convert_raw (w : world) (filepath : string) : M unit :=
  p <- get_self ;;
  (if rawpy_available w then ret tt else raise "rawpy 模块不可用") ;;
  size <- lift (raw_decode w filepath) ;;
  new_size <- (if Z.max (fst size) (snd size) >? max_side p
               then pil_resize (raw_size (max_side p) (fst size) (snd size))
               else ret size) ;;
  let output_path := output_path_of (input_dir p) (output_dir p) filepath in
  makedirs w (dirname output_path) ;;
  pil_save w (str_replace output_path (snd (splitext output_path)) ".jpg")
           (fst new_size) (snd new_size)
           (if high_quality_raw p then 95 else jpg_quality p).

Definition process_raw (w : world) (filepath : string) : M bool :=
  p <- get_self ;;
  if negb (process_raw_enabled p) then ret false
  else try_except
         (convert_raw w filepath ;; ret true)
         (fun e => log_error filepath e ;; ret false).

(** ** _is_processed (lines 349-353) *)

Definition is_processed (s : state) (filepath : string) : bool :=
  path_exists (output_jpg (input_dir (self s)) (output_dir (self s)) filepath)
              (disk s).

(** ** scan_and_group_files (lines 355-387) *)

(** A value of the dict [file_groups]: [{'image': ..., 'raw': ...}]. *)
Record group := mkGroup { image : option string; raw : option string }.

(** The dict itself, in insertion order. *)
Definition file_groups := list (string * group).

Fixpoint dict_get (k : string) (d : file_groups) : option group :=
  match d with
  | [] => None
  | (k', v) :: r => if String.eqb k k' then Some v else dict_get k r
  end.

(** [d[k] = v]: an existing key keeps its place, a new one goes last. *)
Fixpoint dict_set (k : string) (v : group) (d : file_groups) : file_groups :=
  match d with
  | [] => [(k, v)]
  | (k', v') :: r =>
      if String.eqb k k' then (k, v) :: r else (k', v') :: dict_set k v r
  end.

(** [file.startswith(("._", "_"))] *)
Definition is_system_file (file : string) : bool :=
  (startswith file "._" || startswith file "_")%bool.

(** [str.lower] folds the case of every cased letter of Unicode, by the
    tables of the interpreter. The scan and everything built on it take it
    as given: [lower] is any function on strings, and what is proved holds
    for each; the examples use [ascii_lower], which is [str.lower] on their
    ASCII names. *)
Section Program.
Variable lower : string -> string.

(** The group key and the extension: [os.path.splitext(file.lower())]. *)
Definition file_key (file : string) : string := fst (splitext (lower file)).
Definition file_ext (file : string) : string := snd (splitext (lower file)).

(** The body of [for file in files] (lines 362-374). *)
Definition scan_file (root file : string) (gp : file_groups * processor)
  : file_groups * processor :=
  let (groups, p) := gp in
  if is_system_file file
  then (groups, set_skipped_system_files (skipped_system_files p + 1) p)
  else
    let filepath := path_join root file in
    let name := file_key file in
    let ext := file_ext file in
    if (mem ext IMAGE_EXTENSIONS || mem ext RAW_EXTENSIONS)%bool then
      let g := match dict_get name groups with
               | Some g => g
               | None => mkGroup None None
               end in
      if mem ext IMAGE_EXTENSIONS
      then (dict_set name (mkGroup (Some filepath) (raw g)) groups, p)
      else (dict_set name (mkGroup (image g) (Some filepath)) groups, p)
    else (groups, p).

Definition scan_files (root : string) (files : list string)
    (gp : file_groups * processor) : file_groups * processor :=
  fold_left (fun acc file => scan_file root file acc) files gp.

(** [for root, _, files in os.walk(self.input_dir)]; [None] is the early
    [return [], []] taken when a test of [self.running] finds the run
    cancelled. A call of [cancel()] that comes after the last test lets
    the scan finish. *)
Fixpoint scan_dirs (cancel_at : option nat) (idx : nat)
    (dirs : list (string * list string)) (gp : file_groups * processor)
  : option file_groups * processor :=
  match dirs with
  | [] =>
      (Some (fst gp),
       match cancel_at with
       | Some n => if Nat.eqb n idx then cancel (snd gp) else snd gp
       | None => snd gp
       end)
  | (root, files) :: rest =>
      let p := match cancel_at with
               | Some n => if Nat.eqb n idx then cancel (snd gp) else snd gp
               | None => snd gp
               end in
      if negb (running p) then (None, p)
      else scan_dirs cancel_at (S idx) rest (scan_files root files (fst gp, p))
  end.

(** Truth value of a slot of a group: [None] and the empty string are false. *)
Definition slot (o : option string) : option string :=
  match o with
  | Some x => if String.eqb x "" then None else Some x
  | None => None
  end.

(** The body of [for group in file_groups.values()] (lines 379-384); the
    accumulator is [(image_files, raw_files, self)]. *)
Definition select_group (g : group)
    (acc : list string * list string * processor)
  : list string * list string * processor :=
  let '(image_files, raw_files, p) := acc in
  match slot (image g) with
  | Some i =>
      ((image_files ++ [i])%list, raw_files,
       match slot (raw g) with
       | Some _ => if process_raw_enabled p
                   then set_skip_files (skip_files p + 1) p else p
       | None => p
       end)
  | None =>
      match slot (raw g) with
      | Some r => if process_raw_enabled p
                  then (image_files, (raw_files ++ [r])%list, p)
                  else (image_files, raw_files, p)
      | None => (image_files, raw_files, p)
      end
  end.

Definition select_groups (groups : file_groups) (p : processor)
  : list string * list string * processor :=
  fold_left (fun acc kv => select_group (snd kv) acc) groups ([], [], p).

Definition len (l : list string) : Z := Z.of_nat (List.length l).

Definition scan_and_group_files (w : world) (p : processor)
  : list string * list string * processor :=
  match scan_dirs (scan_cancel w) 0 (walk w) ([], p) with
  | (None, p') => ([], [], p')
  | (Some groups, p') =>
      let '(image_files, raw_files, p'') := select_groups groups p' in
      (image_files, raw_files,
       set_total_files (len image_files + len raw_files) p'')
  end.

(** ** The scheduler loop of run (lines 420-452) *)

(** A worker runs process_image; the future keeps what it returned or
    raised. In this model the effects of a job on the shared state take
    place when its completion is first seen: at the poll that finds it done,
    or when the pool shuts down. *)
Definition run_job (w : world) (f : string) (s : state) : result pyval * state :=
  process_image w f s.

(** Lines 438-447: what the control thread does with a finished future. *)
Definition record_result (f : string) (r : result pyval) : M unit :=
  match r with
  | Ok ok =>
      if truthy ok
      then modify_self (fun p => set_processed_files (processed_files p + 1) p)
      else log_error f "处理失败"
  | Raise e => log_error f e
  end.

(** [for future, f in list(futures): if future.done(): ...]; the result is
    the list [done], each job with what its future holds. *)
Fixpoint poll_futures (w : world) (is_done : string -> bool)
    (futures : list string) (s : state)
  : list (string * result pyval) * state :=
  match futures with
  | [] => ([], s)
  | f :: rest =>
      if is_done f then
        let (r, s1) := run_job w f s in
        let s2 := snd (record_result f r s1) in
        let (done, s3) := poll_futures w is_done rest s2 in
        ((f, r) :: done, s3)
      else poll_futures w is_done rest s
  end.

Definition next_poll (evs : list poll_event) : poll_event * list poll_event :=
  match evs with
  | [] => (mkPoll (fun _ => true) false, [])
  | ev :: rest => (ev, rest)
  end.

(** The variables of the loop when it is left: the jobs moved to [done]
    over all iterations, the futures still in [futures], and what the
    iterator [it] has not given out. *)
Record loop_exit := mkExit {
  recorded : list (string * result pyval);
  in_flight : list string;
  not_submitted : list string }.

(** [while self.running: ...], one iteration per unit of fuel. *)
Fixpoint stage_loop (fuel : nat) (w : world) (limit : nat)
    (evs : list poll_event) (pending futures : list string)
    (acc : list (string * result pyval)) (s : state)
  : option (loop_exit * state) :=
  match fuel with
  | O => None
  | S fuel' =>
      if negb (running (self s)) then Some (mkExit acc futures pending, s)
      else
        let n := (limit - List.length futures)%nat in
        let futures1 := (futures ++ firstn n pending)%list in
        let pending1 := skipn n pending in
        match futures1 with
        | [] => Some (mkExit acc [] pending1, s)
        | _ :: _ =>
            let (ev, evs') := next_poll evs in
            let (done, s1) := poll_futures w (done_now ev) futures1 s in
            let futures2 := filter (fun f => negb (done_now ev f)) futures1 in
            let s2 := if cancel_after ev
                      then mkState (cancel (self s1)) (disk s1) else s1 in
            stage_loop fuel' w limit evs' pending1 futures2 (acc ++ done)%list s2
        end
  end.

(** Leaving the [with ThreadPoolExecutor(...)] block: [shutdown(wait=True)]
    lets every submitted job finish; nobody reads these futures. *)
Fixpoint shutdown (w : world) (futures : list string) (s : state)
  : list (string * result pyval) * state :=
  match futures with
  | [] => ([], s)
  | f :: rest =>
      let (r, s1) := run_job w f s in
      let (rs, s2) := shutdown w rest s1 in
      ((f, r) :: rs, s2)
  end.

Definition stage_fuel (evs : list poll_event) (files : list string) : nat :=
  S (S (List.length evs + List.length files)).

(** What became of the jobs of the stage. *)
Record stage_report := mkReport {
  counted : list (string * result pyval);
  abandoned : list (string * result pyval);
  never_submitted : list string }.

(** Lines 422-452. *)
Definition jpg_stage (w : world) (image_files : list string) : M stage_report :=
  p <- get_self ;;
  let workers := Z.min (jpg_threads p) (len image_files) in
  if workers <=? 0 then raise "max_workers must be greater than 0"
  else fun s =>
    match stage_loop (stage_fuel (polls w) image_files) w
                     (Z.to_nat (workers * 2)) (polls w) image_files [] [] s with
    | Some (ex, s1) =>
        let (rs, s2) := shutdown w (in_flight ex) s1 in
        (Ok (mkReport (recorded ex) rs (not_submitted ex)), s2)
    | None => (Raise "scheduler loop: out of fuel", s)
    end.

(** ** process_raw_files (lines 333-347) *)

Fixpoint raw_loop (w : world) (i : nat) (raw_files : list string) : M unit :=
  match raw_files with
  | [] => ret tt
  | f :: rest =>
      (match raw_cancel w with
       | Some n => if Nat.eqb n i then modify_self cancel else ret tt
       | None => ret tt
       end) ;;
      p <- get_self ;;
      if negb (running p) then ret tt
      else
        ok <- process_raw w f ;;
        (if ok : bool
         then modify_self (fun p => set_processed_files (processed_files p + 1) p)
         else ret tt) ;;
        raw_loop w (S i) rest
  end.

Definition nonempty (l : list string) : bool :=
  match l with [] => false | _ :: _ => true end.

Definition process_raw_files (w : world) (raw_files : list string) : M unit :=
  p <- get_self ;;
  if (negb (nonempty raw_files) || negb (running p)
      || negb (process_raw_enabled p))%bool
  then ret tt
  else raw_loop w 0 raw_files.

(** ** run (lines 389-477) *)

Definition write_report (w : world) : M unit :=
  p <- get_self ;;
  match error_log p with
  | [] => ret tt
  | _ :: _ =>
      write_file w (path_join (output_dir p) "错误日志.txt") (Report (error_log p))
  end.

Definition run (w : world) : M unit :=
  p <- get_self ;;
  (if (process_raw_enabled p && negb (rawpy_available w))%bool
   then modify_self (set_process_raw_enabled false) else ret tt) ;;
  p <- get_self ;;
  let '(image_files, raw_files, p1) := scan_and_group_files w p in
  modify_self (fun _ => p1) ;;
  if negb (running p1) then ret tt
  else
    s <- get_state ;;
    let image_files := filter (fun f => negb (is_processed s f)) image_files in
    modify_self (set_total_files (len image_files + len raw_files)) ;;
    (if (nonempty image_files && running p1)%bool
     then jpg_stage w image_files ;; ret tt else ret tt) ;;
    p <- get_self ;;
    (if (nonempty raw_files && running p && process_raw_enabled p)%bool
     then process_raw_files w raw_files else ret tt) ;;
    p <- get_self ;;
    if running p then write_report w else ret tt.


(** ** The configuration of a run

    The attributes that the specification calls the processing
    configuration: set by [__init__], read by the pipelines. *)
Definition config_of (p : processor) : string * string * Z * Z * bool * Z :=
  (input_dir p, output_dir p, max_side p, jpg_quality p, high_quality_raw p,
   jpg_threads p).

(** A computation that leaves the configuration as it found it. *)
Definition frames {A : Type} (m : M A) : Prop :=
  forall s, config_of (self (snd (m s))) = config_of (self s).

(** ** The scan, seen file by file

    Without cancellation the two nested loops of the scan visit the files
    of the walk in one sequence; the definitions below describe what a
    group and the work lists hold in terms of that sequence. *)

(** A file of the walk: the directory [os.walk] reports it in, and its name. *)
Definition entry : Type := string * string.

Definition entries (dirs : list (string * list string)) : list entry :=
  flat_map (fun d => map (pair (fst d)) (snd d)) dirs.

Definition entry_path (e : entry) : string := path_join (fst e) (snd e).

(** The lower-cased name of a file, split at its last dot: the key the
    specification groups by, and the extension it classifies by. *)
Definition entry_key (e : entry) : string := fst (splitext (lower (snd e))).
Definition entry_ext (e : entry) : string := snd (splitext (lower (snd e))).

Definition is_image_entry (e : entry) : bool :=
  (negb (is_system_file (snd e)) && mem (entry_ext e) IMAGE_EXTENSIONS)%bool.

Definition is_raw_entry (e : entry) : bool :=
  (negb (is_system_file (snd e))
   && negb (mem (entry_ext e) IMAGE_EXTENSIONS)
   && mem (entry_ext e) RAW_EXTENSIONS)%bool.

Definition scan_entries (es : list entry) (gp : file_groups * processor)
  : file_groups * processor :=
  fold_left (fun acc e => scan_file (fst e) (snd e) acc) es gp.

(** The last standard image, respectively RAW file, with key [k]. *)
Definition last_image (k : string) (es : list entry) : option string :=
  fold_left (fun acc e =>
               if (is_image_entry e && String.eqb (entry_key e) k)%bool
               then Some (entry_path e) else acc) es None.

Definition last_raw (k : string) (es : list entry) : option string :=
  fold_left (fun acc e =>
               if (is_raw_entry e && String.eqb (entry_key e) k)%bool
               then Some (entry_path e) else acc) es None.

Definition count_system (es : list entry) : Z :=
  Z.of_nat (List.length (filter (fun e => is_system_file (snd e)) es)).

(** What the selection loop takes from the groups. *)
Definition images_of (groups : file_groups) : list string :=
  flat_map (fun kv => match slot (image (snd kv)) with
                      | Some i => [i]
                      | None => []
                      end) groups.

Definition raws_of (enabled : bool) (groups : file_groups) : list string :=
  flat_map (fun kv => match slot (image (snd kv)), slot (raw (snd kv)) with
                      | None, Some r => if enabled then [r] else []
                      | _, _ => []
                      end) groups.

(** The groups that hold both a standard image and a RAW file. *)
Definition pairs_of (groups : file_groups) : list string :=
  flat_map (fun kv => match slot (image (snd kv)), slot (raw (snd kv)) with
                      | Some _, Some _ => [fst kv]
                      | _, _ => []
                      end) groups.

(** The dict built by an uncancelled scan. *)
Definition scan_groups (w : world) (p : processor) : file_groups :=
  fst (scan_entries (entries (walk w)) ([], p)).

(** File names as a directory listing gives them: not empty, no separator
    inside. *)
Definition plain_names (es : list entry) : Prop :=
  Forall (fun e => contains_char sep (snd e) = false /\ snd e <> "") es.

Definition img_of (og : option group) : option string :=
  match og with Some g => image g | None => None end.

Definition raw_of (og : option group) : option string :=
  match og with Some g => raw g | None => None end.

Definition add_system (n : Z) (p : processor) : processor :=
  set_skipped_system_files (skipped_system_files p + n) p.

Definition add_skip (n : Z) (p : processor) : processor :=
  set_skip_files (skip_files p + n) p.

(** The three results of scan_and_group_files. *)
Definition image_files_of (w : world) (p : processor) : list string :=
  fst (fst (scan_and_group_files w p)).
Definition raw_files_of (w : world) (p : processor) : list string :=
  snd (fst (scan_and_group_files w p)).
Definition scanned (w : world) (p : processor) : processor :=
  snd (scan_and_group_files w p).

(** The group key a path belongs to. *)
Definition path_key (path : string) : string :=
  fst (splitext (lower (basename path))).

(** [old] occurs in [s] somewhere else than as its very end. *)
Fixpoint occurs_early (old s : string) : bool :=
  match s with
  | EmptyString => false
  | String _ r =>
      ((String.prefix old s && negb (String.eqb s old)) || occurs_early old r)%bool
  end.

(** ** Environments used in the examples *)

Definition example_processor : processor :=
  init "/in" "/out" DEFAULT_MAX_SIDE DEFAULT_JPG_QUALITY true false None 4.

Definition example_disk : filesystem := mkFs ["/out"] [].

Definition decode_ok : string -> nat -> result (Z * Z) :=
  fun _ _ => Ok (4000, 3000).

Definition decode_broken : string -> nat -> result (Z * Z) :=
  fun _ _ => Raise "cannot identify image file".

(** The first attempt fails, the later ones succeed. *)
Definition decode_flaky : string -> nat -> result (Z * Z) :=
  fun _ n => match n with
             | O => Raise "image file is truncated"
             | S _ => Ok (4000, 3000)
             end.

Definition raw_decode_ok : string -> result (Z * Z) := fun _ => Ok (6000, 4000).

(** A quiet environment: no cancellation, every poll finds all jobs done. *)
Definition quiet_world (tree : list (string * list string))
    (dec : string -> nat -> result (Z * Z)) : world :=
  mkWorld tree dec raw_decode_ok true None [] None (fun _ => None).

(** [a.jpg] beside [a.cr2]. *)
Definition world_pair : world := quiet_world [("/in", ["a.jpg"; "a.cr2"])] decode_ok.

(** Two standard images with the same basename in different directories,
    and the same tree without the first one. *)
Definition world_shadow : world :=
  quiet_world [("/in", ["a.jpg"]); ("/in/sub", ["A.PNG"])] decode_ok.
Definition world_shadow_removed : world :=
  quiet_world [("/in", []); ("/in/sub", ["A.PNG"])] decode_ok.

(** ** Reading the outcome of the scheduler *)

(** A future holds a true value. *)
Definition succeeded (r : result pyval) : bool :=
  match r with Ok v => truthy v | Raise _ => false end.

(** The jobs of a list whose future holds a true value. *)
Definition count_ok (l : list (string * result pyval)) : Z :=
  Z.of_nat (List.length (filter (fun x => succeeded (snd x)) l)).

(** A computation that leaves the processor object as it found it. *)
Definition keeps_self {A : Type} (m : M A) : Prop :=
  forall s, self (snd (m s)) = self s.

(** More environments: a file that never decodes, one that decodes on the
    second attempt, a directory whose name contains the extension of the
    file in it, and a run cancelled while its only job is in flight. *)
Definition world_broken : world := quiet_world [("/in", ["a.jpg"])] decode_broken.
Definition world_flaky : world := quiet_world [("/in", ["a.jpg"])] decode_flaky.
Definition world_dotted : world :=
  quiet_world [("/in/a.png.d", ["x.png"])] decode_ok.
Definition world_cancelled : world :=
  mkWorld [("/in", ["a.jpg"])] decode_ok raw_decode_ok true None
          [mkPoll (fun _ => false) true] None (fun _ => None).

(** A disk on which the mirrored output of [/in/a.png.d/x.png] exists. *)
Definition disk_mirrored : filesystem :=
  mkFs ["/out"; "/out/a.png.d"] [("/out/a.png.d/x.jpg", Jpeg 3000 2250 95)].

(** A disk on which only the path computed by the code exists. *)
Definition disk_rewritten : filesystem :=
  mkFs ["/out"; "/out/a.jpg.d"] [("/out/a.jpg.d/x.jpg", Jpeg 3000 2250 95)].

(** The number of files the walk reports. *)
Definition files_considered (w : world) : Z :=
  Z.of_nat (List.length (entries (walk w))).

(** The sum that the specification bounds by the number of files. *)
Definition accounted (p : processor) : Z :=
  processed_files p + Z.of_nat (List.length (error_log p))
  + skip_files p + skipped_system_files p.

(** The accounting of the specification for a cancelled stage: the jobs that
    were in flight when the loop was left count like the others. *)
Definition in_flight_results_counted (w : world) (files : list string)
    (s : state) : Prop :=
  match jpg_stage w files s with
  | (Ok rep, s') =>
      processed_files (self s')
      = processed_files (self s) + count_ok (counted rep) + count_ok (abandoned rep)
  | (Raise _, _) => True
  end.

(** A RAW file whose output is already on the disk. *)
Definition world_raw_only : world := quiet_world [("/in", ["b.cr2"])] decode_ok.
Definition disk_raw_done : filesystem :=
  mkFs ["/out"] [("/out/b.jpg", Jpeg 3000 2000 95)].

(** One standard image. *)
Definition world_single : world := quiet_world [("/in", ["a.jpg"])] decode_ok.

(** What the control thread has made of a finished job: the state after
    process_image and after the lines that read the future. *)
Definition job_then_record (w : world) (f : string) (s : state) : state :=
  snd (record_result f (fst (run_job w f s)) (snd (run_job w f s))).

(** ** _jpg_task_wrapper (lines 323-331)

    The task body written for the worker adjuster: process_image, one more
    processed file when it came back true, and in any case
    [task_queue.task_done()]. Of the queue only its count of unfinished
    tasks matters here. *)

(** [Queue.task_done]: one unfinished task less; refused when there is
    none. *)
Definition task_done (unfinished_tasks : Z) : result Z :=
  if unfinished_tasks <=? 0 then Raise "task_done() called too many times"
  else Ok (unfinished_tasks - 1).

(** The [try] block of the wrapper. *)
Definition jpg_task_body (w : world) (filepath : string) : M unit :=
  ok <- process_image w filepath ;;
  if truthy ok
  then modify_self (fun p => set_processed_files (processed_files p + 1) p)
  else ret tt.

(** The result, the count of unfinished tasks of the queue and the state;
    an exception of the [finally] clause replaces the result of the [try]
    block. *)
Definition jpg_task_wrapper (w : world) (filepath : string)
    (unfinished_tasks : Z) (s : state) : result unit * Z * state :=
  let (r, s1) := jpg_task_body w filepath s in
  match task_done unfinished_tasks with
  | Ok n => (r, n, s1)
  | Raise e => (Raise e, unfinished_tasks, s1)
  end.

(** ** What a conversion writes *)

(** The file a successful standard conversion of [f] leaves, for the size
    [size] that was decoded. *)
Definition std_output (p : processor) (f : string) (size : Z * Z)
  : string * file_content :=
  (output_jpg (input_dir p) (output_dir p) f,
   Jpeg (fst (std_size (max_side p) (fst size) (snd size)))
        (snd (std_size (max_side p) (fst size) (snd size)))
        (jpg_quality p)).

(** The file a successful RAW conversion of [f] leaves. *)
Definition raw_output (p : processor) (f : string) (size : Z * Z)
  : string * file_content :=
  (output_jpg (input_dir p) (output_dir p) f,
   Jpeg (fst (raw_size (max_side p) (fst size) (snd size)))
        (snd (raw_size (max_side p) (fst size) (snd size)))
        (if high_quality_raw p then 95 else jpg_quality p)).

(** The path of the error report. *)
Definition report_path (p : processor) : string :=
  path_join (output_dir p) "错误日志.txt".

(** The files the program can leave on the disk under the configuration of
    [p]: the conversion of an input that decoded on one of the attempts, the
    conversion of a RAW file that decoded, or the error report. *)
Inductive produced (w : world) (p : processor) : string * file_content -> Prop :=
| produced_std f n size :
    (n <= JPG_RETRY_COUNT)%nat -> decode w f n = Ok size ->
    produced w p (std_output p f size)
| produced_raw f size :
    rawpy_available w = true -> raw_decode w f = Ok size ->
    produced w p (raw_output p f size)
| produced_report l :
    l <> [] -> produced w p (report_path p, Report l).

(** From [s] to [s'] the disk has only grown: the directories of [s] are
    still there, and the files of [s'] are those of [s] with files the
    program can produce written on top. *)
Definition adds (w : world) (p : processor) (s s' : state) : Prop :=
  incl (fs_dirs (disk s)) (fs_dirs (disk s')) /\
  exists new, fs_files (disk s') = (new ++ fs_files (disk s))%list /\
              Forall (produced w p) new.

(** A computation under which the disk only grows. *)
Definition only_adds {A : Type} (w : world) (m : M A) : Prop :=
  forall p s, config_of (self s) = config_of p -> adds w p s (snd (m s)).

(** The quality and the size of a written file, when it is a JPEG. *)
Definition quality_of (c : file_content) : option Z :=
  match c with Jpeg _ _ q => Some q | Report _ => None end.

Definition size_of (c : file_content) : option (Z * Z) :=
  match c with Jpeg wd ht _ => Some (wd, ht) | Report _ => None end.

(** A codec that reports image sizes the imaging library can hold. *)
Definition sane_sizes (w : world) : Prop :=
  (forall f n size, decode w f n = Ok size ->
     0 < fst size <= dim_limit /\ 0 < snd size <= dim_limit) /\
  (forall f size, raw_decode w f = Ok size ->
     0 < fst size <= dim_limit /\ 0 < snd size <= dim_limit).

(** A computation that leaves the attribute [proj] of the processor as it
    found it. *)
Definition keeps_field {A B : Type} (proj : processor -> B) (m : M A) : Prop :=
  forall s, proj (self (snd (m s))) = proj (self s).

(** ** The parts of run

    The state in which run reads [self.running] after the scan (line 402),
    the work lists of lines 409-410, and the two stages with the report
    (lines 420-477). *)
Definition before_scan (w : world) (s : state) : processor :=
  if (process_raw_enabled (self s) && negb (rawpy_available w))%bool
  then set_process_raw_enabled false (self s) else self s.

Definition after_scan (w : world) (s : state) : state :=
  mkState (snd (scan_and_group_files w (before_scan w s))) (disk s).

Definition pending_images (w : world) (s : state) : list string :=
  filter (fun f => negb (is_processed (after_scan w s) f))
         (fst (fst (scan_and_group_files w (before_scan w s)))).

Definition pending_raws (w : world) (s : state) : list string :=
  snd (fst (scan_and_group_files w (before_scan w s))).

Definition run_stages (w : world) (p1 : processor)
    (image_files raw_files : list string) : M unit :=
  (if (nonempty image_files && running p1)%bool
   then jpg_stage w image_files ;; ret tt else ret tt) ;;
  p <- get_self ;;
  (if (nonempty raw_files && running p && process_raw_enabled p)%bool
   then process_raw_files w raw_files else ret tt) ;;
  p <- get_self ;;
  if running p then write_report w else ret tt.

(** An environment in which [cancel()] is called before the first directory
    of the walk is scanned. *)
Definition world_scan_cancelled : world :=
  mkWorld [("/in", ["a.jpg"; "b.cr2"])] decode_ok raw_decode_ok true
          (Some 0%nat) [] None (fun _ => None).

(** An environment in which [cancel()] is called while the files of the
    last directory are scanned: no test of [running] in the walk sees it. *)
Definition world_cancelled_in_last_dir : world :=
  mkWorld [("/in", ["a.jpg"; "b.cr2"; "c.CR2"; "C.jpg"])] decode_ok raw_decode_ok
          true (Some 1%nat) [] None (fun _ => None).

(** The same environment without a cancellation during the walk. *)
Definition without_scan_cancel (w : world) : world :=
  mkWorld (walk w) (decode w) (raw_decode w) (rawpy_available w) None
          (polls w) (raw_cancel w) (os_error w).

(** The number of entries of the error log. *)
Definition log_size (s : state) : nat := List.length (error_log (self s)).

(** ** The worker adjuster (lines 64-72 and 274-321)

    [_jpg_worker_adjuster] watches the CPU load and replaces the thread pool
    by a smaller or a larger one. *)

Definition THREAD_ADJUST_MIN_INTERVAL : Z := 5.

(** The attributes set by lines 65-72. A [datetime] is counted in
    microseconds, its resolution: a difference of [d] microseconds has
    [total_seconds()] below [5] exactly when [d < 5000000]. *)
Record adjuster := mkAdjuster {
  max_jpg_threads : Z;
  min_jpg_threads : Z;
  cpu_high_threshold : Z;
  cpu_low_threshold : Z;
  cpu_check_interval : Z;
  current_jpg_workers : Z;
  last_adjust_time : Z }.

Definition init_adjuster (p : processor) (now : Z) : adjuster :=
  mkAdjuster 16 4 85 70 2 (jpg_threads p) now.

(** A [ThreadPoolExecutor]: its [max_workers], the paths submitted to it, in
    order, and whether [shutdown] has been called. *)
Record pool := mkPool {
  max_workers : Z;
  submitted : list string;
  is_shut : bool }.

Definition shut (e : pool) : pool := mkPool (max_workers e) (submitted e) true.

(** The variables of the method: the attributes, the local [executor], the
    executors it has replaced (newest first), and [task_queue]: the paths
    waiting in it and its count of unfinished tasks. The last two fields are
    the worker threads' side: the tasks submitted to the current executor
    that have not finished yet, and those of the replaced executors, which
    [shutdown(wait=False)] leaves running. *)
Record adjuster_state := mkAdj {
  attrs : adjuster;
  executor : option pool;
  replaced : list pool;
  task_queue : list string;
  unfinished_tasks : Z;
  waiting : list string;
  orphaned : list string }.

(** What one iteration reads from outside: whether [cancel()] has been called
    before the loop test, [datetime.now()], the outcome of
    [psutil.cpu_percent(interval=1)], [executor._work_queue.qsize()], and
    which of the submitted tasks the worker threads have finished since the
    iteration before. *)
Record observation := mkObs {
  cancel_before : bool;
  now : Z;
  cpu_percent : result pyfloat;
  work_queue_size : Z;
  finished : string -> bool }.

(** [f > n] and [f < n] for a float and an int: Python compares the exact
    values. *)
Definition py_gt_int (f : pyfloat) (n : Z) : bool := n * float_den f <? float_num f.
Definition py_lt_int (f : pyfloat) (n : Z) : bool := float_num f <? n * float_den f.

(** [_get_current_cpu_usage] (lines 274-279); the [50] it returns on failure
    is an int, which compares like the float of the same value. *)
Definition get_current_cpu_usage (sample : result pyfloat) : M pyfloat :=
  try_except (lift sample)
    (fun e => log_error "CPU监测" ("获取CPU占用失败：" ++ e) ;; ret (mkFloat 50 0)).

(** The load the decision is taken on. *)
Definition sampled_load (o : observation) : pyfloat :=
  match cpu_percent o with Ok c => c | Raise _ => mkFloat 50 0 end.

(** Lines 295-303 and 308-316: the new worker count and the time are stored,
    the old executor is shut down without waiting, a new one is created,
    which raises for a count that is not positive, and the queue is drained
    into it: its paths are now tasks of the new executor, and the unfinished
    tasks of the old one go on in its threads. *)
Definition set_workers (new_workers current_time : Z) (st : adjuster_state)
  : result unit * adjuster_state :=
  let a := attrs st in
  let a' := mkAdjuster (max_jpg_threads a) (min_jpg_threads a)
              (cpu_high_threshold a) (cpu_low_threshold a)
              (cpu_check_interval a) new_workers current_time in
  if new_workers <=? 0
  then (Raise "max_workers must be greater than 0",
        mkAdj a' (option_map shut (executor st)) (replaced st) (task_queue st)
              (unfinished_tasks st) (waiting st) (orphaned st))
  else (Ok tt,
        mkAdj a' (Some (mkPool new_workers (task_queue st) false))
              (match executor st with
               | Some e => shut e :: replaced st
               | None => replaced st
               end)
              [] (unfinished_tasks st) (task_queue st)
              (orphaned st ++ waiting st)%list).

(** The body of the [while] loop (lines 283-318); the sleeps are left out,
    the time comes with the observation. *)
Definition adjuster_iteration (o : observation) (st : adjuster_state) (s : state)
  : result unit * adjuster_state * state :=
  let a := attrs st in
  let time_since_last_adjust := now o - last_adjust_time a in
  if time_since_last_adjust <? THREAD_ADJUST_MIN_INTERVAL * 1000000
  then (Ok tt, st, s)
  else
    match get_current_cpu_usage (cpu_percent o) s with
    | (Raise e, s1) => (Raise e, st, s1)
    | (Ok cpu_usage, s1) =>
        if (py_gt_int cpu_usage (cpu_high_threshold a)
            && (current_jpg_workers a >? min_jpg_threads a))%bool
        then
          let (r, st') :=
            set_workers (Z.max (current_jpg_workers a - 2) (min_jpg_threads a))
                        (now o) st in
          (r, st', s1)
        else if (py_lt_int cpu_usage (cpu_low_threshold a)
                 && (current_jpg_workers a <? max_jpg_threads a))%bool
        then
          let (r, st') :=
            set_workers (Z.min (current_jpg_workers a + 2) (max_jpg_threads a))
                        (now o) st in
          (r, st', s1)
        else (Ok tt, st, s1)
    end.

(** How the method stands when the observations end: still in the loop,
    returned, or left by an exception. *)
Inductive loop_status := Looping | Returned | Raised (msg : string).

(** The worker threads. Each task is a call of [_jpg_task_wrapper]; what
    it returns or raises stays in its future, which nobody reads. As in the
    scheduler loop of run, the effects of a task on the shared state take
    place when it finishes. [run_tasks] runs those of [tasks] that
    [is_done] selects and returns the others. *)
Fixpoint run_tasks (w : world) (is_done : string -> bool) (tasks : list string)
    (unfinished : Z) (s : state) : list string * Z * state :=
  match tasks with
  | [] => ([], unfinished, s)
  | f :: rest =>
      if is_done f
      then let '(_, n, s1) := jpg_task_wrapper w f unfinished s in
           run_tasks w is_done rest n s1
      else let '(later, n, s1) := run_tasks w is_done rest unfinished s in
           (f :: later, n, s1)
  end.

(** The tasks that finish between two tests of the loop. *)
Definition workers_progress (w : world) (is_done : string -> bool)
    (st : adjuster_state) (s : state) : adjuster_state * state :=
  let '(orphaned', n1, s1) :=
    run_tasks w is_done (orphaned st) (unfinished_tasks st) s in
  let '(waiting', n2, s2) := run_tasks w is_done (waiting st) n1 s1 in
  (mkAdj (attrs st) (executor st) (replaced st) (task_queue st) n2
         waiting' orphaned', s2).

(** [executor.shutdown(wait=True)] (lines 320-321): the tasks of the current
    executor finish; those of replaced executors are not waited for. *)
Definition shutdown_wait (w : world) (st : adjuster_state) (s : state)
  : adjuster_state * state :=
  match executor st with
  | Some e =>
      let '(_, n, s1) :=
        run_tasks w (fun _ => true) (waiting st) (unfinished_tasks st) s in
      (mkAdj (attrs st) (Some (shut e)) (replaced st) (task_queue st) n
             [] (orphaned st), s1)
  | None => (st, s)
  end.

(** [_jpg_worker_adjuster] (lines 281-321), one iteration per observation:
    the worker threads make the progress the observation tells, then the
    loop is tested. *)
Fixpoint jpg_worker_adjuster (w : world) (obs : list observation)
    (st : adjuster_state) (s : state) : loop_status * adjuster_state * state :=
  match obs with
  | [] => (Looping, st, s)
  | o :: rest =>
      let (st1, s1) := workers_progress w (finished o) st s in
      let s0 := if cancel_before o then mkState (cancel (self s1)) (disk s1)
                else s1 in
      if (running (self s0)
          && (nonempty (task_queue st1)
              || match executor st1 with
                 | Some _ => 0 <? work_queue_size o
                 | None => false
                 end))%bool
      then
        match adjuster_iteration o st1 s0 with
        | (Ok _, st', s') => jpg_worker_adjuster w rest st' s'
        | (Raise e, st', s') => (Raised e, st', s')
        end
      else
        let (st2, s2) := shutdown_wait w st1 s0 in (Returned, st2, s2)
  end.

(** The worker count stays within the bounds of lines 65-66, or within the
    initial count when that was larger. *)
Definition within_bounds (initial : Z) (a : adjuster) : Prop :=
  max_jpg_threads a = 16 /\ min_jpg_threads a = 4 /\
  cpu_high_threshold a = 85 /\ cpu_low_threshold a = 70 /\
  4 <= current_jpg_workers a <= Z.max 16 initial.

(** Every path handed to the method: in an executor or still queued. *)
Definition all_tasks (st : adjuster_state) : list string :=
  (task_queue st
   ++ match executor st with Some e => submitted e | None => [] end
   ++ flat_map submitted (replaced st))%list.

(** The paths whose task has not finished: queued, or submitted to the
    current or to a replaced executor. *)
Definition pending_count (st : adjuster_state) : Z :=
  Z.of_nat (List.length (task_queue st) + List.length (waiting st)
            + List.length (orphaned st)).

(** What the tasks have accounted for: the files counted as processed and
    the entries of the error log. *)
Definition task_account (s : state) : Z :=
  processed_files (self s) + Z.of_nat (List.length (error_log (self s))).

(** ** _update_progress (lines 760-766)

    The percentage shown by the progress bar; the int [0] of the first
    branch is the float of the same value. *)
Definition update_progress (processed total : Z) : pyfloat :=
  if total =? 0 then mkFloat 0 0
  else py_mul_int 100 (py_truediv processed total).

(** ** The entry points *)

(** What [_start_processing] (lines 662-714) ends with: it returns early,
    with or without an error box, an exception leaves it, or a processor is
    created and its run is started. *)
Inductive start_outcome :=
| Refused (message : option string)
| Crashed (msg : string)
| Started (p : processor).

(** [_start_processing]. The two entry fields are read as strings;
    [os.path.isdir], the answer to the question asked when both directories
    are the same, the reads of the two [IntVar]s (which raise on text that
    is not a number) and the outcome of [_save_config] come from outside.
    [abspath] is [os.path.abspath]. *)
Definition start_processing (abspath : string -> string)
    (input_dir output_dir : string) (input_is_dir output_is_dir : bool)
    (confirmed : bool) (max_side_var jpg_quality_var : result Z)
    (saved : result unit) (process_raw_var high_quality_raw_var : bool)
    (cpu_count : Z) : start_outcome :=
  if (String.eqb input_dir "" || negb input_is_dir)%bool
  then Refused (Some "请选择有效的图片文件夹")
  else if (String.eqb output_dir "" || negb output_is_dir)%bool
  then Refused (Some "请选择有效的保存文件夹")
  else if (String.eqb input_dir output_dir && negb confirmed)%bool
  then Refused None
  else
    match max_side_var, jpg_quality_var with
    | Ok max_side_v, Ok jpg_quality_v =>
        if ((max_side_v <=? 0) || (max_side_v >? 10000))%bool
        then Refused (Some "最大边长必须在1-10000之间")
        else if ((jpg_quality_v <? 1) || (jpg_quality_v >? 100))%bool
        then Refused (Some "JPG质量必须在1-100之间")
        else
          match saved with
          | Raise e => Crashed e
          | Ok _ =>
              Started (init (abspath input_dir) (abspath output_dir)
                            max_side_v jpg_quality_v process_raw_var
                            high_quality_raw_var None cpu_count)
          end
    | _, _ => Refused (Some "请输入有效的数值参数")
    end.

(** The options of the command line (lines 802-811); an option that was not
    given is [None]. *)
Record cli_args := mkArgs {
  arg_cli : bool;
  arg_input : option string;
  arg_output : option string;
  arg_max_side : option Z;
  arg_quality : option Z;
  arg_threads : option Z;
  arg_no_raw : bool;
  arg_hq_raw : bool }.

(** [x if x else default] for an optional int: [None] and [0] are false. *)
Definition int_or (x : option Z) (default : Z) : Z :=
  match x with
  | Some n => if n =? 0 then default else n
  | None => default
  end.

(** Lines 812-822: the processor the command line runs; [None] when the
    graphical interface is started instead. *)
Definition cli_processor (abspath : string -> string) (args : cli_args)
    (cpu_count : Z) : option processor :=
  match arg_input args, arg_output args with
  | Some i, Some o =>
      if (arg_cli args && negb (String.eqb i "") && negb (String.eqb o ""))%bool
      then Some (init (abspath i) (abspath o)
                      (int_or (arg_max_side args) DEFAULT_MAX_SIDE)
                      (int_or (arg_quality args) DEFAULT_JPG_QUALITY)
                      (negb (arg_no_raw args)) (arg_hq_raw args)
                      (arg_threads args) cpu_count)
      else None
  | _, _ => None
  end.

(** ** More examples *)

(** An adjuster at four workers with one queued path, and an observation,
    six seconds later, at which the CPU load cannot be read. *)
Definition example_adjuster_state : adjuster_state :=
  mkAdj (init_adjuster (init "/in" "/out" 3000 95 true false (Some 4) 4) 0)
        None [] ["/in/a.jpg"] 1 [] [].

Definition observation_failed : observation :=
  mkObs false 6000000 (Raise "access denied") 0 (fun _ => false).

(** The arguments of [--cli --input /in --output /out --quality 10]. *)
Definition example_args : cli_args :=
  mkArgs true (Some "/in") (Some "/out") None (Some 10) None false false.

(** An environment without the [rawpy] module. *)
Definition world_no_rawpy : world :=
  mkWorld [("/in", ["a.jpg"; "b.cr2"])] decode_ok raw_decode_ok false
          None [] None (fun _ => None).

(** ** The walk, key by key *)

(** The walk holds a standard image, respectively a RAW file, with key [k]
    that is not a system file. *)
Definition has_image (k : string) (es : list entry) : bool :=
  existsb (fun e => is_image_entry e && String.eqb (entry_key e) k)%bool es.

Definition has_raw (k : string) (es : list entry) : bool :=
  existsb (fun e => is_raw_entry e && String.eqb (entry_key e) k)%bool es.

(** The keys for which the walk holds both, each key once. *)
Definition paired_keys (es : list entry) : list string :=
  filter (fun k => has_image k es && has_raw k es)%bool
         (nodup string_dec (map entry_key es)).

(** The walk without the files that the scan takes for system files. *)
Definition drop_system_files (dirs : list (string * list string))
  : list (string * list string) :=
  map (fun d => (fst d, filter (fun f => negb (is_system_file f)) (snd d))) dirs.

Definition without_system_files (w : world) : world :=
  mkWorld (drop_system_files (walk w))
          (decode w) (raw_decode w) (rawpy_available w) (scan_cancel w)
          (polls w) (raw_cancel w) (os_error w).

(** The same environment in which the file [f] decodes in another way: as
    [d] says for the imaging library, as [rd] says for the RAW library. *)
Definition with_codec (w : world) (f : string) (d : nat -> result (Z * Z))
    (rd : result (Z * Z)) : world :=
  mkWorld (walk w)
          (fun g n => if String.eqb g f then d n else decode w g n)
          (fun g => if String.eqb g f then rd else raw_decode w g)
          (rawpy_available w) (scan_cancel w) (polls w) (raw_cancel w)
          (os_error w).

(** ** The error log of the standard-image stage *)

(** What a job leaves in the error log: nothing when its future holds a true
    value; otherwise the entry written by process_image (line 188) and, when
    the control thread reads the future, the entry written by run
    (line 445). *)
Definition job_entries (read_by_run : bool) (job : string * result pyval)
    (l : list log_entry) : Prop :=
  if succeeded (snd job) then l = []
  else exists e,
      l = mkEntry (basename (fst job)) e
          :: (if read_by_run
              then [mkEntry (basename (fst job)) "处理失败"] else []).

(** From [s] to [s'] the jobs [jobs] have been run, in this order: the error
    log has grown by their entries, and the output of every job that
    succeeded is on the disk. *)
Definition jobs_done (read_by_run : bool) (jobs : list (string * result pyval))
    (s s' : state) : Prop :=
  (exists ls, Forall2 (job_entries read_by_run) jobs ls /\
              error_log (self s') = (error_log (self s) ++ List.concat ls)%list) /\
  (forall f r, In (f, r) jobs -> succeeded r = true -> is_processed s' f = true).

(** The same, together with what holds all along a stage: the disk has only
    grown, and the configuration is that of [p]. *)
Definition stage_steps (w : world) (p : processor) (read_by_run : bool)
    (jobs : list (string * result pyval)) (s s' : state) : Prop :=
  jobs_done read_by_run jobs s s' /\ adds w p s s' /\
  config_of (self s') = config_of p.

(** A computation that only appends to the error log. *)
Definition extends_log {A : Type} (m : M A) : Prop :=
  forall s, exists added,
    error_log (self (snd (m s))) = (error_log (self s) ++ added)%list.

(** ** More environments *)

(** [A.JPG] beside [a.cr2], and a third file [b.CR2] without an image. *)
Definition world_pair_mixed : world :=
  quiet_world [("/in", ["A.JPG"; "a.cr2"; "b.CR2"])] decode_ok.

(** A tree with two system files. *)
Definition world_system_files : world :=
  quiet_world [("/in", ["._a.jpg"; "a.jpg"; "_b.cr2"; "c.CR2"])] decode_ok.

(** A decoder that fails for [/in/b.jpg] only, and a run over three images
    that is cancelled after the first poll, which finds only [/in/a.jpg]
    finished. *)
Definition decode_b_broken : string -> nat -> result (Z * Z) :=
  fun f _ => if String.eqb f "/in/b.jpg"
             then Raise "cannot identify image file" else Ok (4000, 3000).

Definition world_cancelled_mid_stage : world :=
  mkWorld [("/in", ["a.jpg"; "b.jpg"; "c.jpg"])] decode_b_broken raw_decode_ok
          true None
          [mkPoll (fun f => String.eqb f "/in/a.jpg") true] None
          (fun _ => None).

(** An environment in which the error report cannot be opened. *)
Definition world_report_refused : world :=
  mkWorld [("/in", ["a.jpg"])] decode_broken raw_decode_ok true None [] None
          (fun p => if String.eqb p "/out/错误日志.txt"
                    then Some "Permission denied" else None).
(** * Lemmas *)

(** ** Rounding to binary64 *)

Ltac push_IZR H :=
  repeat (rewrite mult_IZR in H || rewrite plus_IZR in H || rewrite minus_IZR in H).

Lemma up2_pos e : 0 < up2 e.
Proof. unfold up2. apply Z.pow_pos_nonneg; lia. Qed.

Lemma up2_nonneg_exp e : 0 <= e -> up2 e = 2 ^ e /\ up2 (- e) = 1.
Proof.
  intros He. unfold up2. split.
  - now rewrite Z.max_r by lia.
  - now rewrite Z.max_l by lia.
Qed.

Lemma up2_neg_exp e : e <= 0 -> up2 e = 1 /\ up2 (- e) = 2 ^ (- e).
Proof.
  intros He. unfold up2. split.
  - now rewrite Z.max_l by lia.
  - now rewrite Z.max_r by lia.
Qed.

Lemma rne_spec N D :
  0 <= N -> 0 < D -> 2 * N - D <= 2 * (rne N D * D) <= 2 * N + D.
Proof.
  intros HN HD. unfold rne.
  pose proof (Z.div_mod N D ltac:(lia)) as Hdm.
  pose proof (Z.mod_pos_bound N D HD) as Hr.
  destruct (Z.ltb_spec (2 * (N mod D)) D); [nia|].
  destruct (Z.ltb_spec D (2 * (N mod D))); [nia|].
  destruct (Z.even (N / D)); nia.
Qed.

Lemma rne_nonneg N D : 0 <= N -> 0 < D -> 0 <= rne N D.
Proof.
  intros HN HD. unfold rne.
  pose proof (Z.div_pos N D HN HD).
  destruct (_ <? _); [lia|]. destruct (_ <? _); [lia|]. destruct (Z.even _); lia.
Qed.

Lemma rne_exact D q : 0 < D -> rne (D * q) D = q.
Proof.
  intros HD. unfold rne.
  replace (D * q) with (q * D) by lia.
  rewrite Z.mod_mul, Z.div_mul by lia.
  destruct (Z.ltb_spec (2 * 0) D); [reflexivity | lia].
Qed.

Lemma rnd_expo_norm n d :
  0 < n -> 0 < d ->
  2 ^ 52 * (d * up2 (rnd_expo n d)) <= n * up2 (- rnd_expo n d).
Proof.
  intros Hn Hd. unfold rnd_expo.
  set (e0 := Z.log2 n - Z.log2 d - 53).
  destruct (Z.log2_spec n Hn) as [Hn1 Hn2].
  destruct (Z.log2_spec d Hd) as [Hd1 Hd2].
  pose proof (Z.log2_nonneg n) as Ha. pose proof (Z.log2_nonneg d) as Hb.
  rewrite Z.pow_succ_r in Hn2, Hd2 by assumption.
  destruct (Z_le_gt_dec 0 e0) as [Hpos | Hneg].
  - destruct (up2_nonneg_exp e0 Hpos) as [-> ->].
    assert (HP : 2 ^ Z.log2 n = 2 ^ e0 * 2 ^ Z.log2 d * 2 ^ 53).
    { rewrite <- !Z.pow_add_r by lia. f_equal. unfold e0. lia. }
    assert (0 < 2 ^ e0) by (apply Z.pow_pos_nonneg; lia).
    destruct (Z.leb_spec (2 ^ 53 * (d * 2 ^ e0)) (n * 1)) as [Hc | Hc].
    + destruct (up2_nonneg_exp (e0 + 1) ltac:(lia)) as [-> ->].
      rewrite Z.pow_add_r by lia. change (2 ^ 1) with 2.
      change (2 ^ 53) with (2 * 2 ^ 52) in Hc. lia.
    + destruct (up2_nonneg_exp e0 Hpos) as [-> ->].
      change (2 ^ 53) with (2 * 2 ^ 52) in HP. nia.
  - destruct (up2_neg_exp e0 ltac:(lia)) as [-> ->].
    assert (HP : 2 ^ Z.log2 d * 2 ^ 53 = 2 ^ Z.log2 n * 2 ^ (- e0)).
    { rewrite <- !Z.pow_add_r by lia. f_equal. unfold e0. lia. }
    assert (0 < 2 ^ (- e0)) by (apply Z.pow_pos_nonneg; lia).
    destruct (Z.leb_spec (2 ^ 53 * (d * 1)) (n * 2 ^ (- e0))) as [Hc | Hc].
    + destruct (up2_neg_exp (e0 + 1) ltac:(lia)) as [-> ->].
      assert (HF : 2 ^ (- e0) = 2 * 2 ^ (- (e0 + 1))).
      { rewrite <- Z.pow_succ_r by lia. f_equal. lia. }
      change (2 ^ 53) with (2 * 2 ^ 52) in Hc. nia.
    + destruct (up2_neg_exp e0 ltac:(lia)) as [-> ->].
      change (2 ^ 53) with (2 * 2 ^ 52) in HP. nia.
Qed.


Lemma float_den_pos f : 0 < float_den f.
Proof. apply up2_pos. Qed.

Lemma rnd_num_nonneg n d : 0 <= n -> 0 < d -> 0 <= float_num (rnd n d).
Proof.
  intros Hn Hd. unfold rnd, float_num.
  destruct (Z.eqb_spec n 0); cbn [mant expo]; [lia|].
  apply Z.mul_nonneg_nonneg.
  - apply rne_nonneg.
    + pose proof (up2_pos (- rnd_expo n d)). nia.
    + pose proof (up2_pos (rnd_expo n d)). nia.
  - pose proof (up2_pos (rnd_expo n d)). lia.
Qed.

Lemma val_nonneg n d : 0 <= n -> 0 < d -> (0 <= val (rnd n d))%R.
Proof.
  intros Hn Hd. unfold val.
  apply Rmult_le_pos.
  - apply IZR_le. now apply rnd_num_nonneg.
  - left. apply Rinv_0_lt_compat. apply IZR_lt. apply float_den_pos.
Qed.

Lemma ulp_rel_pos : (0 < ulp_rel)%R.
Proof. unfold ulp_rel. apply Rinv_0_lt_compat. apply IZR_lt. reflexivity. Qed.

Lemma rnd_bounds n d :
  0 <= n -> 0 < d ->
  (IZR n / IZR d * (1 - ulp_rel) <= val (rnd n d) <= IZR n / IZR d * (1 + ulp_rel))%R.
Proof.
  intros Hn Hd.
  assert (Hdr : (0 < IZR d)%R) by now apply IZR_lt.
  destruct (Z.eq_dec n 0) as [-> | Hn0].
  { unfold val, rnd, float_num, float_den. cbn.
    unfold Rdiv. rewrite !Rmult_0_l. lra. }
  unfold val, rnd, float_num, float_den.
  destruct (Z.eqb_spec n 0) as [|_]; [contradiction|]. cbn [mant expo].
  set (e := rnd_expo n d).
  pose proof (rnd_expo_norm n d ltac:(lia) Hd) as Hnorm. fold e in Hnorm.
  pose proof (up2_pos e) as HU. pose proof (up2_pos (- e)) as HV.
  set (U := up2 e) in *. set (V := up2 (- e)) in *.
  pose proof (rne_spec (n * V) (d * U) ltac:(nia) ltac:(nia)) as [Hlo Hhi].
  set (m := rne (n * V) (d * U)) in *.
  apply IZR_le in Hlo, Hhi, Hnorm.
  push_IZR Hlo. push_IZR Hhi. push_IZR Hnorm.
  rewrite mult_IZR.
  apply IZR_lt in HU, HV.
  assert (Hnr : (0 < IZR n)%R) by (apply IZR_lt; lia).
  set (rm := IZR m) in *. set (rU := IZR U) in *. set (rV := IZR V) in *.
  set (rn := IZR n) in *. set (rd := IZR d) in *.
  unfold ulp_rel.
  change (2 ^ 53) with (2 * 2 ^ 52). rewrite mult_IZR.
  set (T := IZR (2 ^ 52)) in *.
  assert (HT : (0 < T)%R) by (apply IZR_lt; reflexivity).
  assert (HA : (rd * rU <= rn * rV * / T)%R).
  { apply Rmult_le_reg_l with T; [assumption|].
    replace (T * (rn * rV * / T))%R with (rn * rV)%R by (field; lra). lra. }
  assert (Heq1 : (rm * rU / rV = (rm * (rd * rU)) * / (rd * rV))%R) by (field; lra).
  assert (Heq2 : forall c, (rn / rd * c = (rn * rV * c) * / (rd * rV))%R)
    by (intro c; field; lra).
  assert (Hpos : (0 < / (rd * rV))%R).
  { apply Rinv_0_lt_compat. apply Rmult_lt_0_compat; assumption. }
  rewrite Heq1, !Heq2.
  replace (/ (2 * T))%R with (/ T * / 2)%R by (field; lra).
  replace (rn * rV * (1 - / T * / 2))%R with (rn * rV - rn * rV * / T * / 2)%R by ring.
  replace (rn * rV * (1 + / T * / 2))%R with (rn * rV + rn * rV * / T * / 2)%R by ring.
  set (W := (rn * rV * / T)%R) in *. set (X := (rn * rV)%R) in *.
  set (Y := (rm * (rd * rU))%R) in *. set (C := (rd * rU)%R) in *.
  split; apply Rmult_le_compat_r; lra.
Qed.

Lemma rnd_exact d j :
  0 < d -> 0 <= j < 2 ^ 52 -> val (rnd (d * j) d) = IZR j.
Proof.
  intros Hd [Hj0 Hj].
  destruct (Z.eq_dec j 0) as [-> | Hjn].
  { rewrite Z.mul_0_r. unfold val, rnd, float_num, float_den. cbn.
    unfold Rdiv. now rewrite Rmult_0_l. }
  assert (Hn : 0 < d * j) by nia.
  unfold val, rnd, float_num, float_den.
  destruct (Z.eqb_spec (d * j) 0) as [|_]; [lia|]. cbn [mant expo].
  assert (He : rnd_expo (d * j) d <= 0).
  { unfold rnd_expo.
    pose proof (Z.log2_mul_above d j ltac:(lia) ltac:(lia)).
    assert (Z.log2 j < 52) by (apply Z.log2_lt_pow2; lia).
    destruct (_ <=? _); lia. }
  destruct (up2_neg_exp _ He) as [-> ->].
  set (F := 2 ^ (- rnd_expo (d * j) d)).
  assert (HF : 0 < F) by (apply Z.pow_pos_nonneg; lia).
  replace (d * j * F) with ((d * 1) * (j * F)) by ring.
  rewrite rne_exact by lia.
  rewrite Z.mul_1_r, mult_IZR. field.
  apply eq_IZR_contrapositive. lia.
Qed.

Lemma py_floor_spec f :
  0 <= float_num f ->
  (IZR (float_num f / float_den f) <= val f < IZR (float_num f / float_den f) + 1)%R.
Proof.
  intros Hn. unfold val.
  pose proof (float_den_pos f) as Hd.
  pose proof (Z.div_mod (float_num f) (float_den f) ltac:(lia)) as Hdm.
  pose proof (Z.mod_pos_bound (float_num f) (float_den f) Hd) as Hr.
  set (q := float_num f / float_den f) in *.
  set (r := float_num f mod float_den f) in *.
  assert (Hrd : (0 < IZR (float_den f))%R) by now apply IZR_lt.
  rewrite Hdm. rewrite plus_IZR, mult_IZR.
  destruct Hr as [Hr0 Hr1]. apply IZR_le in Hr0. apply IZR_lt in Hr1.
  split.
  - apply Rmult_le_reg_r with (IZR (float_den f)); [assumption|].
    unfold Rdiv. rewrite Rmult_assoc, Rinv_l by lra. lra.
  - apply Rmult_lt_reg_r with (IZR (float_den f)); [assumption|].
    unfold Rdiv. rewrite Rmult_assoc, Rinv_l by lra. lra.
Qed.

Lemma ulp_rel_val : ulp_rel = (/ 9007199254740992)%R.
Proof. reflexivity. Qed.

Lemma py_int_floor f :
  0 <= float_num f ->
  (IZR (py_int f) <= val f < IZR (py_int f) + 1)%R.
Proof.
  intros Hn. unfold py_int.
  rewrite Z.quot_div_nonneg by (auto using float_den_pos).
  now apply py_floor_spec.
Qed.

Lemma floor_unique (a b : Z) (v : R) :
  (IZR a <= v < IZR a + 1)%R -> (IZR b <= v < IZR b + 1)%R -> a = b.
Proof.
  intros [Ha1 Ha2] [Hb1 Hb2].
  assert (H1 : (IZR a < IZR (b + 1))%R) by (rewrite plus_IZR; lra).
  assert (H2 : (IZR b < IZR (a + 1))%R) by (rewrite plus_IZR; lra).
  apply lt_IZR in H1, H2. lia.
Qed.

Lemma val_mul_int w f :
  (IZR (w * float_num f) / IZR (float_den f) = IZR w * val f)%R.
Proof. unfold val. rewrite mult_IZR. unfold Rdiv. ring. Qed.

Section Scaled.
Variables ms mx w : Z.
Hypothesis Hms : 0 < ms < mx.
Hypothesis Hmx : mx <= dim_limit.
Hypothesis Hw : 0 < w <= mx.

Let ratio := py_truediv ms mx.
Let x := py_mul_int w ratio.
Let S : R := (IZR (w * ms) / IZR mx)%R.

Lemma ratio_num_nonneg : 0 <= float_num ratio.
Proof. apply rnd_num_nonneg; lia. Qed.

Lemma x_num_nonneg : 0 <= float_num x.
Proof.
  apply rnd_num_nonneg.
  - pose proof ratio_num_nonneg. nia.
  - apply float_den_pos.
Qed.

Lemma S_range : (0 < S <= IZR ms)%R.
Proof.
  unfold S. rewrite mult_IZR.
  assert (H1 : (0 < IZR mx)%R) by (apply IZR_lt; lia).
  assert (H2 : (0 < IZR ms)%R) by (apply IZR_lt; lia).
  assert (H3 : (0 < IZR w)%R) by (apply IZR_lt; lia).
  assert (H4 : (IZR w <= IZR mx)%R) by (apply IZR_le; lia).
  split.
  - apply Rdiv_lt_0_compat; [apply Rmult_lt_0_compat|]; assumption.
  - apply Rmult_le_reg_r with (IZR mx); [assumption|].
    unfold Rdiv. rewrite Rmult_assoc, Rinv_l, Rmult_1_r by lra.
    rewrite Rmult_comm. apply Rmult_le_compat_l; lra.
Qed.

Lemma scaled_bounds : (S - slack <= val x <= S + slack)%R.
Proof.
  pose proof S_range as [HS0 HS1].
  assert (Hlim : (IZR ms <= 2147483648)%R).
  { apply IZR_le. unfold dim_limit in Hmx. change (2 ^ 31) with 2147483648 in Hmx. lia. }
  pose proof (rnd_bounds ms mx ltac:(lia) ltac:(lia)) as Hr.
  fold (py_truediv ms mx) in Hr. fold ratio in Hr.
  pose proof (rnd_bounds (w * float_num ratio) (float_den ratio)) as Hx.
  specialize (Hx ltac:(pose proof ratio_num_nonneg; nia) (float_den_pos _)).
  fold (py_mul_int w ratio) in Hx. fold x in Hx.
  rewrite val_mul_int in Hx.
  assert (HwS : (IZR w * (IZR ms / IZR mx) = S)%R).
  { unfold S. rewrite mult_IZR. unfold Rdiv. ring. }
  assert (Hw0 : (0 <= IZR w)%R) by (apply IZR_le; lia).
  rewrite ulp_rel_val in Hr, Hx.
  destruct Hr as [Hr1 Hr2].
  apply (Rmult_le_compat_l _ _ _ Hw0) in Hr1, Hr2.
  rewrite <- Rmult_assoc, HwS in Hr1, Hr2.
  set (A := (IZR w * val ratio)%R) in *.
  unfold slack. lra.
Qed.
End Scaled.

Lemma rne_real N D :
  0 <= N -> 0 < D ->
  (IZR N / IZR D - / 2 <= IZR (rne N D) <= IZR N / IZR D + / 2)%R.
Proof.
  intros HN HD.
  pose proof (rne_spec N D HN HD) as [Hlo Hhi].
  apply IZR_le in Hlo, Hhi. push_IZR Hlo. push_IZR Hhi.
  assert (HDr : (0 < IZR D)%R) by now apply IZR_lt.
  set (k := IZR (rne N D)) in *.
  split.
  - apply Rmult_le_reg_r with (IZR D); [assumption|].
    replace ((IZR N / IZR D - / 2) * IZR D)%R with (IZR N - IZR D / 2)%R by (field; lra).
    lra.
  - apply Rmult_le_reg_r with (IZR D); [assumption|].
    replace ((IZR N / IZR D + / 2) * IZR D)%R with (IZR N + IZR D / 2)%R by (field; lra).
    lra.
Qed.

Lemma round2_cents_real f :
  0 <= float_num f ->
  (100 * val f - / 2 <= IZR (round2_cents f) <= 100 * val f + / 2)%R.
Proof.
  intros Hf. unfold round2_cents.
  pose proof (rne_real (100 * float_num f) (float_den f) ltac:(lia) (float_den_pos f)) as H.
  rewrite val_mul_int in H. exact H.
Qed.

Lemma py_int_round2 f :
  0 <= float_num f -> round2_cents f < 2 ^ 53 ->
  py_int (py_round2 f) = round2_cents f / 100.
Proof.
  intros Hf Hk.
  assert (Hk0 : 0 <= round2_cents f).
  { unfold round2_cents. apply rne_nonneg; [lia | apply float_den_pos]. }
  unfold py_round2. fold (round2_cents f).
  set (k := round2_cents f) in *.
  pose proof (Z.div_mod k 100 ltac:(lia)) as Hdm.
  pose proof (Z.mod_pos_bound k 100 ltac:(lia)) as Hrho.
  set (j := k / 100) in *. set (rho := k mod 100) in *.
  change (2 ^ 53) with 9007199254740992 in Hk.
  assert (Hnum : 0 <= float_num (rnd k 100)) by (apply rnd_num_nonneg; lia).
  apply (floor_unique _ _ (val (rnd k 100)) (py_int_floor _ Hnum)).
  destruct (Z.eq_dec rho 0) as [Hz | Hnz].
  - assert (Hkj : k = 100 * j) by lia.
    rewrite Hkj, rnd_exact; [lra | lia |].
    change (2 ^ 52) with 4503599627370496. lia.
  - pose proof (rnd_bounds k 100 Hk0 ltac:(lia)) as [Hb1 Hb2].
    rewrite ulp_rel_val in Hb1, Hb2.
    assert (Hkr : IZR k = (100 * IZR j + IZR rho)%R).
    { rewrite Hdm at 1. now rewrite plus_IZR, mult_IZR. }
    assert (Hr1 : (1 <= IZR rho)%R) by (apply IZR_le; lia).
    assert (Hr2 : (IZR rho <= 99)%R) by (apply IZR_le; lia).
    assert (Hj0 : (0 <= IZR j)%R) by (apply IZR_le; lia).
    assert (Hkb : (IZR k < 9007199254740992)%R) by (apply IZR_lt; lia).
    rewrite Hkr in *. lra.
Qed.

Lemma force_even_even n : Z.even (force_even n) = true.
Proof.
  unfold force_even. destruct (Z.eqb_spec (n mod 2) 0) as [H | H].
  - rewrite Zeven_mod. now apply Z.eqb_eq.
  - rewrite Z.even_add, Zeven_mod.
    pose proof (Z.mod_pos_bound n 2 ltac:(lia)).
    replace (n mod 2 =? 0) with false by (symmetry; apply Z.eqb_neq; lia).
    reflexivity.
Qed.

Lemma force_even_range n : n <= force_even n <= n + 1.
Proof. unfold force_even. destruct (_ =? _); lia. Qed.

Lemma force_even_odd n : Z.odd n = true -> force_even n = n + 1.
Proof.
  intros H. unfold force_even. rewrite Zodd_mod in H.
  apply Z.eqb_eq in H. rewrite H. reflexivity.
Qed.

Lemma force_even_evn n : Z.even n = true -> force_even n = n.
Proof.
  intros H. unfold force_even. rewrite Zeven_mod in H.
  apply Z.eqb_eq in H. rewrite H. reflexivity.
Qed.

Section Dims.
Variables ms mx w : Z.
Hypothesis Hms : 0 < ms < mx.
Hypothesis Hmx : mx <= dim_limit.
Hypothesis Hw : 0 < w <= mx.

Let ratio := py_truediv ms mx.
Let x := py_mul_int w ratio.
Let S : R := (IZR (w * ms) / IZR mx)%R.

Lemma ms_real_limit : (IZR ms <= 2147483648)%R.
Proof.
  apply IZR_le. unfold dim_limit in Hmx.
  change (2 ^ 31) with 2147483648 in Hmx. lia.
Qed.

Lemma scaled_lt_int (t : Z) : (S < IZR t)%R -> w * ms < t * mx.
Proof.
  intros H. apply lt_IZR. rewrite (mult_IZR t).
  assert (H1 : (0 < IZR mx)%R) by (apply IZR_lt; lia).
  unfold S in H.
  apply (Rmult_lt_compat_r _ _ _ H1) in H.
  unfold Rdiv in H. rewrite Rmult_assoc, Rinv_l, Rmult_1_r in H by lra.
  exact H.
Qed.

Lemma std_trunc_bounds :
  let t := py_int (py_round2 x) in
  t <= ms /\ w * ms < (t + 1) * mx.
Proof.
  pose proof (scaled_bounds ms mx w Hms Hmx Hw) as Hx.
  pose proof (S_range ms mx w Hms Hw) as HS.
  pose proof (x_num_nonneg ms mx w Hms Hw) as Hx0.
  fold ratio x in Hx, Hx0. fold S in HS. cbv zeta in Hx. fold S in Hx.
  pose proof ms_real_limit as Hlim.
  pose proof (round2_cents_real x Hx0) as Hk.
  unfold slack in Hx.
  assert (Hk53 : round2_cents x < 2 ^ 53).
  { apply lt_IZR. change (2 ^ 53) with 9007199254740992. lra. }
  cbv zeta. rewrite (py_int_round2 x Hx0 Hk53).
  set (k := round2_cents x) in *.
  pose proof (Z.div_mod k 100 ltac:(lia)) as Hdm.
  pose proof (Z.mod_pos_bound k 100 ltac:(lia)) as Hrho.
  set (t := k / 100) in *.
  assert (Hlo : (100 * IZR t <= IZR k)%R).
  { rewrite <- mult_IZR. apply IZR_le. lia. }
  assert (Hhi : (IZR k <= 100 * IZR t + 99)%R).
  { rewrite <- mult_IZR, <- plus_IZR. apply IZR_le. lia. }
  split.
  - assert (H : (IZR t < IZR (ms + 1))%R) by (rewrite plus_IZR; lra).
    apply lt_IZR in H. lia.
  - apply scaled_lt_int. rewrite plus_IZR. lra.
Qed.

Lemma raw_trunc_bounds :
  let t := py_int x in
  t <= ms /\ w * ms < (t + 2) * mx.
Proof.
  pose proof (scaled_bounds ms mx w Hms Hmx Hw) as Hx.
  pose proof (S_range ms mx w Hms Hw) as HS.
  pose proof (x_num_nonneg ms mx w Hms Hw) as Hx0.
  fold ratio x in Hx, Hx0. fold S in HS. cbv zeta in Hx. fold S in Hx.
  pose proof (py_int_floor x Hx0) as Hfl.
  unfold slack in Hx. cbv zeta.
  set (t := py_int x) in *.
  split.
  - assert (H : (IZR t < IZR (ms + 1))%R) by (rewrite plus_IZR; lra).
    apply lt_IZR in H. lia.
  - apply scaled_lt_int. rewrite plus_IZR. lra.
Qed.

Lemma std_dim_bounds :
  Z.even (std_dim w ratio) = true /\
  std_dim w ratio <= ms + 1 /\ w * ms < (std_dim w ratio + 1) * mx.
Proof.
  unfold std_dim. fold x.
  pose proof std_trunc_bounds as [H1 H2]. cbv zeta in H1, H2.
  pose proof (force_even_range (py_int (py_round2 x))) as Hr.
  split; [apply force_even_even|]. split; [lia | nia].
Qed.

Lemma raw_dim_bounds :
  Z.even (raw_dim w ratio) = true /\ raw_dim w ratio <= ms + 1.
Proof.
  unfold raw_dim. fold x.
  pose proof raw_trunc_bounds as [H1 H2]. cbv zeta in H1, H2.
  pose proof (force_even_range (py_int x)) as Hr.
  split; [apply force_even_even | lia].
Qed.
End Dims.

Section Square.
Variables ms mx : Z.
Hypothesis Hms : 0 < ms < mx.
Hypothesis Hmx : mx <= dim_limit.

Let ratio := py_truediv ms mx.
Let x := py_mul_int mx ratio.

Lemma square_scaled : (IZR ms - slack <= val x <= IZR ms + slack)%R.
Proof.
  pose proof (scaled_bounds ms mx mx Hms Hmx ltac:(lia)) as Hx.
  cbv zeta in Hx. fold ratio x in Hx.
  replace (IZR (mx * ms) / IZR mx)%R with (IZR ms) in Hx; [exact Hx|].
  rewrite mult_IZR. field. apply eq_IZR_contrapositive. lia.
Qed.

Lemma square_std_trunc : py_int (py_round2 x) = ms.
Proof.
  pose proof square_scaled as Hx.
  pose proof (x_num_nonneg ms mx mx Hms ltac:(lia)) as Hx0. fold ratio x in Hx0.
  pose proof (ms_real_limit ms mx Hms Hmx) as Hlim.
  pose proof (round2_cents_real x Hx0) as Hk.
  unfold slack in Hx.
  assert (Hk100 : round2_cents x = 100 * ms).
  { assert (H1 : (IZR (round2_cents x) < IZR (100 * ms + 1))%R)
      by (rewrite plus_IZR, mult_IZR; lra).
    assert (H2 : (IZR (100 * ms - 1) < IZR (round2_cents x))%R)
      by (rewrite minus_IZR, mult_IZR; lra).
    apply lt_IZR in H1, H2. lia. }
  rewrite py_int_round2; [| assumption |].
  - rewrite Hk100. replace (100 * ms) with (ms * 100) by lia.
    apply Z.div_mul. lia.
  - rewrite Hk100. unfold dim_limit in Hmx.
    change (2 ^ 31) with 2147483648 in Hmx.
    change (2 ^ 53) with 9007199254740992. lia.
Qed.

Lemma square_raw_trunc : py_int x = ms \/ py_int x = ms - 1.
Proof.
  pose proof square_scaled as Hx.
  pose proof (x_num_nonneg ms mx mx Hms ltac:(lia)) as Hx0. fold ratio x in Hx0.
  pose proof (py_int_floor x Hx0) as Hfl.
  unfold slack in Hx.
  set (t := py_int x) in *.
  assert (H1 : (IZR t < IZR (ms + 1))%R) by (rewrite plus_IZR; lra).
  assert (H2 : (IZR (ms - 2) < IZR t)%R) by (rewrite minus_IZR; lra).
  apply lt_IZR in H1, H2. lia.
Qed.
End Square.

(** ** The resize arithmetic of both pipelines *)

(** [rnd] against the Standard Library's binary64 operations, on the
    quotients and products of the examples below. *)
Lemma rnd_agrees_with_binary64 :
  sf_of_pyfloat (py_truediv 50 101) = sf_truediv 50 101 /\
  sf_of_pyfloat (py_mul_int 101 (py_truediv 50 101))
    = sf_mul_int 101 (sf_truediv 50 101) /\
  sf_of_pyfloat (py_mul_int 50 (py_truediv 50 101))
    = sf_mul_int 50 (sf_truediv 50 101) /\
  sf_of_pyfloat (py_round2 (py_mul_int 50 (py_truediv 50 101)))
    = sf_truediv 2475 100 /\
  sf_of_pyfloat (py_truediv 3001 4367) = sf_truediv 3001 4367 /\
  sf_of_pyfloat (py_mul_int 4367 (py_truediv 3001 4367))
    = sf_mul_int 4367 (sf_truediv 3001 4367) /\
  sf_of_pyfloat (py_mul_int 4000 (py_truediv 3001 4000))
    = sf_mul_int 4000 (sf_truediv 3001 4000).
Proof. repeat split; vm_compute; reflexivity. Qed.

Lemma std_size_resized ms w h :
  ms < Z.max w h ->
  std_size ms w h
  = (std_dim w (py_truediv ms (Z.max w h)), std_dim h (py_truediv ms (Z.max w h))).
Proof.
  intros H. unfold std_size.
  destruct (Z.gtb_spec (Z.max w h) ms); [reflexivity | lia].
Qed.

Lemma raw_size_resized ms w h :
  ms < Z.max w h ->
  raw_size ms w h
  = (raw_dim w (py_truediv ms (Z.max w h)), raw_dim h (py_truediv ms (Z.max w h))).
Proof.
  intros H. unfold raw_size.
  destruct (Z.gtb_spec (Z.max w h) ms); [reflexivity | lia].
Qed.

(** The property of the even-dimension policy as the specification words
    it: both sides even, and neither below the exact scaled value
    [side * max_side / max(w, h)]. *)
Definition even_and_not_below (ms w h : Z) : Prop :=
  Z.even (fst (std_size ms w h)) = true /\
  Z.even (snd (std_size ms w h)) = true /\
  w * ms <= fst (std_size ms w h) * Z.max w h /\
  h * ms <= snd (std_size ms w h) * Z.max w h.

(** The example of the specification: a square source larger than an odd
    [max_side] comes out as [(max_side + 1) x (max_side + 1)] in both
    pipelines. *)
Definition square_grows_in_both (ms w : Z) : Prop :=
  std_size ms w w = (ms + 1, ms + 1) /\ raw_size ms w w = (ms + 1, ms + 1).

(** ** The configuration is never written *)

Create HintDb frame.

Lemma frames_ret {A : Type} (a : A) : frames (ret a).
Proof. intros s. reflexivity. Qed.

Lemma frames_raise {A : Type} (e : string) : frames (@raise A e).
Proof. intros s. reflexivity. Qed.

Lemma frames_bind {A B : Type} (m : M A) (k : A -> M B) :
  frames m -> (forall a, frames (k a)) -> frames (bind m k).
Proof.
  intros Hm Hk s. unfold bind. specialize (Hm s).
  destruct (m s) as [[a | e] s']; cbn [snd] in *.
  - now rewrite Hk.
  - exact Hm.
Qed.

Lemma frames_try {A : Type} (m : M A) (h : string -> M A) :
  frames m -> (forall e, frames (h e)) -> frames (try_except m h).
Proof.
  intros Hm Hh s. unfold try_except. specialize (Hm s).
  destruct (m s) as [[a | e] s']; cbn [snd] in *.
  - exact Hm.
  - now rewrite Hh.
Qed.

Lemma frames_get_self : frames get_self.
Proof. intros s. reflexivity. Qed.

Lemma frames_get_disk : frames get_disk.
Proof. intros s. reflexivity. Qed.

Lemma frames_modify_disk f : frames (modify_disk f).
Proof. intros s. reflexivity. Qed.

Lemma frames_modify_self f :
  (forall p, config_of (f p) = config_of p) -> frames (modify_self f).
Proof. intros Hf s. cbn. apply Hf. Qed.

Lemma frames_lift {A : Type} (r : result A) : frames (lift r).
Proof. destruct r; intros s; reflexivity. Qed.

Lemma frames_if {A : Type} (b : bool) (m1 m2 : M A) :
  frames m1 -> frames m2 -> frames (if b then m1 else m2).
Proof. destruct b; auto. Qed.

#[local] Hint Resolve frames_ret frames_raise frames_get_self frames_get_disk
  frames_modify_disk frames_lift : frame.

Ltac frame_step :=
  match goal with
  | |- frames (bind _ _) => apply frames_bind; [| intro]
  | |- frames (try_except _ _) => apply frames_try; [| intro]
  | |- frames (if _ then _ else _) => apply frames_if
  | |- frames (match ?x with _ => _ end) => destruct x
  | |- frames (modify_self _) => apply frames_modify_self; intro; reflexivity
  | |- frames _ => solve [auto with frame]
  end.

Ltac frame := repeat frame_step.

Lemma frames_mkdir w d : frames (mkdir w d).
Proof. unfold mkdir. frame. Qed.

Lemma frames_mkdirs w ds : frames (mkdirs w ds).
Proof.
  induction ds as [| d rest IH]; cbn [mkdirs]; frame.
  apply frames_mkdir.
Qed.

Lemma frames_makedirs w d : frames (makedirs w d).
Proof. unfold makedirs. frame. apply frames_mkdirs. Qed.

Lemma frames_open_for_writing w p : frames (open_for_writing w p).
Proof. unfold open_for_writing. frame. Qed.

Lemma frames_write_file w p c : frames (write_file w p c).
Proof. unfold write_file. frame. apply frames_open_for_writing. Qed.

Lemma frames_pil_save w p wd ht q : frames (pil_save w p wd ht q).
Proof. unfold pil_save. frame. apply frames_open_for_writing. Qed.

Lemma frames_pil_resize size : frames (pil_resize size).
Proof. unfold pil_resize. frame. Qed.

Lemma frames_log_error f e : frames (log_error f e).
Proof. unfold log_error. frame. Qed.

#[local] Hint Resolve frames_makedirs frames_write_file frames_pil_save
  frames_pil_resize frames_log_error : frame.

Lemma frames_convert_image w f n : frames (convert_image w f n).
Proof. unfold convert_image. frame. Qed.

#[local] Hint Resolve frames_convert_image : frame.

Lemma frames_process_image_loop w f retries :
  frames (process_image_loop w f retries).
Proof.
  induction retries as [| retry rest IH]; cbn [process_image_loop]; frame.
Qed.

Lemma frames_process_image w f : frames (process_image w f).
Proof. apply frames_process_image_loop. Qed.

Lemma frames_convert_raw w f : frames (convert_raw w f).
Proof. unfold convert_raw. frame. Qed.

#[local] Hint Resolve frames_process_image frames_convert_raw : frame.

Lemma frames_process_raw w f : frames (process_raw w f).
Proof. unfold process_raw. frame. Qed.

Lemma frames_record_result f r : frames (record_result f r).
Proof. unfold record_result. frame. Qed.

#[local] Hint Resolve frames_process_raw frames_record_result : frame.

Lemma poll_futures_config w is_done futures s :
  config_of (self (snd (poll_futures w is_done futures s))) = config_of (self s).
Proof.
  revert s. induction futures as [| f rest IH]; intros s; cbn [poll_futures].
  - reflexivity.
  - destruct (is_done f); [| apply IH].
    unfold run_job.
    pose proof (frames_process_image w f s) as H1.
    destruct (process_image w f s) as [r s1]. cbn [snd] in H1.
    pose proof (frames_record_result f r s1) as H2.
    specialize (IH (snd (record_result f r s1))).
    destruct (poll_futures w is_done rest (snd (record_result f r s1))) as [d s3].
    cbn [snd] in *. congruence.
Qed.

Lemma shutdown_config w futures s :
  config_of (self (snd (shutdown w futures s))) = config_of (self s).
Proof.
  revert s. induction futures as [| f rest IH]; intros s; cbn [shutdown].
  - reflexivity.
  - unfold run_job.
    pose proof (frames_process_image w f s) as H1.
    destruct (process_image w f s) as [r s1]. cbn [snd] in H1.
    specialize (IH s1). destruct (shutdown w rest s1) as [rs s2].
    cbn [snd] in *. congruence.
Qed.

Lemma stage_loop_config fuel w limit evs pending futures acc s ex s' :
  stage_loop fuel w limit evs pending futures acc s = Some (ex, s') ->
  config_of (self s') = config_of (self s).
Proof.
  revert evs pending futures acc s.
  induction fuel as [| fuel IH]; intros evs pending futures acc s; cbn [stage_loop].
  - discriminate.
  - destruct (negb (running (self s))).
    + intros H. now inversion H.
    + destruct (futures ++ firstn (limit - List.length futures) pending)%list
        as [| f0 fs] eqn:E.
      * intros H. now inversion H.
      * destruct (next_poll evs) as [ev evs'].
        pose proof (poll_futures_config w (done_now ev) (f0 :: fs) s) as H1.
        destruct (poll_futures w (done_now ev) (f0 :: fs) s) as [done s1].
        cbn [snd] in H1. intros H. apply IH in H. rewrite H.
        destruct (cancel_after ev); cbn [self]; [| exact H1].
        rewrite <- H1. reflexivity.
Qed.

Lemma frames_jpg_stage w files : frames (jpg_stage w files).
Proof.
  unfold jpg_stage. apply frames_bind; [auto with frame | intro p].
  apply frames_if; [auto with frame |].
  intros s.
  destruct (stage_loop _ w _ (polls w) files [] [] s) as [[ex s1] |] eqn:E;
    [| reflexivity].
  apply stage_loop_config in E.
  pose proof (shutdown_config w (in_flight ex) s1) as H.
  destruct (shutdown w (in_flight ex) s1) as [rs s2]. cbn [snd] in *. congruence.
Qed.

Lemma frames_raw_loop w i files : frames (raw_loop w i files).
Proof.
  revert i. induction files as [| f rest IH]; intros i; cbn [raw_loop]; frame.
Qed.

#[local] Hint Resolve frames_jpg_stage frames_raw_loop : frame.

Lemma frames_process_raw_files w files : frames (process_raw_files w files).
Proof. unfold process_raw_files. frame. Qed.

Lemma frames_write_report w : frames (write_report w).
Proof. unfold write_report. frame. Qed.

#[local] Hint Resolve frames_process_raw_files frames_write_report : frame.

Lemma scan_file_config root file gp :
  config_of (snd (scan_file root file gp)) = config_of (snd gp).
Proof.
  destruct gp as [groups p]. unfold scan_file.
  repeat match goal with
         | |- context [if ?b then _ else _] => destruct b
         end; reflexivity.
Qed.

Lemma scan_files_config root files gp :
  config_of (snd (scan_files root files gp)) = config_of (snd gp).
Proof.
  unfold scan_files. revert gp.
  induction files as [| f rest IH]; intros gp; cbn [fold_left].
  - reflexivity.
  - rewrite IH. apply scan_file_config.
Qed.

Lemma scan_dirs_config cancel_at idx dirs gp :
  config_of (snd (scan_dirs cancel_at idx dirs gp)) = config_of (snd gp).
Proof.
  revert idx gp. induction dirs as [| [root files] rest IH]; intros idx gp;
    cbn [scan_dirs].
  - cbn [snd]. destruct cancel_at as [n |]; [destruct (Nat.eqb n idx)|];
      reflexivity.
  - set (p := match cancel_at with
              | Some n => if Nat.eqb n idx then cancel (snd gp) else snd gp
              | None => snd gp
              end).
    assert (Hp : config_of p = config_of (snd gp)).
    { unfold p. destruct cancel_at as [n |]; [destruct (Nat.eqb n idx)|];
        reflexivity. }
    destruct (negb (running p)); cbn [snd]; [exact Hp|].
    rewrite IH, scan_files_config. exact Hp.
Qed.

Lemma select_group_config g acc :
  config_of (snd (select_group g acc)) = config_of (snd acc).
Proof.
  destruct acc as [[imgs raws] p]. unfold select_group.
  destruct (slot (image g)); destruct (slot (raw g));
    destruct (process_raw_enabled p); reflexivity.
Qed.

Lemma select_groups_config groups p :
  config_of (snd (select_groups groups p)) = config_of p.
Proof.
  unfold select_groups.
  assert (H : forall acc,
    config_of (snd (fold_left (fun acc kv => select_group (snd kv) acc) groups acc))
    = config_of (snd acc)).
  { induction groups as [| kv rest IH]; intros acc; cbn [fold_left].
    - reflexivity.
    - rewrite IH. apply select_group_config. }
  apply (H ([], [], p)).
Qed.

Lemma scan_and_group_files_config w p :
  config_of (snd (scan_and_group_files w p)) = config_of p.
Proof.
  unfold scan_and_group_files.
  pose proof (scan_dirs_config (scan_cancel w) 0 (walk w) ([], p)) as H.
  destruct (scan_dirs (scan_cancel w) 0 (walk w) ([], p)) as [[groups |] p'];
    cbn [snd] in *; [| exact H].
  pose proof (select_groups_config groups p') as H2.
  destruct (select_groups groups p') as [[imgs raws] p'']. cbn [snd] in *.
  rewrite <- H, <- H2. reflexivity.
Qed.

Lemma frames_run w : frames (run w).
Proof.
  unfold run.
  apply frames_bind; [auto with frame | intro p0].
  apply frames_bind; [frame | intros _].
  intros s. unfold bind at 1. cbn [get_self].
  pose proof (scan_and_group_files_config w (self s)) as Hscan.
  destruct (scan_and_group_files w (self s)) as [[imgs raws] p1].
  cbn [snd] in Hscan.
  unfold bind at 1. cbn [modify_self].
  set (s1 := mkState p1 (disk s)).
  assert (Hs1 : config_of (self s1) = config_of (self s)) by exact Hscan.
  rewrite <- Hs1.
  destruct (negb (running p1)); [reflexivity|].
  revert s1 Hs1. intros s1 _.
  match goal with |- config_of (self (snd (?m s1))) = _ =>
    enough (Hm : frames m) by apply Hm end.
  frame.
Qed.

(** ** Paths *)

Lemma rsplit_after_none c s :
  contains_char c s = false -> rsplit_after c s = (EmptyString, s).
Proof.
  destruct s as [| a r]; [reflexivity|].
  cbn [contains_char rsplit_after]. intros H.
  apply orb_false_iff in H as [Ha Hr]. now rewrite Hr, Ha.
Qed.

Lemma contains_char_app c s t :
  contains_char c (s ++ t) = (contains_char c s || contains_char c t)%bool.
Proof.
  induction s as [| a r IH]; [reflexivity|].
  cbn [append contains_char]. now rewrite IH, orb_assoc.
Qed.

Lemma rsplit_after_app c h t :
  contains_char c t = false ->
  rsplit_after c (h ++ String c t) = (h ++ String c EmptyString, t).
Proof.
  intros Ht. induction h as [| a r IH].
  - cbn [append rsplit_after]. now rewrite Ht, Ascii.eqb_refl.
  - cbn [append rsplit_after].
    rewrite contains_char_app. cbn [contains_char].
    rewrite Ascii.eqb_refl, orb_true_r, IH. reflexivity.
Qed.

Lemma endswith_char_app s c :
  endswith_char s c = true -> exists r, s = r ++ String c EmptyString.
Proof.
  induction s as [| a r IH]; [discriminate|].
  cbn [endswith_char]. destruct r as [| b r'].
  - intros H. apply Ascii.eqb_eq in H. subst a. now exists EmptyString.
  - intros H. destruct (IH H) as [r0 E]. exists (String a r0).
    cbn [append]. now rewrite <- E.
Qed.

Lemma append_assoc (a b c : string) : (a ++ b) ++ c = a ++ (b ++ c).
Proof. induction a as [| x r IH]; [reflexivity|]. cbn [append]. now rewrite IH. Qed.

Lemma startswith_sep_false file :
  contains_char sep file = false -> startswith file "/" = false.
Proof.
  destruct file as [| a r]; [reflexivity|].
  cbn [contains_char]. intros H. apply orb_false_iff in H as [Ha _].
  unfold startswith. cbn [prefix].
  destruct (ascii_dec "/" a) as [E | _]; [| reflexivity].
  subst a. discriminate Ha.
Qed.

(** A file name joined to a directory is the last component of the result. *)
Lemma basename_path_join root file :
  contains_char sep file = false -> basename (path_join root file) = file.
Proof.
  intros Hf. unfold path_join, basename.
  rewrite (startswith_sep_false file Hf).
  destruct (String.eqb root "") eqn:Er.
  - apply String.eqb_eq in Er. subst root. cbn [orb append].
    now rewrite rsplit_after_none.
  - cbn [orb]. destruct (endswith_char root sep) eqn:Ee.
    + destruct (endswith_char_app root sep Ee) as [r0 ->].
      rewrite append_assoc. cbn [append].
      now rewrite rsplit_after_app.
    + change ("/" ++ file) with (String sep file).
      now rewrite rsplit_after_app.
Qed.

(** ** Where the code's output path is the mirrored one *)

Lemma rsplit_after_eq c s : fst (rsplit_after c s) ++ snd (rsplit_after c s) = s.
Proof.
  induction s as [| a r IH]; [reflexivity|].
  cbn [rsplit_after]. destruct (contains_char c r).
  - destruct (rsplit_after c r) as [h t]. cbn [fst snd append] in *. now rewrite IH.
  - destruct (Ascii.eqb a c); reflexivity.
Qed.

Lemma rsplit_before_eq c s h t : rsplit_before c s = Some (h, t) -> h ++ t = s.
Proof.
  revert h t. induction s as [| a r IH]; intros h t; cbn [rsplit_before];
    [discriminate|].
  destruct (rsplit_before c r) as [[h' t'] |].
  - intros H. inversion H. subst. cbn [append]. now rewrite (IH h' t).
  - destruct (Ascii.eqb a c); [| discriminate].
    intros H. inversion H. reflexivity.
Qed.

(** [splitext] splits: stem and extension make up the path. *)
Lemma splitext_eq p : fst (splitext p) ++ snd (splitext p) = p.
Proof.
  unfold splitext.
  pose proof (rsplit_after_eq sep p) as H.
  destruct (rsplit_after sep p) as [head name]. cbn [fst snd] in H.
  destruct (rsplit_before extsep name) as [[stem ext] |] eqn:E.
  - destruct (all_char extsep stem); cbn [fst snd].
    + clear. induction p as [| a r IH]; [reflexivity|]. cbn [append]. now rewrite IH.
    + rewrite append_assoc, (rsplit_before_eq _ _ _ _ E). exact H.
  - cbn [fst snd]. clear. induction p as [| a r IH]; [reflexivity|].
    cbn [append]. now rewrite IH.
Qed.

Lemma prefix_refl s : String.prefix s s = true.
Proof.
  induction s as [| a r IH]; [reflexivity|].
  cbn [prefix]. destruct (ascii_dec a a); [exact IH | congruence].
Qed.

Lemma replace_from_skip_all old new s :
  replace_from (String.length s) old new s = EmptyString.
Proof. induction s as [| a r IH]; [reflexivity | exact IH]. Qed.

Lemma append_length (a b : string) :
  String.length (a ++ b) = (String.length a + String.length b)%nat.
Proof. induction a as [| x r IH]; [reflexivity|]. cbn. now rewrite IH. Qed.

Lemma append_empty_r (a : string) : a ++ "" = a.
Proof. induction a as [| x r IH]; [reflexivity|]. cbn. now rewrite IH. Qed.

(** When [old] occurs in [stem ++ old] only as its end, replacing every
    occurrence replaces that one. *)
Lemma replace_only_last old new stem :
  old <> "" -> occurs_early old (stem ++ old) = false ->
  replace_from 0 old new (stem ++ old) = stem ++ new.
Proof.
  intros Hold. induction stem as [| a t IH]; intros Hocc.
  - cbn [append]. destruct old as [| c r]; [congruence|].
    cbn [replace_from]. rewrite prefix_refl.
    replace (String.length (String c r) - 1)%nat with (String.length r)
      by (cbn [String.length]; lia).
    rewrite replace_from_skip_all. apply append_empty_r.
  - cbn [append] in *. cbn [occurs_early] in Hocc.
    apply orb_false_iff in Hocc as [H1 H2].
    assert (Hne : String.eqb (String a (t ++ old)) old = false).
    { apply String.eqb_neq. intros E.
      apply (f_equal String.length) in E. cbn [String.length] in E.
      rewrite append_length in E. lia. }
    rewrite Hne, andb_true_r in H1.
    cbn [replace_from]. rewrite H1. now rewrite IH.
Qed.

(** The code's output path is the mirrored path whenever the extension
    occurs nowhere else in [output_path]. *)
Lemma output_jpg_mirrored input output f :
  snd (splitext (output_path_of input output f)) <> "" ->
  occurs_early (snd (splitext (output_path_of input output f)))
               (output_path_of input output f) = false ->
  output_jpg input output f = mirrored_jpg input output f.
Proof.
  intros Hext Hocc. unfold output_jpg, mirrored_jpg, str_replace.
  set (p := output_path_of input output f) in *.
  destruct (String.eqb (snd (splitext p)) "") eqn:E.
  - apply String.eqb_eq in E. congruence.
  - pose proof (replace_only_last (snd (splitext p)) ".jpg" (fst (splitext p)) Hext)
      as H.
    rewrite (splitext_eq p) in H. now apply H.
Qed.

(** ** The dict of groups *)

Lemma dict_get_set_eq k v d : dict_get k (dict_set k v d) = Some v.
Proof.
  induction d as [| [k' v'] r IH]; cbn [dict_set dict_get].
  - now rewrite String.eqb_refl.
  - destruct (String.eqb k k') eqn:E; cbn [dict_get].
    + now rewrite String.eqb_refl.
    + now rewrite E.
Qed.

Lemma dict_get_set_neq k k' v d :
  k <> k' -> dict_get k (dict_set k' v d) = dict_get k d.
Proof.
  intros Hne. induction d as [| [k0 v0] r IH]; cbn [dict_set dict_get].
  - apply String.eqb_neq in Hne. now rewrite Hne.
  - destruct (String.eqb k' k0) eqn:E; cbn [dict_get].
    + apply String.eqb_eq in E. subst k0.
      apply String.eqb_neq in Hne. now rewrite Hne.
    + now rewrite IH.
Qed.

Lemma dict_set_keys k v d :
  map fst (dict_set k v d)
  = if mem k (map fst d) then map fst d else (map fst d ++ [k])%list.
Proof.
  induction d as [| [k0 v0] r IH]; [reflexivity|].
  cbn [dict_set map fst mem existsb]. fold (mem k (map fst r)).
  destruct (String.eqb k k0) eqn:E; cbn [orb map fst].
  - apply String.eqb_eq in E. now subst k0.
  - rewrite IH. now destruct (mem k (map fst r)).
Qed.

Lemma mem_In x l : mem x l = true <-> In x l.
Proof.
  unfold mem. rewrite existsb_exists. split.
  - intros (y & Hy & E). apply String.eqb_eq in E. now subst y.
  - intros H. exists x. split; [assumption | apply String.eqb_refl].
Qed.

Lemma mem_not_In x l : mem x l = false <-> ~ In x l.
Proof.
  rewrite <- mem_In. destruct (mem x l); split; intros H; congruence.
Qed.

Lemma dict_set_nodup k v d :
  NoDup (map fst d) -> NoDup (map fst (dict_set k v d)).
Proof.
  intros H. rewrite dict_set_keys. destruct (mem k (map fst d)) eqn:E.
  - exact H.
  - apply mem_not_In in E.
    apply NoDup_rev in H. rewrite <- (rev_involutive (map fst d ++ [k])).
    apply NoDup_rev. rewrite rev_app_distr. cbn [rev app].
    constructor; [| exact H]. rewrite <- in_rev. exact E.
Qed.

Lemma dict_get_In k g d : dict_get k d = Some g -> In (k, g) d.
Proof.
  induction d as [| [k0 v0] r IH]; cbn [dict_get]; [discriminate|].
  destruct (String.eqb k k0) eqn:E.
  - apply String.eqb_eq in E. subst k0. intros H. inversion H. now left.
  - intros H. right. now apply IH.
Qed.

Lemma In_dict_get k g d :
  NoDup (map fst d) -> In (k, g) d -> dict_get k d = Some g.
Proof.
  induction d as [| [k0 v0] r IH]; cbn [map fst dict_get]; [contradiction|].
  intros Hnd [H | H].
  - inversion H. subst. now rewrite String.eqb_refl.
  - inversion Hnd as [| ? ? Hnot Hnd']. subst.
    destruct (String.eqb k k0) eqn:E.
    + apply String.eqb_eq in E. subst k0. exfalso. apply Hnot.
      change k with (fst (k, g)). now apply in_map.
    + now apply IH.
Qed.

Lemma nodup_keys_nodup (d : file_groups) : NoDup (map fst d) -> NoDup d.
Proof. apply NoDup_map_inv. Qed.

(** Two dicts with the same content list the same groups. *)
Lemma dict_ext_permutation (d d' : file_groups) :
  NoDup (map fst d) -> NoDup (map fst d') ->
  (forall k, dict_get k d = dict_get k d') -> Permutation d d'.
Proof.
  intros H H' Hext.
  apply NoDup_Permutation; try now apply nodup_keys_nodup.
  intros [k g]. split; intros Hin.
  - apply dict_get_In. rewrite <- Hext. now apply In_dict_get.
  - apply dict_get_In. rewrite Hext. now apply In_dict_get.
Qed.

(** ** One file of the scan *)

Lemma is_image_not_raw e : is_image_entry e = true -> is_raw_entry e = false.
Proof.
  unfold is_image_entry, is_raw_entry. intros H.
  apply andb_true_iff in H as [H1 H2]. rewrite H1, H2. reflexivity.
Qed.

Lemma scan_file_groups root file groups p :
  fst (scan_file root file (groups, p))
  = let e := (root, file) in
    if is_image_entry e
    then dict_set (entry_key e)
           (mkGroup (Some (entry_path e)) (raw_of (dict_get (entry_key e) groups)))
           groups
    else if is_raw_entry e
    then dict_set (entry_key e)
           (mkGroup (img_of (dict_get (entry_key e) groups)) (Some (entry_path e)))
           groups
    else groups.
Proof.
  cbv zeta.
  unfold scan_file, is_image_entry, is_raw_entry, entry_key, entry_ext, entry_path.
  cbn [fst snd]. fold (file_ext file). fold (file_key file).
  destruct (is_system_file file); [reflexivity|]. cbn [negb andb].
  destruct (mem (file_ext file) IMAGE_EXTENSIONS); cbn [orb negb andb fst].
  - now destruct (dict_get (file_key file) groups).
  - destruct (mem (file_ext file) RAW_EXTENSIONS); cbn [fst]; [| reflexivity].
    now destruct (dict_get (file_key file) groups).
Qed.

Lemma scan_file_proc root file groups p :
  snd (scan_file root file (groups, p))
  = if is_system_file file then add_system 1 p else p.
Proof.
  unfold scan_file. destruct (is_system_file file); [reflexivity|].
  destruct (mem (file_ext file) IMAGE_EXTENSIONS); cbn [orb]; [reflexivity|].
  destruct (mem (file_ext file) RAW_EXTENSIONS); reflexivity.
Qed.

Lemma scan_entries_snoc es e gp :
  scan_entries (es ++ [e]) gp = scan_file (fst e) (snd e) (scan_entries es gp).
Proof. unfold scan_entries. now rewrite fold_left_app. Qed.

Lemma last_image_snoc k es e :
  last_image k (es ++ [e])
  = if (is_image_entry e && String.eqb (entry_key e) k)%bool
    then Some (entry_path e) else last_image k es.
Proof. unfold last_image. now rewrite fold_left_app. Qed.

Lemma last_raw_snoc k es e :
  last_raw k (es ++ [e])
  = if (is_raw_entry e && String.eqb (entry_key e) k)%bool
    then Some (entry_path e) else last_raw k es.
Proof. unfold last_raw. now rewrite fold_left_app. Qed.

Lemma add_system_0 p : add_system 0 p = p.
Proof. destruct p. unfold add_system, set_skipped_system_files. cbn. now rewrite Z.add_0_r. Qed.

Lemma add_system_add n m p : add_system m (add_system n p) = add_system (n + m) p.
Proof.
  destruct p. unfold add_system, set_skipped_system_files. cbn.
  now rewrite Z.add_assoc.
Qed.

Lemma add_skip_0 p : add_skip 0 p = p.
Proof. destruct p. unfold add_skip, set_skip_files. cbn. now rewrite Z.add_0_r. Qed.

Lemma add_skip_add n m p : add_skip m (add_skip n p) = add_skip (n + m) p.
Proof.
  destruct p. unfold add_skip, set_skip_files. cbn. now rewrite Z.add_assoc.
Qed.

Lemma count_system_snoc es e :
  count_system (es ++ [e])
  = count_system es + (if is_system_file (snd e) then 1 else 0).
Proof.
  unfold count_system. rewrite filter_app, length_app, Nat2Z.inj_add.
  cbn [filter]. destruct (is_system_file (snd e)); reflexivity.
Qed.

(** The processor after the scan: only the count of system files moved. *)
Lemma scan_entries_proc es groups p :
  snd (scan_entries es (groups, p)) = add_system (count_system es) p.
Proof.
  induction es as [| e es IH] using rev_ind.
  - cbn. now rewrite add_system_0.
  - rewrite scan_entries_snoc, count_system_snoc.
    destruct (scan_entries es (groups, p)) as [g' p'] eqn:E. cbn [snd] in IH.
    rewrite scan_file_proc, IH.
    destruct (is_system_file (snd e)).
    + now rewrite add_system_add.
    + now rewrite Z.add_0_r.
Qed.

Lemma scan_entries_nodup es groups p :
  NoDup (map fst groups) -> NoDup (map fst (fst (scan_entries es (groups, p)))).
Proof.
  intros H. induction es as [| e es IH] using rev_ind; [exact H|].
  rewrite scan_entries_snoc.
  destruct (scan_entries es (groups, p)) as [g' p'] eqn:E. cbn [fst] in IH.
  rewrite scan_file_groups. cbv zeta.
  destruct (is_image_entry (fst e, snd e)); [now apply dict_set_nodup|].
  destruct (is_raw_entry (fst e, snd e)); [now apply dict_set_nodup | exact IH].
Qed.

(** What the group of key [k] holds after the scan of [es]. *)
Lemma scan_entries_get es p k :
  let og := dict_get k (fst (scan_entries es ([], p))) in
  img_of og = last_image k es /\ raw_of og = last_raw k es /\
  (og = None <-> last_image k es = None /\ last_raw k es = None).
Proof.
  cbv zeta. induction es as [| e es IH] using rev_ind.
  - cbn. repeat split; auto.
  - rewrite scan_entries_snoc, last_image_snoc, last_raw_snoc.
    destruct (scan_entries es ([], p)) as [g' p'] eqn:E. cbn [fst] in IH.
    destruct IH as (Hi & Hr & Hn).
    rewrite scan_file_groups. cbv zeta.
    replace (fst e, snd e) with e by now destruct e.
    destruct (is_image_entry e) eqn:Ei.
    + rewrite (is_image_not_raw e Ei). cbn [andb].
      destruct (String.eqb (entry_key e) k) eqn:Ek.
      * apply String.eqb_eq in Ek. subst k. rewrite dict_get_set_eq.
        cbn [img_of raw_of image raw].
        split; [reflexivity|]. split; [assumption|].
        split; [discriminate | intros [Hx _]; discriminate].
      * apply String.eqb_neq in Ek.
        rewrite dict_get_set_neq by congruence. auto.
    + cbn [andb]. destruct (is_raw_entry e) eqn:Er; cbn [andb]; [| auto].
      destruct (String.eqb (entry_key e) k) eqn:Ek.
      * apply String.eqb_eq in Ek. subst k. rewrite dict_get_set_eq.
        cbn [img_of raw_of image raw].
        split; [assumption|]. split; [reflexivity|].
        split; [discriminate | intros [_ Hx]; discriminate].
      * apply String.eqb_neq in Ek.
        rewrite dict_get_set_neq by congruence. auto.
Qed.

Lemma option_group_ext (a b : option group) :
  img_of a = img_of b -> raw_of a = raw_of b -> (a = None <-> b = None) -> a = b.
Proof.
  destruct a as [[ia ra] |], b as [[ib rb] |]; cbn; intros Hi Hr Hn.
  - congruence.
  - exfalso. assert (H : Some (mkGroup ia ra) = None) by now apply Hn.
    discriminate.
  - exfalso. assert (H : Some (mkGroup ib rb) = None) by now apply Hn.
    discriminate.
  - reflexivity.
Qed.

(** Two sequences of files with the same last image and last RAW for every
    key build dicts with the same content. *)
Lemma scan_entries_ext es es' p p' :
  (forall k, last_image k es = last_image k es') ->
  (forall k, last_raw k es = last_raw k es') ->
  forall k, dict_get k (fst (scan_entries es ([], p)))
            = dict_get k (fst (scan_entries es' ([], p'))).
Proof.
  intros Hi Hr k.
  destruct (scan_entries_get es p k) as (A1 & A2 & A3).
  destruct (scan_entries_get es' p' k) as (B1 & B2 & B3).
  apply option_group_ext.
  - now rewrite A1, B1.
  - now rewrite A2, B2.
  - rewrite A3, B3, Hi, Hr. reflexivity.
Qed.

(** ** The selection loop *)

Lemma select_fold groups :
  forall i0 r0 p0,
    fold_left (fun acc kv => select_group (snd kv) acc) groups (i0, r0, p0)
    = ((i0 ++ images_of groups)%list,
       (r0 ++ raws_of (process_raw_enabled p0) groups)%list,
       if process_raw_enabled p0 then add_skip (len (pairs_of groups)) p0 else p0).
Proof.
  induction groups as [| [k g] rest IH]; intros i0 r0 p0.
  - cbn. rewrite !app_nil_r. destruct (process_raw_enabled p0); [| reflexivity].
    now rewrite add_skip_0.
  - cbn [fold_left snd]. unfold select_group at 2.
    unfold images_of, raws_of, pairs_of. cbn [flat_map snd fst].
    fold (images_of rest). fold (raws_of (process_raw_enabled p0) rest).
    fold (pairs_of rest).
    destruct (slot (image g)) as [i |]; destruct (slot (raw g)) as [r |];
      destruct (process_raw_enabled p0) eqn:En; rewrite IH;
      cbn [process_raw_enabled set_skip_files add_skip app];
      rewrite ?En, ?app_nil_r, <- ?app_assoc; cbn [app]; try reflexivity.
    change (set_skip_files (skip_files p0 + 1) p0) with (add_skip 1 p0).
    rewrite add_skip_add. do 2 f_equal.
    unfold len. cbn [List.length]. lia.
Qed.

Lemma select_groups_eq groups p :
  select_groups groups p
  = (images_of groups, raws_of (process_raw_enabled p) groups,
     if process_raw_enabled p then add_skip (len (pairs_of groups)) p else p).
Proof. unfold select_groups. now rewrite select_fold. Qed.

(** ** The walk and its sequence of files *)

Lemma scan_files_entries root files gp :
  scan_files root files gp = scan_entries (map (pair root) files) gp.
Proof.
  unfold scan_files, scan_entries. revert gp.
  induction files as [| f rest IH]; intros gp; [reflexivity|].
  cbn [map fold_left fst snd]. apply IH.
Qed.

Lemma scan_entries_app a b gp :
  scan_entries (a ++ b) gp = scan_entries b (scan_entries a gp).
Proof. unfold scan_entries. apply fold_left_app. Qed.

Lemma scan_entries_running es gp :
  running (snd (scan_entries es gp)) = running (snd gp).
Proof. destruct gp as [g p]. now rewrite scan_entries_proc. Qed.

(** Without cancellation the scan is the fold over the files of the walk. *)
Lemma scan_dirs_entries dirs :
  forall idx gp,
    running (snd gp) = true ->
    scan_dirs None idx dirs gp
    = (Some (fst (scan_entries (entries dirs) gp)),
       snd (scan_entries (entries dirs) gp)).
Proof.
  induction dirs as [| [root files] rest IH]; intros idx gp Hrun.
  - reflexivity.
  - cbn [scan_dirs]. rewrite Hrun. cbn [negb].
    replace (fst gp, snd gp) with gp by now destruct gp.
    rewrite IH by now rewrite scan_files_entries, scan_entries_running.
    unfold entries. cbn [flat_map fst snd]. fold (entries rest).
    now rewrite scan_entries_app, scan_files_entries.
Qed.

Lemma scan_and_group_files_eq w p :
  scan_cancel w = None -> running p = true ->
  scan_and_group_files w p
  = (images_of (scan_groups w p),
     raws_of (process_raw_enabled p) (scan_groups w p),
     set_total_files
       (len (images_of (scan_groups w p))
        + len (raws_of (process_raw_enabled p) (scan_groups w p)))
       (if process_raw_enabled p
        then add_skip (len (pairs_of (scan_groups w p)))
               (add_system (count_system (entries (walk w))) p)
        else add_system (count_system (entries (walk w))) p)).
Proof.
  intros Hc Hrun. unfold scan_and_group_files, scan_groups.
  rewrite Hc, scan_dirs_entries by exact Hrun.
  rewrite scan_entries_proc, select_groups_eq.
  reflexivity.
Qed.

(** ** Where the slots of a group come from *)

Lemma last_image_origin k es i :
  last_image k es = Some i ->
  exists e, In e es /\ i = entry_path e /\ is_image_entry e = true
            /\ entry_key e = k.
Proof.
  induction es as [| e es IH] using rev_ind; [discriminate|].
  rewrite last_image_snoc.
  destruct (is_image_entry e) eqn:Ei; cbn [andb].
  - destruct (String.eqb (entry_key e) k) eqn:Ek.
    + intros H. inversion H. apply String.eqb_eq in Ek.
      exists e. rewrite in_app_iff. cbn. auto.
    + intros H. destruct (IH H) as (e' & Hin & He').
      exists e'. rewrite in_app_iff. auto.
  - intros H. destruct (IH H) as (e' & Hin & He').
    exists e'. rewrite in_app_iff. auto.
Qed.

Lemma last_raw_origin k es r :
  last_raw k es = Some r ->
  exists e, In e es /\ r = entry_path e /\ is_raw_entry e = true
            /\ entry_key e = k.
Proof.
  induction es as [| e es IH] using rev_ind; [discriminate|].
  rewrite last_raw_snoc.
  destruct (is_raw_entry e) eqn:Ei; cbn [andb].
  - destruct (String.eqb (entry_key e) k) eqn:Ek.
    + intros H. inversion H. apply String.eqb_eq in Ek.
      exists e. rewrite in_app_iff. cbn. auto.
    + intros H. destruct (IH H) as (e' & Hin & He').
      exists e'. rewrite in_app_iff. auto.
  - intros H. destruct (IH H) as (e' & Hin & He').
    exists e'. rewrite in_app_iff. auto.
Qed.

Lemma plain_entry_basename es e :
  plain_names es -> In e es -> basename (entry_path e) = snd e.
Proof.
  intros Hp Hin. unfold plain_names in Hp. rewrite Forall_forall in Hp.
  apply basename_path_join. now apply (Hp e Hin).
Qed.

Lemma plain_entry_key es e :
  plain_names es -> In e es -> path_key (entry_path e) = entry_key e.
Proof.
  intros Hp Hin. unfold path_key, entry_key.
  now rewrite (plain_entry_basename es e Hp Hin).
Qed.

Lemma slot_Some o x : slot o = Some x -> o = Some x.
Proof.
  destruct o as [y |]; cbn; [| discriminate].
  destruct (String.eqb y ""); [discriminate | auto].
Qed.

Section ScannedGroups.
Variable es : list entry.
Variable p : processor.
Hypothesis Hplain : plain_names es.

Let groups := fst (scan_entries es ([], p)).

Lemma groups_nodup : NoDup (map fst groups).
Proof. apply scan_entries_nodup. constructor. Qed.

Lemma group_image_key k g i :
  In (k, g) groups -> image g = Some i -> path_key i = k.
Proof.
  intros Hin Hi.
  apply (In_dict_get _ _ _ groups_nodup) in Hin.
  destruct (scan_entries_get es p k) as (A & _ & _). fold groups in A.
  rewrite Hin in A. cbn [img_of] in A. rewrite Hi in A. symmetry in A.
  destruct (last_image_origin _ _ _ A) as (e & He & -> & _ & <-).
  now apply (plain_entry_key es).
Qed.

Lemma group_raw_key k g r :
  In (k, g) groups -> raw g = Some r -> path_key r = k.
Proof.
  intros Hin Hr.
  apply (In_dict_get _ _ _ groups_nodup) in Hin.
  destruct (scan_entries_get es p k) as (_ & A & _). fold groups in A.
  rewrite Hin in A. cbn [raw_of] in A. rewrite Hr in A. symmetry in A.
  destruct (last_raw_origin _ _ _ A) as (e & He & -> & _ & <-).
  now apply (plain_entry_key es).
Qed.

Lemma group_raw_origin k g r :
  In (k, g) groups -> raw g = Some r ->
  exists e, In e es /\ r = entry_path e /\ is_raw_entry e = true.
Proof.
  intros Hin Hr.
  apply (In_dict_get _ _ _ groups_nodup) in Hin.
  destruct (scan_entries_get es p k) as (_ & A & _). fold groups in A.
  rewrite Hin in A. cbn [raw_of] in A. rewrite Hr in A. symmetry in A.
  destruct (last_raw_origin _ _ _ A) as (e & He & -> & Hraw & _).
  now exists e.
Qed.
End ScannedGroups.

Lemma In_images_of i groups :
  In i (images_of groups) <->
  exists k g, In (k, g) groups /\ slot (image g) = Some i.
Proof.
  unfold images_of. rewrite in_flat_map. split.
  - intros ([k g] & Hin & Hi). cbn [snd] in Hi.
    destruct (slot (image g)) as [i' |] eqn:E; [| contradiction].
    destruct Hi as [-> | []]. now exists k, g.
  - intros (k & g & Hin & Hs). exists (k, g). split; [assumption|].
    cbn [snd]. rewrite Hs. now left.
Qed.

Lemma In_raws_of r enabled groups :
  In r (raws_of enabled groups) <->
  exists k g, In (k, g) groups /\ slot (image g) = None
              /\ slot (raw g) = Some r /\ enabled = true.
Proof.
  unfold raws_of. rewrite in_flat_map. split.
  - intros ([k g] & Hin & Hr). cbn [snd] in Hr.
    destruct (slot (image g)) as [i' |] eqn:E; [contradiction|].
    destruct (slot (raw g)) as [r' |] eqn:E'; [| contradiction].
    destruct enabled; [| contradiction].
    destruct Hr as [-> | []]. now exists k, g.
  - intros (k & g & Hin & Hi & Hr & ->). exists (k, g). split; [assumption|].
    cbn [snd]. rewrite Hi, Hr. now left.
Qed.

(** The selected images carry pairwise different keys. *)
Lemma images_of_keys_nodup (groups : file_groups) :
  NoDup (map fst groups) ->
  (forall k g i, In (k, g) groups -> image g = Some i -> path_key i = k) ->
  NoDup (map path_key (images_of groups)).
Proof.
  induction groups as [| [k g] rest IH]; intros Hnd Hkey; [constructor|].
  inversion Hnd as [| ? ? Hnot Hnd']. subst.
  unfold images_of. cbn [flat_map snd]. fold (images_of rest).
  assert (IH' : NoDup (map path_key (images_of rest))).
  { apply IH; [assumption|]. intros k' g' i' Hin. apply Hkey. now right. }
  destruct (slot (image g)) as [i |] eqn:E; [| exact IH'].
  cbn [app map]. constructor; [| exact IH'].
  rewrite (Hkey k g i (or_introl eq_refl) (slot_Some _ _ E)).
  intros Hin. apply in_map_iff in Hin as (i' & Hk & Hi').
  apply In_images_of in Hi' as (k' & g' & Hin' & Hs).
  apply Hnot. rewrite <- Hk.
  rewrite (Hkey k' g' i' (or_intror Hin') (slot_Some _ _ Hs)).
  change k' with (fst (k', g')). now apply in_map.
Qed.

(** ** A file shadowed by a later one *)

Lemma last_image_app k a b :
  last_image k (a ++ b)
  = match last_image k b with Some i => Some i | None => last_image k a end.
Proof.
  induction b as [| e b IH] using rev_ind.
  - now rewrite app_nil_r.
  - rewrite app_assoc, !last_image_snoc, IH.
    destruct (is_image_entry e && String.eqb (entry_key e) k)%bool; reflexivity.
Qed.

Lemma last_raw_app k a b :
  last_raw k (a ++ b)
  = match last_raw k b with Some i => Some i | None => last_raw k a end.
Proof.
  induction b as [| e b IH] using rev_ind.
  - now rewrite app_nil_r.
  - rewrite app_assoc, !last_raw_snoc, IH.
    destruct (is_raw_entry e && String.eqb (entry_key e) k)%bool; reflexivity.
Qed.

Lemma last_image_cons_hit k e es :
  is_image_entry e = true -> entry_key e = k ->
  last_image k (e :: es)
  = match last_image k es with Some i => Some i | None => Some (entry_path e) end.
Proof.
  intros Hi Hk. change (e :: es) with ([e] ++ es)%list.
  rewrite last_image_app. change [e] with ([] ++ [e])%list.
  rewrite last_image_snoc, Hi, Hk, String.eqb_refl. reflexivity.
Qed.

Section Shadowed.
Variables es1 es2 es3 : list entry.
Variables e1 e2 : entry.
Hypothesis He1 : is_image_entry e1 = true.
Hypothesis He2 : is_image_entry e2 = true.
Hypothesis Hkey : entry_key e1 = entry_key e2.

Let with_e1 := (es1 ++ e1 :: es2 ++ e2 :: es3)%list.
Let without_e1 := (es1 ++ es2 ++ e2 :: es3)%list.

Lemma with_e1_split : with_e1 = ((es1 ++ [e1]) ++ es2 ++ e2 :: es3)%list.
Proof. unfold with_e1. now rewrite <- app_assoc. Qed.

Lemma shadowed_last_image k : last_image k with_e1 = last_image k without_e1.
Proof.
  rewrite with_e1_split. unfold without_e1.
  rewrite !(last_image_app k _ (es2 ++ e2 :: es3)).
  destruct (String.eqb (entry_key e1) k) eqn:Ek.
  - apply String.eqb_eq in Ek.
    rewrite (last_image_app k es2 (e2 :: es3)).
    rewrite (last_image_cons_hit k e2 es3 He2) by congruence.
    destruct (last_image k es3); reflexivity.
  - rewrite last_image_snoc, Ek, andb_false_r. reflexivity.
Qed.

Lemma shadowed_last_raw k : last_raw k with_e1 = last_raw k without_e1.
Proof.
  rewrite with_e1_split. unfold without_e1.
  rewrite !(last_raw_app k _ (es2 ++ e2 :: es3)).
  rewrite last_raw_snoc, (is_image_not_raw e1 He1). reflexivity.
Qed.

Lemma shadowed_count_system : count_system with_e1 = count_system without_e1.
Proof.
  pose proof He1 as Hs. unfold is_image_entry in Hs.
  apply andb_true_iff in Hs as [Hs _]. apply negb_true_iff in Hs.
  unfold count_system, with_e1, without_e1. do 2 f_equal.
  rewrite (filter_app _ es1 (e1 :: es2 ++ e2 :: es3)).
  rewrite (filter_app _ es1 (es2 ++ e2 :: es3)).
  cbn [filter]. rewrite Hs. reflexivity.
Qed.

Lemma shadowed_groups_permutation p :
  Permutation (fst (scan_entries with_e1 ([], p)))
              (fst (scan_entries without_e1 ([], p))).
Proof.
  apply dict_ext_permutation.
  - apply scan_entries_nodup. constructor.
  - apply scan_entries_nodup. constructor.
  - apply scan_entries_ext; [apply shadowed_last_image | apply shadowed_last_raw].
Qed.

Lemma shadowed_slot p :
  last_image (entry_key e2) es3 = None ->
  img_of (dict_get (entry_key e1) (fst (scan_entries with_e1 ([], p))))
  = Some (entry_path e2).
Proof.
  intros Hlast.
  destruct (scan_entries_get with_e1 p (entry_key e1)) as (A & _ & _).
  rewrite A, with_e1_split.
  rewrite (last_image_app _ _ (es2 ++ e2 :: es3)).
  rewrite (last_image_app _ es2 (e2 :: es3)).
  rewrite (last_image_cons_hit (entry_key e1) e2 es3 He2) by congruence.
  rewrite Hkey, Hlast. reflexivity.
Qed.
End Shadowed.

Lemma images_of_permutation g g' :
  Permutation g g' -> Permutation (images_of g) (images_of g').
Proof. apply Permutation_flat_map. Qed.

Lemma raws_of_permutation b g g' :
  Permutation g g' -> Permutation (raws_of b g) (raws_of b g').
Proof. apply Permutation_flat_map. Qed.

Lemma pairs_of_permutation g g' :
  Permutation g g' -> Permutation (pairs_of g) (pairs_of g').
Proof. apply Permutation_flat_map. Qed.

Lemma len_permutation l l' : Permutation l l' -> len l = len l'.
Proof. intros H. unfold len. now rewrite (Permutation_length H). Qed.

(** ** process_image *)

Lemma keeps_ret {A : Type} (a : A) : keeps_self (ret a).
Proof. intros s. reflexivity. Qed.

Lemma keeps_raise {A : Type} (e : string) : keeps_self (@raise A e).
Proof. intros s. reflexivity. Qed.

Lemma keeps_bind {A B : Type} (m : M A) (k : A -> M B) :
  keeps_self m -> (forall a, keeps_self (k a)) -> keeps_self (bind m k).
Proof.
  intros Hm Hk s. unfold bind. specialize (Hm s).
  destruct (m s) as [[a | e] s']; cbn [snd] in *.
  - now rewrite Hk.
  - exact Hm.
Qed.

Lemma keeps_get_self : keeps_self get_self.
Proof. intros s. reflexivity. Qed.

Lemma keeps_get_disk : keeps_self get_disk.
Proof. intros s. reflexivity. Qed.

Lemma keeps_modify_disk f : keeps_self (modify_disk f).
Proof. intros s. reflexivity. Qed.

Lemma keeps_lift {A : Type} (r : result A) : keeps_self (lift r).
Proof. destruct r; intros s; reflexivity. Qed.

Lemma keeps_if {A : Type} (b : bool) (m1 m2 : M A) :
  keeps_self m1 -> keeps_self m2 -> keeps_self (if b then m1 else m2).
Proof. destruct b; auto. Qed.

Create HintDb keeps.
#[local] Hint Resolve keeps_ret keeps_raise keeps_get_self keeps_get_disk
  keeps_modify_disk keeps_lift : keeps.

Ltac keeps_step :=
  match goal with
  | |- keeps_self (bind _ _) => apply keeps_bind; [| intro]
  | |- keeps_self (if _ then _ else _) => apply keeps_if
  | |- keeps_self _ => solve [auto with keeps]
  end.

Lemma keeps_mkdir w d : keeps_self (mkdir w d).
Proof.
  unfold mkdir. apply keeps_bind; [auto with keeps | intro fs].
  apply keeps_if; [auto with keeps |].
  destruct (os_error w d); auto with keeps.
Qed.

Lemma keeps_mkdirs w ds : keeps_self (mkdirs w ds).
Proof.
  induction ds as [| d rest IH]; cbn [mkdirs]; [auto with keeps|].
  apply keeps_bind; [apply keeps_mkdir | intro; exact IH].
Qed.

Lemma keeps_makedirs w d : keeps_self (makedirs w d).
Proof.
  unfold makedirs. apply keeps_if; [auto with keeps|].
  apply keeps_bind; [auto with keeps | intro; apply keeps_mkdirs].
Qed.

Lemma keeps_open_for_writing w p : keeps_self (open_for_writing w p).
Proof.
  unfold open_for_writing. apply keeps_bind; [auto with keeps | intro fs].
  apply keeps_if; [auto with keeps |]. apply keeps_if; [auto with keeps |].
  destruct (os_error w p); auto with keeps.
Qed.

Lemma keeps_write_file w p c : keeps_self (write_file w p c).
Proof.
  unfold write_file. apply keeps_bind; [apply keeps_open_for_writing | intro].
  auto with keeps.
Qed.

Lemma keeps_pil_save w p wd ht q : keeps_self (pil_save w p wd ht q).
Proof.
  unfold pil_save. apply keeps_bind; [apply keeps_open_for_writing | intro].
  apply keeps_if; auto with keeps.
Qed.

Lemma keeps_pil_resize size : keeps_self (pil_resize size).
Proof. unfold pil_resize. repeat keeps_step. Qed.

#[local] Hint Resolve keeps_makedirs keeps_write_file keeps_pil_save
  keeps_pil_resize : keeps.

(** The [try] block only touches the disk. *)
Lemma keeps_convert_image w f n : keeps_self (convert_image w f n).
Proof. unfold convert_image. repeat keeps_step. Qed.

Lemma keeps_convert_raw w f : keeps_self (convert_raw w f).
Proof. unfold convert_raw. repeat keeps_step. Qed.

(** The retry loop, written out for [JPG_RETRY_COUNT = 2]. *)
Lemma process_image_unfold w f :
  process_image w f
  = try_except (convert_image w f 0 ;; ret (PyBool true))
      (fun _ =>
         try_except (convert_image w f 1 ;; ret (PyBool true))
           (fun _ =>
              try_except (convert_image w f 2 ;; ret (PyBool true))
                (fun e => log_error f e ;; ret (PyBool false)))).
Proof. reflexivity. Qed.

(** process_image always returns a boolean and never raises; on [True] the
    processor object is untouched, on [False] exactly one entry, for this
    file, has been appended to the error log. *)
Lemma process_image_outcome w f s :
  (exists s', process_image w f s = (Ok (PyBool true), s') /\ self s' = self s) \/
  (exists s' e,
     process_image w f s = (Ok (PyBool false), s') /\
     self s' = set_error_log (error_log (self s) ++ [mkEntry (basename f) e])%list
                             (self s)).
Proof.
  rewrite process_image_unfold. unfold try_except, bind, ret.
  pose proof (keeps_convert_image w f 0 s) as K0.
  destruct (convert_image w f 0 s) as [[[] | e0] s0]; cbn [snd] in K0.
  { left. exists s0. now split. }
  pose proof (keeps_convert_image w f 1 s0) as K1.
  destruct (convert_image w f 1 s0) as [[[] | e1] s1]; cbn [snd] in K1.
  { left. exists s1. split; [reflexivity | congruence]. }
  pose proof (keeps_convert_image w f 2 s1) as K2.
  destruct (convert_image w f 2 s1) as [[[] | e2] s2]; cbn [snd] in K2.
  { left. exists s2. split; [reflexivity | congruence]. }
  right. cbn. eexists. exists e2. split; [reflexivity|].
  cbn [self]. rewrite K2, K1, K0. reflexivity.
Qed.

(** A decode that fails once and then succeeds is a success without any
    trace in the error log. *)
Lemma process_image_retry_then_success w f s s1 s2 e :
  convert_image w f 0 s = (Raise e, s1) ->
  convert_image w f 1 s1 = (Ok tt, s2) ->
  process_image w f s = (Ok (PyBool true), s2) /\ self s2 = self s.
Proof.
  intros H0 H1. rewrite process_image_unfold.
  unfold try_except, bind, ret. rewrite H0, H1.
  split; [reflexivity|].
  pose proof (keeps_convert_image w f 0 s) as K0. rewrite H0 in K0.
  pose proof (keeps_convert_image w f 1 s1) as K1. rewrite H1 in K1.
  cbn [snd] in *. congruence.
Qed.

(** Three failures give [False] and one entry, carrying the last error. *)
Lemma process_image_exhausted w f s s0 s1 s2 e0 e1 e2 :
  convert_image w f 0 s = (Raise e0, s0) ->
  convert_image w f 1 s0 = (Raise e1, s1) ->
  convert_image w f 2 s1 = (Raise e2, s2) ->
  fst (process_image w f s) = Ok (PyBool false) /\
  error_log (self (snd (process_image w f s)))
  = (error_log (self s) ++ [mkEntry (basename f) e2])%list.
Proof.
  intros H0 H1 H2. rewrite process_image_unfold.
  unfold try_except, bind, ret. rewrite H0, H1, H2. cbn.
  pose proof (keeps_convert_image w f 0 s) as K0. rewrite H0 in K0.
  pose proof (keeps_convert_image w f 1 s0) as K1. rewrite H1 in K1.
  pose proof (keeps_convert_image w f 2 s1) as K2. rewrite H2 in K2.
  cbn [snd] in *. split; [reflexivity|]. now rewrite K2, K1, K0.
Qed.

(** ** The scheduler loop *)

Lemma process_image_fields w f s :
  processed_files (self (snd (process_image w f s))) = processed_files (self s) /\
  running (self (snd (process_image w f s))) = running (self s).
Proof.
  destruct (process_image_outcome w f s) as [(s' & E & H) | (s' & e & E & H)];
    rewrite E; cbn [snd]; rewrite H; split; reflexivity.
Qed.

Lemma record_result_fields f r s :
  processed_files (self (snd (record_result f r s)))
  = processed_files (self s) + (if succeeded r then 1 else 0) /\
  running (self (snd (record_result f r s))) = running (self s).
Proof.
  destruct r as [v | e]; cbn [record_result succeeded].
  - destruct (truthy v); cbn; split; try reflexivity; lia.
  - cbn. split; [lia | reflexivity].
Qed.

Lemma count_ok_cons x l :
  count_ok (x :: l) = (if succeeded (snd x) then 1 else 0) + count_ok l.
Proof.
  unfold count_ok. cbn [filter]. destruct (succeeded (snd x)); cbn [List.length]; lia.
Qed.

Lemma count_ok_app a b : count_ok (a ++ b) = count_ok a + count_ok b.
Proof.
  unfold count_ok. rewrite filter_app, length_app. lia.
Qed.

Lemma count_ok_nonneg l : 0 <= count_ok l.
Proof. unfold count_ok. lia. Qed.

Lemma count_ok_le_length l : count_ok l <= Z.of_nat (List.length l).
Proof.
  unfold count_ok. pose proof (filter_length_le (fun x => succeeded (snd x)) l). lia.
Qed.

(** A poll records exactly the jobs reported done, each once. *)
Lemma poll_futures_spec w d futures s :
  map fst (fst (poll_futures w d futures s)) = filter d futures /\
  processed_files (self (snd (poll_futures w d futures s)))
  = processed_files (self s) + count_ok (fst (poll_futures w d futures s)) /\
  running (self (snd (poll_futures w d futures s))) = running (self s).
Proof.
  revert s. induction futures as [| f rest IH]; intros s; cbn [poll_futures filter].
  - cbn. repeat split. lia.
  - destruct (d f); [| apply IH].
    unfold run_job.
    destruct (process_image_fields w f s) as [P1 R1].
    destruct (process_image w f s) as [r s1]. cbn [snd] in P1, R1.
    destruct (record_result_fields f r s1) as [P2 R2].
    destruct (IH (snd (record_result f r s1))) as (M & P3 & R3).
    destruct (poll_futures w d rest (snd (record_result f r s1))) as [done s3].
    cbn [fst snd map] in *. rewrite count_ok_cons. cbn [snd].
    repeat split.
    + now rewrite M.
    + lia.
    + congruence.
Qed.

(** The pool shutdown finishes every job it is given and counts none. *)
Lemma shutdown_spec w futures s :
  map fst (fst (shutdown w futures s)) = futures /\
  processed_files (self (snd (shutdown w futures s))) = processed_files (self s) /\
  running (self (snd (shutdown w futures s))) = running (self s).
Proof.
  revert s. induction futures as [| f rest IH]; intros s; cbn [shutdown].
  - repeat split.
  - unfold run_job.
    destruct (process_image_fields w f s) as [P1 R1].
    destruct (process_image w f s) as [r s1]. cbn [snd] in P1, R1.
    destruct (IH s1) as (M & P2 & R2).
    destruct (shutdown w rest s1) as [rs s2]. cbn [fst snd map] in *.
    repeat split; congruence.
Qed.

Lemma filter_split_permutation (d : string -> bool) l :
  Permutation l (filter d l ++ filter (fun f => negb (d f)) l).
Proof.
  induction l as [| x l IH]; [constructor|].
  cbn [filter]. destruct (d x); cbn [negb app].
  - now constructor.
  - now apply Permutation_cons_app.
Qed.

(** The invariant of the loop: every job is in exactly one of the recorded
    results, the in-flight list and the iterator; the counter moves with
    the recorded successes only; and a loop left while still running has
    given out and recorded everything. *)
Lemma stage_loop_accounting fuel w limit :
  forall evs pending futures acc s ex s',
    stage_loop fuel w limit evs pending futures acc s = Some (ex, s') ->
    Permutation (map fst acc ++ futures ++ pending)
                (map fst (recorded ex) ++ in_flight ex ++ not_submitted ex) /\
    processed_files (self s') - count_ok (recorded ex)
    = processed_files (self s) - count_ok acc /\
    ((0 < limit)%nat -> running (self s') = true ->
     in_flight ex = [] /\ not_submitted ex = []).
Proof.
  induction fuel as [| fuel IH]; intros evs pending futures acc s ex s';
    cbn [stage_loop]; [discriminate|].
  destruct (running (self s)) eqn:Run; cbn [negb].
  2:{ intros H. inversion H. subst. cbn [recorded in_flight not_submitted].
      split; [reflexivity|]. split; [reflexivity|].
      intros _ H'. congruence. }
  set (n := (limit - List.length futures)%nat).
  destruct (futures ++ firstn n pending)%list as [| f0 fs] eqn:E.
  - intros H. inversion H. subst. cbn [recorded in_flight not_submitted].
    apply app_eq_nil in E as [-> E2]. cbn [app].
    split; [| split; [reflexivity|]].
    + rewrite <- (firstn_skipn n pending) at 1. now rewrite E2.
    + intros Hlim _. split; [reflexivity|].
      destruct pending as [| x pending']; [now rewrite skipn_nil|].
      exfalso. unfold n in E2. cbn [List.length] in E2.
      destruct limit; [lia|]. cbn in E2. discriminate.
  - destruct (next_poll evs) as [ev evs'].
    destruct (poll_futures_spec w (done_now ev) (f0 :: fs) s) as (M & P & R).
    destruct (poll_futures w (done_now ev) (f0 :: fs) s) as [done s1].
    cbn [fst snd] in M, P, R.
    intros H. apply IH in H as (Hperm & Hcount & Hrun).
    split; [| split].
    + rewrite <- Hperm. rewrite map_app, M.
      rewrite <- (firstn_skipn n pending) at 1.
      rewrite (app_assoc futures), E.
      rewrite <- (app_assoc (map fst acc)). apply Permutation_app_head.
      rewrite (app_assoc (filter (done_now ev) (f0 :: fs))).
      apply Permutation_app_tail. apply filter_split_permutation.
    + rewrite Hcount, count_ok_app.
      destruct (cancel_after ev); cbn [self cancel set_running processed_files]; lia.
    + exact Hrun.
Qed.

(** The loop ends: with one unit of fuel more than polls and jobs together
    it is never cut short. *)
Lemma stage_loop_total fuel w limit :
  forall evs pending futures acc s,
    (0 < limit)%nat ->
    (List.length evs + List.length pending + List.length futures < fuel)%nat ->
    exists ex s', stage_loop fuel w limit evs pending futures acc s = Some (ex, s').
Proof.
  induction fuel as [| fuel IH]; intros evs pending futures acc s Hlim Hfuel;
    [lia|].
  cbn [stage_loop].
  destruct (negb (running (self s))); [eauto|].
  set (n := (limit - List.length futures)%nat).
  destruct (futures ++ firstn n pending)%list as [| f0 fs] eqn:E; [eauto|].
  assert (Hlen : (List.length (f0 :: fs) + List.length (skipn n pending)
                  = List.length futures + List.length pending)%nat).
  { rewrite <- E, length_app, <- Nat.add_assoc, <- length_app, firstn_skipn.
    reflexivity. }
  destruct evs as [| ev evs']; cbn [next_poll].
  - destruct (poll_futures w (done_now (mkPoll (fun _ => true) false)) (f0 :: fs) s)
      as [done s1].
    cbn [done_now cancel_after negb filter].
    replace (filter (fun _ : string => false) fs) with (@nil string)
      by (clear; induction fs; cbn; auto).
    apply IH; [assumption|]. cbn [List.length] in *.
    assert (Hpos : (List.length (skipn n pending) < List.length futures
                    + List.length pending)%nat) by lia.
    lia.
  - destruct (poll_futures w (done_now ev) (f0 :: fs) s) as [done s1].
    apply IH; [assumption|].
    pose proof (filter_length_le (fun f => negb (done_now ev f)) (f0 :: fs)) as Hf.
    cbn [List.length] in *. lia.
Qed.

Lemma shutdown_results w futures s f r :
  In (f, r) (fst (shutdown w futures s)) -> exists b, r = Ok (PyBool b).
Proof.
  revert s. induction futures as [| f0 rest IH]; intros s; cbn [shutdown].
  - intros [].
  - unfold run_job.
    pose proof (process_image_outcome w f0 s) as Hout.
    destruct (process_image w f0 s) as [r0 s1].
    specialize (IH s1). destruct (shutdown w rest s1) as [rs s2].
    cbn [fst]. intros [H | H]; [| now apply IH].
    inversion H. subst.
    destruct Hout as [(s' & E & _) | (s' & e & E & _)]; inversion E; eauto.
Qed.

(** The whole stage: the loop with the fuel of [stage_fuel], then the pool
    shutdown. *)
Lemma jpg_stage_accounting w files s :
  match jpg_stage w files s with
  | (Ok rep, s') =>
      Permutation files
        (map fst (counted rep) ++ map fst (abandoned rep) ++ never_submitted rep) /\
      processed_files (self s') = processed_files (self s) + count_ok (counted rep) /\
      (forall f r, In (f, r) (abandoned rep) -> exists b, r = Ok (PyBool b)) /\
      (running (self s') = true -> abandoned rep = [] /\ never_submitted rep = [])
  | (Raise _, s') => Z.min (jpg_threads (self s)) (len files) <= 0 /\ s' = s
  end.
Proof.
  unfold jpg_stage, bind, get_self.
  set (workers := Z.min (jpg_threads (self s)) (len files)).
  destruct (Z.leb_spec workers 0) as [Hle | Hgt]; [now split|].
  destruct (stage_loop_total (stage_fuel (polls w) files) w
              (Z.to_nat (workers * 2)) (polls w) files [] [] s)
    as (ex & s1 & E); [lia | unfold stage_fuel; cbn [List.length]; lia |].
  rewrite E.
  apply stage_loop_accounting in E as (Hperm & Hcount & Hrun).
  destruct (shutdown_spec w (in_flight ex) s1) as (M & P & R).
  pose proof (shutdown_results w (in_flight ex) s1) as Hres.
  destruct (shutdown w (in_flight ex) s1) as [rs s2].
  cbn [fst snd counted abandoned never_submitted] in *.
  split; [| split; [| split]].
  - rewrite M. exact Hperm.
  - change (count_ok []) with 0 in Hcount. lia.
  - exact Hres.
  - intros Hr. rewrite R in Hr.
    destruct (Hrun ltac:(lia) Hr) as [H1 H2]. split; [| exact H2].
    rewrite H1 in M. now destruct rs.
Qed.

(** ** What the conversions write *)

Lemma pil_resize_ok size r s s' :
  pil_resize size s = (Ok r, s') -> r = size /\ s' = s.
Proof.
  unfold pil_resize. destruct (_ && _)%bool; cbn; intros H; inversion H; auto.
Qed.

Lemma pil_resize_fail size e s s' :
  pil_resize size s = (Raise e, s') -> s' = s.
Proof.
  unfold pil_resize. destruct (_ && _)%bool; cbn; intros H; inversion H; auto.
Qed.

Lemma mkdir_spec w d s :
  self (snd (mkdir w d s)) = self s /\
  fs_files (disk (snd (mkdir w d s))) = fs_files (disk s) /\
  incl (fs_dirs (disk s)) (fs_dirs (disk (snd (mkdir w d s)))).
Proof.
  unfold mkdir, bind, get_disk.
  destruct (is_file d (disk s) || is_file (dirname d) (disk s))%bool.
  - cbn. repeat split. apply incl_refl.
  - destruct (os_error w d); cbn; repeat split;
      [apply incl_refl | apply incl_tl, incl_refl].
Qed.

Lemma mkdirs_spec w ds :
  forall s,
    self (snd (mkdirs w ds s)) = self s /\
    fs_files (disk (snd (mkdirs w ds s))) = fs_files (disk s) /\
    incl (fs_dirs (disk s)) (fs_dirs (disk (snd (mkdirs w ds s)))).
Proof.
  induction ds as [| d rest IH]; intros s; cbn [mkdirs].
  - cbn. repeat split. apply incl_refl.
  - unfold bind. destruct (mkdir_spec w d s) as (A & B & C).
    destruct (mkdir w d s) as [[[] | e] s1]; cbn [snd] in *.
    + destruct (IH s1) as (A1 & B1 & C1).
      split; [congruence|]. split; [congruence|].
      eapply incl_tran; eassumption.
    + repeat split; assumption.
Qed.

(** Creating directories touches neither the processor nor the files, and
    removes no directory. *)
Lemma makedirs_spec w d s :
  self (snd (makedirs w d s)) = self s /\
  fs_files (disk (snd (makedirs w d s))) = fs_files (disk s) /\
  incl (fs_dirs (disk s)) (fs_dirs (disk (snd (makedirs w d s)))).
Proof.
  unfold makedirs. destruct (String.eqb d "").
  - cbn. repeat split. apply incl_refl.
  - unfold bind at 1. cbn [get_disk]. apply mkdirs_spec.
Qed.

Lemma open_for_writing_state w p s : snd (open_for_writing w p s) = s.
Proof.
  unfold open_for_writing, bind, get_disk.
  destruct (negb (dir_exists (dirname p) (disk s))); [reflexivity|].
  destruct (dir_exists p (disk s)); [reflexivity|].
  destruct (os_error w p); reflexivity.
Qed.

(** Opening fails for a missing directory, for a path that is a directory,
    and when the system refuses. *)
Lemma open_for_writing_ok w p s :
  fst (open_for_writing w p s) = Ok tt <->
  dir_exists (dirname p) (disk s) = true /\ dir_exists p (disk s) = false /\
  os_error w p = None.
Proof.
  unfold open_for_writing, bind, get_disk.
  destruct (dir_exists (dirname p) (disk s)); cbn [negb].
  2:{ cbn. split; [discriminate | intros (H & _); discriminate]. }
  destruct (dir_exists p (disk s)).
  { cbn. split; [discriminate | intros (_ & H & _); discriminate]. }
  destruct (os_error w p); cbn.
  - split; [discriminate | intros (_ & _ & H); discriminate].
  - split; auto.
Qed.

(** Whether a file can be opened depends on the directories only. *)
Lemma open_for_writing_dirs w p s s2 :
  fs_dirs (disk s) = fs_dirs (disk s2) ->
  fst (open_for_writing w p s) = fst (open_for_writing w p s2).
Proof.
  intros H. unfold open_for_writing, bind, get_disk, dir_exists. rewrite H.
  destruct (negb (all_char sep (dirname p) || mem (dirname p) (fs_dirs (disk s2))));
    [reflexivity|].
  destruct (all_char sep p || mem p (fs_dirs (disk s2)))%bool; [reflexivity|].
  destruct (os_error w p); reflexivity.
Qed.

Lemma write_file_success w path c s :
  fst (write_file w path c s) = Ok tt ->
  fst (open_for_writing w path (snd (write_file w path c s))) = Ok tt.
Proof.
  unfold write_file, bind.
  pose proof (open_for_writing_state w path s) as H.
  destruct (open_for_writing w path s) as [[[] | e] s1] eqn:E;
    cbn [snd] in H; subst s1; [| discriminate].
  intros _. cbn [modify_disk snd].
  rewrite (open_for_writing_dirs w path _ s) by reflexivity.
  now rewrite E.
Qed.

(** Why an [open] fails. *)
Lemma open_for_writing_failure w p s e s' :
  open_for_writing w p s = (Raise e, s') ->
  dir_exists (dirname p) (disk s) = false \/
  dir_exists p (disk s) = true \/
  os_error w p = Some e.
Proof.
  unfold open_for_writing, bind, get_disk.
  destruct (dir_exists (dirname p) (disk s)); cbn [negb]; [| now left].
  destruct (dir_exists p (disk s)); [now (right; left)|].
  destruct (os_error w p) as [e' |]; cbn.
  - intros H. inversion H. now (right; right).
  - discriminate.
Qed.

Lemma write_file_run w path c s :
  (exists e, write_file w path c s = (Raise e, s)) \/
  write_file w path c s
  = (Ok tt, mkState (self s) (mkFs (fs_dirs (disk s)) ((path, c) :: fs_files (disk s)))).
Proof.
  unfold write_file, bind.
  pose proof (open_for_writing_state w path s) as H.
  destruct (open_for_writing w path s) as [[[] | e] s1]; cbn [snd] in H; subst s1.
  - right. reflexivity.
  - left. eexists. reflexivity.
Qed.

(** A failed write is a failed [open], and leaves the state as it was. *)
Lemma write_file_failure w path c s e :
  fst (write_file w path c s) = Raise e ->
  write_file w path c s = (Raise e, s) /\
  open_for_writing w path s = (Raise e, s).
Proof.
  unfold write_file, bind.
  pose proof (open_for_writing_state w path s) as H.
  destruct (open_for_writing w path s) as [[[] | e'] s1]; cbn [snd] in H; subst s1.
  - discriminate.
  - cbn [fst]. intros E. inversion E. subst e'. split; reflexivity.
Qed.

Lemma pil_save_run w path wd ht q s :
  (exists e, pil_save w path wd ht q s = (Raise e, s)) \/
  pil_save w path wd ht q s
  = (Ok tt, mkState (self s)
              (mkFs (fs_dirs (disk s)) ((path, Jpeg wd ht q) :: fs_files (disk s)))).
Proof.
  unfold pil_save, bind.
  pose proof (open_for_writing_state w path s) as H.
  destruct (open_for_writing w path s) as [[[] | e] s1]; cbn [snd] in H; subst s1.
  - destruct ((65500 <? wd) || (65500 <? ht))%bool.
    + left. eexists. reflexivity.
    + right. reflexivity.
  - left. eexists. reflexivity.
Qed.

(** The size a pipeline saves: the resized one when the image is larger
    than [max_side], the decoded one otherwise. *)
Lemma resized_or_kept (resize : Z -> Z -> Z -> Z * Z) ms size r s s' :
  (forall w h, resize ms w h
               = if Z.max w h >? ms then resize ms w h else (w, h)) ->
  (if Z.max (fst size) (snd size) >? ms
   then pil_resize (resize ms (fst size) (snd size)) else ret size) s = (Ok r, s') ->
  r = (if Z.max (fst size) (snd size) >? ms
       then resize ms (fst size) (snd size) else size) /\ s' = s.
Proof.
  intros _. destruct (Z.max (fst size) (snd size) >? ms).
  - apply pil_resize_ok.
  - cbn. intros H. inversion H. auto.
Qed.

Lemma std_size_cases ms size :
  (if Z.max (fst size) (snd size) >? ms
   then std_size ms (fst size) (snd size) else size)
  = std_size ms (fst size) (snd size).
Proof.
  unfold std_size. destruct (Z.max (fst size) (snd size) >? ms); [reflexivity|].
  now destruct size.
Qed.

Lemma raw_size_cases ms size :
  (if Z.max (fst size) (snd size) >? ms
   then raw_size ms (fst size) (snd size) else size)
  = raw_size ms (fst size) (snd size).
Proof.
  unfold raw_size. destruct (Z.max (fst size) (snd size) >? ms); [reflexivity|].
  now destruct size.
Qed.

(** One attempt of the standard pipeline: a success has written exactly the
    file [std_output], a failure has written no file; neither touches the
    processor object, and directories are only added. *)
Lemma convert_image_post w f n s :
  self (snd (convert_image w f n s)) = self s /\
  incl (fs_dirs (disk s)) (fs_dirs (disk (snd (convert_image w f n s)))) /\
  match fst (convert_image w f n s) with
  | Ok _ =>
      exists size, decode w f n = Ok size /\
        fs_files (disk (snd (convert_image w f n s)))
        = std_output (self s) f size :: fs_files (disk s)
  | Raise _ =>
      fs_files (disk (snd (convert_image w f n s))) = fs_files (disk s)
  end.
Proof.
  unfold convert_image, bind, get_self.
  destruct (decode w f n) as [size | e] eqn:D; cbn [lift ret raise].
  2:{ cbn. repeat split. apply incl_refl. }
  destruct ((if Z.max (fst size) (snd size) >? max_side (self s)
             then pil_resize (std_size (max_side (self s)) (fst size) (snd size))
             else ret size) s) as [[r | e] s1] eqn:R.
  2:{ assert (s1 = s).
      { destruct (Z.max (fst size) (snd size) >? max_side (self s)).
        - now apply pil_resize_fail in R.
        - cbn in R. inversion R. }
      subst. cbn. repeat split. apply incl_refl. }
  assert (Hr : r = std_size (max_side (self s)) (fst size) (snd size) /\ s1 = s).
  { rewrite <- std_size_cases.
    destruct (Z.max (fst size) (snd size) >? max_side (self s)).
    - now apply pil_resize_ok in R.
    - cbn in R. inversion R. auto. }
  destruct Hr as [-> ->].
  set (op := output_path_of (input_dir (self s)) (output_dir (self s)) f).
  destruct (makedirs_spec w (dirname op) s) as (MA & MB & MC).
  destruct (makedirs w (dirname op) s) as [[[] | e] s2]; cbn [snd] in MA, MB, MC.
  2:{ cbn [fst snd]. repeat split; assumption. }
  match goal with |- context [pil_save w ?pth ?a ?b ?c s2] =>
    destruct (pil_save_run w pth a b c s2) as [(e & W) | W]; rewrite W end.
  - cbn [fst snd]. repeat split; assumption.
  - cbn [fst snd self disk fs_dirs fs_files]. split; [exact MA|].
    split; [exact MC|]. exists size. split; [reflexivity|].
    rewrite MB. reflexivity.
Qed.

(** One attempt of the RAW pipeline. *)
Lemma convert_raw_post w f s :
  self (snd (convert_raw w f s)) = self s /\
  incl (fs_dirs (disk s)) (fs_dirs (disk (snd (convert_raw w f s)))) /\
  match fst (convert_raw w f s) with
  | Ok _ =>
      rawpy_available w = true /\
      exists size, raw_decode w f = Ok size /\
        fs_files (disk (snd (convert_raw w f s)))
        = raw_output (self s) f size :: fs_files (disk s)
  | Raise _ =>
      fs_files (disk (snd (convert_raw w f s))) = fs_files (disk s)
  end.
Proof.
  unfold convert_raw, bind, get_self.
  destruct (rawpy_available w); cbn [ret raise].
  2:{ cbn. repeat split. apply incl_refl. }
  destruct (raw_decode w f) as [size | e] eqn:D; cbn [lift ret raise].
  2:{ cbn. repeat split. apply incl_refl. }
  destruct ((if Z.max (fst size) (snd size) >? max_side (self s)
             then pil_resize (raw_size (max_side (self s)) (fst size) (snd size))
             else ret size) s) as [[r | e] s1] eqn:R.
  2:{ assert (s1 = s).
      { destruct (Z.max (fst size) (snd size) >? max_side (self s)).
        - now apply pil_resize_fail in R.
        - cbn in R. inversion R. }
      subst. cbn. repeat split. apply incl_refl. }
  assert (Hr : r = raw_size (max_side (self s)) (fst size) (snd size) /\ s1 = s).
  { rewrite <- raw_size_cases.
    destruct (Z.max (fst size) (snd size) >? max_side (self s)).
    - now apply pil_resize_ok in R.
    - cbn in R. inversion R. auto. }
  destruct Hr as [-> ->].
  set (op := output_path_of (input_dir (self s)) (output_dir (self s)) f).
  destruct (makedirs_spec w (dirname op) s) as (MA & MB & MC).
  destruct (makedirs w (dirname op) s) as [[[] | e] s2]; cbn [snd] in MA, MB, MC.
  2:{ cbn [fst snd]. repeat split; assumption. }
  match goal with |- context [pil_save w ?pth ?a ?b ?c s2] =>
    destruct (pil_save_run w pth a b c s2) as [(e & W) | W]; rewrite W end.
  - cbn [fst snd]. repeat split; assumption.
  - cbn [fst snd self disk fs_dirs fs_files]. split; [exact MA|].
    split; [exact MC|]. split; [reflexivity|]. exists size.
    split; [reflexivity|]. rewrite MB. reflexivity.
Qed.

(** ** The disk only grows *)

Lemma adds_refl w p s : adds w p s s.
Proof. split; [apply incl_refl|]. exists []. split; [reflexivity | constructor]. Qed.

Lemma adds_trans w p s1 s2 s3 :
  adds w p s1 s2 -> adds w p s2 s3 -> adds w p s1 s3.
Proof.
  intros [D1 (n1 & F1 & P1)] [D2 (n2 & F2 & P2)]. split.
  - eapply incl_tran; eassumption.
  - exists (n2 ++ n1)%list. split.
    + rewrite F2, F1. apply app_assoc.
    + apply Forall_app. now split.
Qed.

(** Only the disk counts. *)
Lemma adds_same_disk w p s s' : disk s' = disk s -> adds w p s s'.
Proof.
  intros H. split; rewrite H; [apply incl_refl|].
  exists []. split; [reflexivity | constructor].
Qed.

Lemma std_output_config p q f size :
  config_of p = config_of q -> std_output p f size = std_output q f size.
Proof. unfold config_of, std_output. intros H. inversion H. congruence. Qed.

Lemma raw_output_config p q f size :
  config_of p = config_of q -> raw_output p f size = raw_output q f size.
Proof. unfold config_of, raw_output. intros H. inversion H. congruence. Qed.

Lemma report_path_config p q :
  config_of p = config_of q -> report_path p = report_path q.
Proof. unfold config_of, report_path. intros H. inversion H. congruence. Qed.

Lemma only_adds_ret {A : Type} w (a : A) : only_adds w (ret a).
Proof. intros p s _. apply adds_refl. Qed.

Lemma only_adds_raise {A : Type} w (e : string) : only_adds w (@raise A e).
Proof. intros p s _. apply adds_refl. Qed.

Lemma only_adds_get_self w : only_adds w get_self.
Proof. intros p s _. apply adds_refl. Qed.

Lemma only_adds_get_disk w : only_adds w get_disk.
Proof. intros p s _. apply adds_refl. Qed.

Lemma only_adds_get_state w : only_adds w get_state.
Proof. intros p s _. apply adds_refl. Qed.

Lemma only_adds_lift {A : Type} w (r : result A) : only_adds w (lift r).
Proof. destruct r; intros p s _; apply adds_refl. Qed.

Lemma only_adds_modify_self w f : only_adds w (modify_self f).
Proof. intros p s _. now apply adds_same_disk. Qed.

Lemma only_adds_bind {A B : Type} w (m : M A) (k : A -> M B) :
  only_adds w m -> frames m -> (forall a, only_adds w (k a)) ->
  only_adds w (bind m k).
Proof.
  intros Hm Fm Hk p s Hc. unfold bind.
  specialize (Hm p s Hc). specialize (Fm s).
  destruct (m s) as [[a | e] s']; cbn [snd] in *; [| exact Hm].
  eapply adds_trans; [exact Hm|]. apply Hk. congruence.
Qed.

Lemma only_adds_try {A : Type} w (m : M A) (h : string -> M A) :
  only_adds w m -> frames m -> (forall e, only_adds w (h e)) ->
  only_adds w (try_except m h).
Proof.
  intros Hm Fm Hh p s Hc. unfold try_except.
  specialize (Hm p s Hc). specialize (Fm s).
  destruct (m s) as [[a | e] s']; cbn [snd] in *; [exact Hm|].
  eapply adds_trans; [exact Hm|]. apply Hh. congruence.
Qed.

Lemma only_adds_if {A : Type} w (b : bool) (m1 m2 : M A) :
  only_adds w m1 -> only_adds w m2 -> only_adds w (if b then m1 else m2).
Proof. destruct b; auto. Qed.

Create HintDb grow.
#[local] Hint Resolve only_adds_ret only_adds_raise only_adds_get_self
  only_adds_get_disk only_adds_get_state only_adds_lift only_adds_modify_self
  : grow.

Ltac grow_step :=
  match goal with
  | |- only_adds _ (bind _ _) => apply only_adds_bind; [| frame | intro]
  | |- only_adds _ (try_except _ _) => apply only_adds_try; [| frame | intro]
  | |- only_adds _ (if _ then _ else _) => apply only_adds_if
  | |- only_adds _ (match ?x with _ => _ end) => destruct x
  | |- only_adds _ _ => solve [auto with grow]
  end.

Ltac grow := repeat grow_step.

Lemma only_adds_log_error w f e : only_adds w (log_error f e).
Proof. unfold log_error. grow. Qed.

(** An attempt of the standard pipeline adds at most the converted file. *)
Lemma only_adds_convert_image w f n :
  (n <= JPG_RETRY_COUNT)%nat -> only_adds w (convert_image w f n).
Proof.
  intros Hn p s Hc.
  destruct (convert_image_post w f n s) as (_ & Hd & Hf).
  split; [exact Hd|].
  destruct (fst (convert_image w f n s)).
  - destruct Hf as (size & D & Hf). exists [std_output (self s) f size].
    split; [exact Hf|]. constructor; [| constructor].
    rewrite (std_output_config _ p) by exact Hc.
    econstructor; eassumption.
  - exists []. split; [exact Hf | constructor].
Qed.

Lemma only_adds_convert_raw w f : only_adds w (convert_raw w f).
Proof.
  intros p s Hc.
  destruct (convert_raw_post w f s) as (_ & Hd & Hf).
  split; [exact Hd|].
  destruct (fst (convert_raw w f s)).
  - destruct Hf as (Hav & size & D & Hf). exists [raw_output (self s) f size].
    split; [exact Hf|]. constructor; [| constructor].
    rewrite (raw_output_config _ p) by exact Hc.
    econstructor; eassumption.
  - exists []. split; [exact Hf | constructor].
Qed.

#[local] Hint Resolve only_adds_log_error only_adds_convert_raw : grow.

Lemma only_adds_process_image_loop w f retries :
  Forall (fun n => (n <= JPG_RETRY_COUNT)%nat) retries ->
  only_adds w (process_image_loop w f retries).
Proof.
  induction 1 as [| n rest Hn Hrest IH]; cbn [process_image_loop]; grow.
  now apply only_adds_convert_image.
Qed.

Lemma only_adds_process_image w f : only_adds w (process_image w f).
Proof.
  apply only_adds_process_image_loop. unfold JPG_RETRY_COUNT. cbn.
  repeat constructor.
Qed.

Lemma only_adds_process_raw w f : only_adds w (process_raw w f).
Proof. unfold process_raw. grow. Qed.

Lemma only_adds_record_result w f r : only_adds w (record_result f r).
Proof. unfold record_result. grow. Qed.

#[local] Hint Resolve only_adds_process_image only_adds_process_raw
  only_adds_record_result : grow.

Lemma only_adds_jpg_task_body w f : only_adds w (jpg_task_body w f).
Proof. unfold jpg_task_body. grow. Qed.

Lemma poll_futures_adds w p is_done futures s :
  config_of (self s) = config_of p ->
  adds w p s (snd (poll_futures w is_done futures s)).
Proof.
  revert s. induction futures as [| f rest IH]; intros s Hc; cbn [poll_futures].
  - apply adds_refl.
  - destruct (is_done f); [| now apply IH].
    unfold run_job.
    pose proof (only_adds_process_image w f p s Hc) as A1.
    pose proof (frames_process_image w f s) as H1.
    destruct (process_image w f s) as [r s1]. cbn [snd] in A1, H1.
    assert (Hc1 : config_of (self s1) = config_of p) by congruence.
    pose proof (only_adds_record_result w f r p s1 Hc1) as A2.
    pose proof (frames_record_result f r s1) as H2.
    assert (Hc2 : config_of (self (snd (record_result f r s1))) = config_of p)
      by congruence.
    specialize (IH (snd (record_result f r s1)) Hc2).
    destruct (poll_futures w is_done rest (snd (record_result f r s1))) as [d s3].
    cbn [snd] in *.
    eapply adds_trans; [exact A1|]. eapply adds_trans; [exact A2 | exact IH].
Qed.

Lemma shutdown_adds w p futures s :
  config_of (self s) = config_of p ->
  adds w p s (snd (shutdown w futures s)).
Proof.
  revert s. induction futures as [| f rest IH]; intros s Hc; cbn [shutdown].
  - apply adds_refl.
  - unfold run_job.
    pose proof (only_adds_process_image w f p s Hc) as A1.
    pose proof (frames_process_image w f s) as H1.
    destruct (process_image w f s) as [r s1]. cbn [snd] in A1, H1.
    assert (Hc1 : config_of (self s1) = config_of p) by congruence.
    specialize (IH s1 Hc1). destruct (shutdown w rest s1) as [rs s2].
    cbn [snd] in *. eapply adds_trans; eassumption.
Qed.

Lemma stage_loop_adds fuel w p limit evs pending futures acc s ex s' :
  config_of (self s) = config_of p ->
  stage_loop fuel w limit evs pending futures acc s = Some (ex, s') ->
  adds w p s s'.
Proof.
  revert evs pending futures acc s.
  induction fuel as [| fuel IH]; intros evs pending futures acc s Hc;
    cbn [stage_loop].
  - discriminate.
  - destruct (negb (running (self s))).
    + intros H. inversion H. apply adds_refl.
    + destruct (futures ++ firstn (limit - List.length futures) pending)%list
        as [| f0 fs] eqn:E.
      * intros H. inversion H. apply adds_refl.
      * destruct (next_poll evs) as [ev evs'].
        pose proof (poll_futures_adds w p (done_now ev) (f0 :: fs) s Hc) as A1.
        pose proof (poll_futures_config w (done_now ev) (f0 :: fs) s) as H1.
        destruct (poll_futures w (done_now ev) (f0 :: fs) s) as [done s1].
        cbn [snd] in A1, H1. intros H. apply IH in H.
        -- eapply adds_trans; [exact A1|].
           eapply adds_trans; [| exact H].
           destruct (cancel_after ev); [now apply adds_same_disk | apply adds_refl].
        -- destruct (cancel_after ev); cbn [self]; [| congruence].
           rewrite <- Hc, <- H1. reflexivity.
Qed.

Lemma only_adds_jpg_stage w files : only_adds w (jpg_stage w files).
Proof.
  unfold jpg_stage. apply only_adds_bind; [auto with grow | frame | intro p0].
  apply only_adds_if; [auto with grow |].
  intros p s Hc.
  destruct (stage_loop _ w _ (polls w) files [] [] s) as [[ex s1] |] eqn:E;
    [| apply adds_refl].
  pose proof (stage_loop_adds _ _ p _ _ _ _ _ _ _ _ Hc E) as A1.
  apply stage_loop_config in E.
  assert (Hc1 : config_of (self s1) = config_of p) by congruence.
  pose proof (shutdown_adds w p (in_flight ex) s1 Hc1) as A2.
  destruct (shutdown w (in_flight ex) s1) as [rs s2]. cbn [snd] in *.
  eapply adds_trans; eassumption.
Qed.

Lemma only_adds_raw_loop w i files : only_adds w (raw_loop w i files).
Proof.
  revert i. induction files as [| f rest IH]; intros i; cbn [raw_loop]; grow.
Qed.

#[local] Hint Resolve only_adds_jpg_stage only_adds_raw_loop : grow.

Lemma only_adds_process_raw_files w files :
  only_adds w (process_raw_files w files).
Proof. unfold process_raw_files. grow. Qed.

(** The report is written where [report_path] says, and only when there is
    something to report. *)
Lemma only_adds_write_report w : only_adds w (write_report w).
Proof.
  intros p s Hc. unfold write_report, bind, get_self.
  destruct (error_log (self s)) as [| e l] eqn:E; [apply adds_refl|].
  match goal with |- context [write_file w ?pth ?c s] =>
    destruct (write_file_run w pth c s) as [(e' & W) | W]; rewrite W end.
  - apply adds_refl.
  - cbn. split; [apply incl_refl|].
    exists [(report_path (self s), Report (e :: l))]. split; [reflexivity|].
    constructor; [| constructor].
    rewrite (report_path_config _ p) by exact Hc. constructor. discriminate.
Qed.

#[local] Hint Resolve only_adds_process_raw_files only_adds_write_report : grow.

Lemma only_adds_run w : only_adds w (run w).
Proof.
  unfold run.
  apply only_adds_bind; [auto with grow | frame | intro p0].
  apply only_adds_bind; [grow | frame | intros _].
  intros p s Hc. unfold bind at 1. cbn [get_self].
  pose proof (scan_and_group_files_config w (self s)) as Hscan.
  destruct (scan_and_group_files w (self s)) as [[imgs raws] p1].
  cbn [snd] in Hscan.
  unfold bind at 1. cbn [modify_self].
  set (s1 := mkState p1 (disk s)).
  assert (Hs1 : config_of (self s1) = config_of p) by (cbn; congruence).
  apply (adds_trans w p s s1); [now apply adds_same_disk|].
  revert Hs1. generalize s1. clear. intros s1 Hs1. revert p s1 Hs1.
  change (only_adds w
    (if negb (running p1) then ret tt
     else
       s <- get_state ;;
       modify_self
         (set_total_files
            (len (filter (fun f => negb (is_processed s f)) imgs) + len raws)) ;;
       (if (nonempty (filter (fun f => negb (is_processed s f)) imgs)
            && running p1)%bool
        then jpg_stage w (filter (fun f => negb (is_processed s f)) imgs) ;; ret tt
        else ret tt) ;;
       p <- get_self ;;
       (if (nonempty raws && running p && process_raw_enabled p)%bool
        then process_raw_files w raws else ret tt) ;;
       p <- get_self ;;
       if running p then write_report w else ret tt)).
  grow.
Qed.

(** ** What process_image and process_raw leave behind *)

Lemma adds_path_exists w p s s' path :
  adds w p s s' ->
  path_exists path (disk s) = true -> path_exists path (disk s') = true.
Proof.
  intros [Hd (new & Hf & _)]. unfold path_exists, dir_exists.
  rewrite !orb_true_iff, !mem_In. intros [[H | H] | H].
  - left. now left.
  - left. right. now apply Hd.
  - right. rewrite Hf, map_app. apply in_or_app. now right.
Qed.

(** process_image either returns [True] after writing exactly one file, the
    conversion of the size decoded on one of the three attempts, or returns
    [False] without having written any file. *)
Lemma process_image_written w f s :
  (fst (process_image w f s) = Ok (PyBool true) /\
   self (snd (process_image w f s)) = self s /\
   exists n size,
     (n <= JPG_RETRY_COUNT)%nat /\ decode w f n = Ok size /\
     fs_files (disk (snd (process_image w f s)))
     = std_output (self s) f size :: fs_files (disk s)) \/
  (fst (process_image w f s) = Ok (PyBool false) /\
   fs_files (disk (snd (process_image w f s))) = fs_files (disk s) /\
   exists e,
     self (snd (process_image w f s))
     = set_error_log (error_log (self s) ++ [mkEntry (basename f) e])%list (self s)).
Proof.
  rewrite process_image_unfold. unfold try_except, bind, ret, JPG_RETRY_COUNT.
  destruct (convert_image_post w f 0 s) as (K0 & _ & F0).
  destruct (convert_image w f 0 s) as [[[] | e0] s0]; cbn [fst snd] in *.
  { left. split; [reflexivity|]. split; [exact K0|].
    destruct F0 as (size & D & F). exists 0%nat, size. repeat split; auto. }
  destruct (convert_image_post w f 1 s0) as (K1 & _ & F1).
  destruct (convert_image w f 1 s0) as [[[] | e1] s1]; cbn [fst snd] in *.
  { left. split; [reflexivity|]. split; [congruence|].
    destruct F1 as (size & D & F). exists 1%nat, size.
    split; [auto|]. split; [exact D|]. rewrite F, K0, F0. reflexivity. }
  destruct (convert_image_post w f 2 s1) as (K2 & _ & F2).
  destruct (convert_image w f 2 s1) as [[[] | e2] s2]; cbn [fst snd] in *.
  { left. split; [reflexivity|]. split; [congruence|].
    destruct F2 as (size & D & F). exists 2%nat, size.
    split; [auto|]. split; [exact D|]. rewrite F, K1, K0, F1, F0. reflexivity. }
  right. cbn. split; [reflexivity|]. split; [congruence|].
  exists e2. rewrite K2, K1, K0. reflexivity.
Qed.

(** process_raw makes one attempt. *)
Lemma process_raw_written w f s :
  (process_raw_enabled (self s) = false /\ process_raw w f s = (Ok false, s)) \/
  (process_raw_enabled (self s) = true /\
   fst (process_raw w f s) = Ok true /\
   self (snd (process_raw w f s)) = self s /\
   exists size,
     raw_decode w f = Ok size /\
     fs_files (disk (snd (process_raw w f s)))
     = raw_output (self s) f size :: fs_files (disk s)) \/
  (process_raw_enabled (self s) = true /\
   fst (process_raw w f s) = Ok false /\
   fs_files (disk (snd (process_raw w f s))) = fs_files (disk s) /\
   exists e,
     self (snd (process_raw w f s))
     = set_error_log (error_log (self s) ++ [mkEntry (basename f) e])%list (self s)).
Proof.
  unfold process_raw, bind, get_self.
  destruct (process_raw_enabled (self s)) eqn:En; cbn [negb].
  2:{ left. split; reflexivity. }
  right. unfold try_except, bind, ret.
  destruct (convert_raw_post w f s) as (K & _ & F).
  destruct (convert_raw w f s) as [[[] | e] s1]; cbn [fst snd] in *.
  - left. split; [reflexivity|]. split; [reflexivity|]. split; [exact K|].
    destruct F as (_ & size & D & F). exists size. now split.
  - right. cbn. split; [reflexivity|]. split; [reflexivity|]. split; [exact F|].
    exists e. rewrite K. reflexivity.
Qed.

(** A file for which process_image returned [True] is found processed. *)
Lemma process_image_then_processed w f s :
  fst (process_image w f s) = Ok (PyBool true) ->
  is_processed (snd (process_image w f s)) f = true.
Proof.
  intros H.
  destruct (process_image_written w f s) as [(_ & K & n & size & _ & _ & F)
                                            | (E & _)]; [| congruence].
  unfold is_processed, path_exists. rewrite K, F.
  apply orb_true_iff. right. cbn [map fst std_output mem existsb].
  now rewrite String.eqb_refl.
Qed.

(** ** Sizes of the outputs *)

Lemma std_size_le ms w h :
  0 < ms -> 0 < w <= dim_limit -> 0 < h <= dim_limit ->
  fst (std_size ms w h) <= ms + 1 /\ snd (std_size ms w h) <= ms + 1.
Proof.
  intros Hms Hw Hh. unfold std_size.
  destruct (Z.gtb_spec (Z.max w h) ms) as [Hgt | Hle]; cbn [fst snd]; [| lia].
  assert (H1 : 0 < ms < Z.max w h) by lia.
  assert (H2 : Z.max w h <= dim_limit) by lia.
  destruct (std_dim_bounds ms (Z.max w h) w H1 H2 ltac:(lia)) as (_ & Bw & _).
  destruct (std_dim_bounds ms (Z.max w h) h H1 H2 ltac:(lia)) as (_ & Bh & _).
  now split.
Qed.

Lemma raw_size_le ms w h :
  0 < ms -> 0 < w <= dim_limit -> 0 < h <= dim_limit ->
  fst (raw_size ms w h) <= ms + 1 /\ snd (raw_size ms w h) <= ms + 1.
Proof.
  intros Hms Hw Hh. unfold raw_size.
  destruct (Z.gtb_spec (Z.max w h) ms) as [Hgt | Hle]; cbn [fst snd]; [| lia].
  assert (H1 : 0 < ms < Z.max w h) by lia.
  assert (H2 : Z.max w h <= dim_limit) by lia.
  destruct (raw_dim_bounds ms (Z.max w h) w H1 H2 ltac:(lia)) as (_ & Bw).
  destruct (raw_dim_bounds ms (Z.max w h) h H1 H2 ltac:(lia)) as (_ & Bh).
  now split.
Qed.

(** What [produced] says about a JPEG. *)
Lemma produced_quality w p path c q :
  produced w p (path, c) -> quality_of c = Some q ->
  q = jpg_quality p \/ (high_quality_raw p = true /\ q = 95).
Proof.
  intros H. inversion H; subst; cbn [quality_of].
  - intros E. inversion E. now left.
  - destruct (high_quality_raw p); intros E; inversion E; auto.
  - discriminate.
Qed.

Lemma produced_size w p path c wd ht :
  sane_sizes w -> 0 < max_side p ->
  produced w p (path, c) -> size_of c = Some (wd, ht) ->
  wd <= max_side p + 1 /\ ht <= max_side p + 1.
Proof.
  intros [Hstd Hraw] Hms H. inversion H; subst; cbn [size_of].
  - intros E. inversion E. subst.
    match goal with D : decode _ _ _ = Ok _ |- _ =>
      destruct (Hstd _ _ _ D) as [Bw Bh] end.
    now apply std_size_le.
  - intros E. inversion E. subst.
    match goal with D : raw_decode _ _ = Ok _ |- _ =>
      destruct (Hraw _ _ D) as [Bw Bh] end.
    now apply raw_size_le.
  - discriminate.
Qed.

Lemma is_processed_config s s' f :
  config_of (self s') = config_of (self s) ->
  (forall path, path_exists path (disk s) = true ->
                path_exists path (disk s') = true) ->
  is_processed s f = true -> is_processed s' f = true.
Proof.
  unfold is_processed, config_of. intros Hc Hp H. inversion Hc.
  apply Hp. congruence.
Qed.

(** ** Attributes the stages leave alone *)

Lemma run_eq w s :
  run w s
  = if negb (running (self (after_scan w s))) then (Ok tt, after_scan w s)
    else run_stages w (self (after_scan w s)) (pending_images w s)
           (pending_raws w s)
           (mkState (set_total_files
                       (len (pending_images w s) + len (pending_raws w s))
                       (self (after_scan w s)))
                    (disk s)).
Proof.
  unfold run, run_stages, pending_images, pending_raws, after_scan, before_scan.
  unfold bind at 1. cbn [get_self].
  unfold bind at 1.
  destruct (process_raw_enabled (self s) && negb (rawpy_available w))%bool;
    cbn [modify_self ret self disk];
    unfold bind at 1; cbn [get_self self];
    match goal with |- context [scan_and_group_files w ?p] =>
      destruct (scan_and_group_files w p) as [[imgs raws] p1] end;
    cbn [fst snd]; unfold bind at 1; cbn [modify_self self disk];
    destruct (running p1); cbn [negb]; try reflexivity;
    unfold bind at 1; cbn [get_state];
    unfold bind at 1; cbn [modify_self self disk]; reflexivity.
Qed.

Section Field.
Context {B : Type} (proj : processor -> B).
Hypothesis proj_processed : forall n p, proj (set_processed_files n p) = proj p.
Hypothesis proj_error_log : forall l p, proj (set_error_log l p) = proj p.
Hypothesis proj_running : forall b p, proj (set_running b p) = proj p.

Lemma field_ret {A : Type} (a : A) : keeps_field proj (ret a).
Proof. intros s. reflexivity. Qed.

Lemma field_raise {A : Type} (e : string) : keeps_field proj (@raise A e).
Proof. intros s. reflexivity. Qed.

Lemma field_get_self : keeps_field proj get_self.
Proof. intros s. reflexivity. Qed.

Lemma field_bind {A C : Type} (m : M A) (k : A -> M C) :
  keeps_field proj m -> (forall a, keeps_field proj (k a)) ->
  keeps_field proj (bind m k).
Proof.
  intros Hm Hk s. unfold bind. specialize (Hm s).
  destruct (m s) as [[a | e] s']; cbn [snd] in *.
  - now rewrite Hk.
  - exact Hm.
Qed.

Lemma field_try {A : Type} (m : M A) (h : string -> M A) :
  keeps_field proj m -> (forall e, keeps_field proj (h e)) ->
  keeps_field proj (try_except m h).
Proof.
  intros Hm Hh s. unfold try_except. specialize (Hm s).
  destruct (m s) as [[a | e] s']; cbn [snd] in *.
  - exact Hm.
  - now rewrite Hh.
Qed.

Lemma field_if {A : Type} (b : bool) (m1 m2 : M A) :
  keeps_field proj m1 -> keeps_field proj m2 ->
  keeps_field proj (if b then m1 else m2).
Proof. destruct b; auto. Qed.

Lemma field_keeps_self {A : Type} (m : M A) :
  keeps_self m -> keeps_field proj m.
Proof. intros H s. now rewrite H. Qed.

Lemma field_log_error f e : keeps_field proj (log_error f e).
Proof. intros s. cbn. apply proj_error_log. Qed.

Lemma field_count : 
  keeps_field proj
    (modify_self (fun p => set_processed_files (processed_files p + 1) p)).
Proof. intros s. cbn. apply proj_processed. Qed.

Lemma field_cancel : keeps_field proj (modify_self cancel).
Proof. intros s. cbn. apply proj_running. Qed.

Lemma field_process_image w f : keeps_field proj (process_image w f).
Proof.
  intros s.
  destruct (process_image_outcome w f s) as [(s' & E & H) | (s' & e & E & H)];
    rewrite E; cbn [snd]; rewrite H; [reflexivity | apply proj_error_log].
Qed.

Lemma field_record_result f r : keeps_field proj (record_result f r).
Proof.
  destruct r as [v | e]; cbn [record_result].
  - destruct (truthy v); [apply field_count | apply field_log_error].
  - apply field_log_error.
Qed.

Lemma field_poll_futures w is_done futures s :
  proj (self (snd (poll_futures w is_done futures s))) = proj (self s).
Proof.
  revert s. induction futures as [| f rest IH]; intros s; cbn [poll_futures].
  - reflexivity.
  - destruct (is_done f); [| apply IH].
    unfold run_job.
    pose proof (field_process_image w f s) as H1.
    destruct (process_image w f s) as [r s1]. cbn [snd] in H1.
    pose proof (field_record_result f r s1) as H2.
    specialize (IH (snd (record_result f r s1))).
    destruct (poll_futures w is_done rest (snd (record_result f r s1))) as [d s3].
    cbn [snd] in *. congruence.
Qed.

Lemma field_shutdown w futures s :
  proj (self (snd (shutdown w futures s))) = proj (self s).
Proof.
  revert s. induction futures as [| f rest IH]; intros s; cbn [shutdown].
  - reflexivity.
  - unfold run_job.
    pose proof (field_process_image w f s) as H1.
    destruct (process_image w f s) as [r s1]. cbn [snd] in H1.
    specialize (IH s1). destruct (shutdown w rest s1) as [rs s2].
    cbn [snd] in *. congruence.
Qed.

Lemma field_stage_loop fuel w limit evs pending futures acc s ex s' :
  stage_loop fuel w limit evs pending futures acc s = Some (ex, s') ->
  proj (self s') = proj (self s).
Proof.
  revert evs pending futures acc s.
  induction fuel as [| fuel IH]; intros evs pending futures acc s; cbn [stage_loop].
  - discriminate.
  - destruct (negb (running (self s))).
    + intros H. now inversion H.
    + destruct (futures ++ firstn (limit - List.length futures) pending)%list
        as [| f0 fs] eqn:E.
      * intros H. now inversion H.
      * destruct (next_poll evs) as [ev evs'].
        pose proof (field_poll_futures w (done_now ev) (f0 :: fs) s) as H1.
        destruct (poll_futures w (done_now ev) (f0 :: fs) s) as [done s1].
        cbn [snd] in H1. intros H. apply IH in H. rewrite H.
        destruct (cancel_after ev); cbn [self]; [| exact H1].
        rewrite <- H1. apply proj_running.
Qed.

Lemma field_jpg_stage w files : keeps_field proj (jpg_stage w files).
Proof.
  unfold jpg_stage. apply field_bind; [apply field_get_self | intro p].
  apply field_if; [apply field_raise |].
  intros s.
  destruct (stage_loop _ w _ (polls w) files [] [] s) as [[ex s1] |] eqn:E;
    [| reflexivity].
  apply field_stage_loop in E.
  pose proof (field_shutdown w (in_flight ex) s1) as H.
  destruct (shutdown w (in_flight ex) s1) as [rs s2]. cbn [snd] in *. congruence.
Qed.

Lemma field_process_raw w f : keeps_field proj (process_raw w f).
Proof.
  unfold process_raw. apply field_bind; [apply field_get_self | intro p].
  apply field_if; [apply field_ret |].
  apply field_try.
  - apply field_keeps_self. apply keeps_bind; [apply keeps_convert_raw | intro].
    apply keeps_ret.
  - intro e. apply field_bind; [apply field_log_error | intro; apply field_ret].
Qed.

Lemma field_raw_loop w i files : keeps_field proj (raw_loop w i files).
Proof.
  revert i. induction files as [| f rest IH]; intros i; cbn [raw_loop].
  - apply field_ret.
  - apply field_bind.
    { destruct (raw_cancel w) as [n |]; [| apply field_ret].
      apply field_if; [apply field_cancel | apply field_ret]. }
    intros _. apply field_bind; [apply field_get_self | intro p].
    apply field_if; [apply field_ret |].
    apply field_bind; [apply field_process_raw | intro ok].
    apply field_bind; [| intros _; apply IH].
    apply field_if; [apply field_count | apply field_ret].
Qed.

Lemma field_process_raw_files w files :
  keeps_field proj (process_raw_files w files).
Proof.
  unfold process_raw_files. apply field_bind; [apply field_get_self | intro p].
  apply field_if; [apply field_ret | apply field_raw_loop].
Qed.

Lemma field_write_report w : keeps_field proj (write_report w).
Proof.
  apply field_keeps_self. unfold write_report.
  apply keeps_bind; [apply keeps_get_self | intro p].
  destruct (error_log p); [apply keeps_ret | apply keeps_write_file].
Qed.

Lemma field_run_stages w p1 imgs raws :
  keeps_field proj (run_stages w p1 imgs raws).
Proof.
  unfold run_stages. apply field_bind.
  { apply field_if; [| apply field_ret].
    apply field_bind; [apply field_jpg_stage | intro; apply field_ret]. }
  intros _. apply field_bind; [apply field_get_self | intro p].
  apply field_bind.
  { apply field_if; [apply field_process_raw_files | apply field_ret]. }
  intros _. apply field_bind; [apply field_get_self | intro p'].
  apply field_if; [apply field_write_report | apply field_ret].
Qed.

End Field.

(** The attributes the scan leaves alone. *)
Section ScanField.
Context {B : Type} (proj : processor -> B).
Hypothesis proj_system : forall n p, proj (set_skipped_system_files n p) = proj p.
Hypothesis proj_skip : forall n p, proj (set_skip_files n p) = proj p.
Hypothesis proj_running : forall b p, proj (set_running b p) = proj p.

Lemma scan_file_field root file gp :
  proj (snd (scan_file root file gp)) = proj (snd gp).
Proof.
  destruct gp as [groups p]. unfold scan_file.
  repeat match goal with
         | |- context [if ?b then _ else _] => destruct b
         end; cbn [snd]; auto.
Qed.

Lemma scan_files_field root files gp :
  proj (snd (scan_files root files gp)) = proj (snd gp).
Proof.
  unfold scan_files. revert gp.
  induction files as [| f rest IH]; intros gp; cbn [fold_left].
  - reflexivity.
  - rewrite IH. apply scan_file_field.
Qed.

Lemma scan_dirs_field cancel_at idx dirs gp :
  proj (snd (scan_dirs cancel_at idx dirs gp)) = proj (snd gp).
Proof.
  revert idx gp. induction dirs as [| [root files] rest IH]; intros idx gp;
    cbn [scan_dirs].
  - cbn [snd]. unfold cancel.
    destruct cancel_at as [n |]; [destruct (Nat.eqb n idx)|]; auto.
  - set (p := match cancel_at with
              | Some n => if Nat.eqb n idx then cancel (snd gp) else snd gp
              | None => snd gp
              end).
    assert (Hp : proj p = proj (snd gp)).
    { unfold p, cancel. destruct cancel_at as [n |]; [destruct (Nat.eqb n idx)|];
        auto. }
    destruct (negb (running p)); cbn [snd]; [exact Hp|].
    rewrite IH, scan_files_field. exact Hp.
Qed.

Lemma select_group_field g acc :
  proj (snd (select_group g acc)) = proj (snd acc).
Proof.
  destruct acc as [[imgs raws] p]. unfold select_group.
  destruct (slot (image g)); destruct (slot (raw g));
    destruct (process_raw_enabled p); cbn [snd]; auto.
Qed.

Lemma select_groups_field groups p :
  proj (snd (select_groups groups p)) = proj p.
Proof.
  unfold select_groups.
  assert (H : forall acc,
    proj (snd (fold_left (fun acc kv => select_group (snd kv) acc) groups acc))
    = proj (snd acc)).
  { induction groups as [| kv rest IH]; intros acc; cbn [fold_left].
    - reflexivity.
    - rewrite IH. apply select_group_field. }
  apply (H ([], [], p)).
Qed.

(** The scan either was cancelled, and then only [running] and the count of
    system files can differ, or it has set [total_files] to the length of
    the two lists it returns. *)
Lemma scan_and_group_files_field w p :
  (scan_and_group_files w p
   = ([], [], snd (scan_and_group_files w p)) /\
   proj (snd (scan_and_group_files w p)) = proj p) \/
  exists p'',
    proj p'' = proj p /\
    snd (scan_and_group_files w p)
    = set_total_files (len (fst (fst (scan_and_group_files w p)))
                       + len (snd (fst (scan_and_group_files w p)))) p''.
Proof.
  unfold scan_and_group_files.
  pose proof (scan_dirs_field (scan_cancel w) 0 (walk w) ([], p)) as H.
  destruct (scan_dirs (scan_cancel w) 0 (walk w) ([], p)) as [[groups |] p'];
    cbn [snd] in *.
  - right. pose proof (select_groups_field groups p') as H2.
    destruct (select_groups groups p') as [[imgs raws] p'']. cbn [fst snd] in *.
    exists p''. split; [congruence | reflexivity].
  - left. split; [reflexivity | exact H].
Qed.

End ScanField.

(** ** The RAW stage *)

Lemma raw_cancel_step w i s :
  exists s0,
    (match raw_cancel w with
     | Some n => if Nat.eqb n i then modify_self cancel else ret tt
     | None => ret tt
     end) s = (Ok tt, s0) /\
    disk s0 = disk s /\
    (self s0 = self s \/ (self s0 = cancel (self s) /\ raw_cancel w = Some i)).
Proof.
  destruct (raw_cancel w) as [n |]; [destruct (Nat.eqb_spec n i)|].
  - subst. eexists. split; [reflexivity|]. cbn. auto.
  - exists s. auto.
  - exists s. auto.
Qed.

Lemma raw_loop_step w i f rest s s0 :
  (match raw_cancel w with
   | Some n => if Nat.eqb n i then modify_self cancel else ret tt
   | None => ret tt
   end) s = (Ok tt, s0) ->
  raw_loop w i (f :: rest) s
  = if negb (running (self s0)) then (Ok tt, s0)
    else match process_raw w f s0 with
         | (Ok true, s1) =>
             raw_loop w (S i) rest
               (mkState (set_processed_files (processed_files (self s1) + 1) (self s1))
                        (disk s1))
         | (Ok false, s1) => raw_loop w (S i) rest s1
         | (Raise e, s1) => (Raise e, s1)
         end.
Proof.
  intros H. cbn [raw_loop]. unfold bind at 1. rewrite H.
  unfold bind at 1. cbn [get_self].
  destruct (negb (running (self s0))); [reflexivity|].
  unfold bind at 1.
  destruct (process_raw w f s0) as [[[] | e] s1]; reflexivity.
Qed.

(** The RAW loop never raises; the counter grows by the number of files
    written, the error log by the number of failures, and together they
    account for every file when the loop was not cancelled. *)
Lemma raw_loop_accounting w files :
  forall i s,
    fst (raw_loop w i files s) = Ok tt /\
    exists k j : nat,
      processed_files (self (snd (raw_loop w i files s)))
      = processed_files (self s) + Z.of_nat k /\
      List.length (fs_files (disk (snd (raw_loop w i files s))))
      = (k + List.length (fs_files (disk s)))%nat /\
      List.length (error_log (self (snd (raw_loop w i files s))))
      = (j + List.length (error_log (self s)))%nat /\
      (k + j <= List.length files)%nat /\
      (running (self (snd (raw_loop w i files s))) = true ->
       process_raw_enabled (self s) = true ->
       (k + j = List.length files)%nat).
Proof.
  induction files as [| f rest IH]; intros i s.
  - cbn. split; [reflexivity|]. exists 0%nat, 0%nat. cbn. repeat split; lia.
  - destruct (raw_cancel_step w i s) as (s0 & Hc & Hd & Hs).
    rewrite (raw_loop_step w i f rest s s0 Hc).
    assert (Hp : processed_files (self s0) = processed_files (self s))
      by (destruct Hs as [-> | [-> _]]; reflexivity).
    assert (Hl : error_log (self s0) = error_log (self s))
      by (destruct Hs as [-> | [-> _]]; reflexivity).
    assert (He : process_raw_enabled (self s0) = process_raw_enabled (self s))
      by (destruct Hs as [-> | [-> _]]; reflexivity).
    destruct (running (self s0)) eqn:Run; cbn [negb].
    2:{ cbn [fst snd]. split; [reflexivity|]. exists 0%nat, 0%nat.
        rewrite Hp, Hl, Hd. cbn. repeat split; try lia; try congruence. }
    destruct (process_raw_written w f s0)
      as [[En E] | [(En & R & K & size & _ & F) | (En & R & F & e & K)]].
    + rewrite E.
      destruct (IH (S i) s0) as (Hok & k & j & P1 & P2 & P3 & P4 & P5).
      split; [exact Hok|]. exists k, j.
      rewrite P1, P2, P3, Hp, Hl, Hd. cbn [List.length].
      repeat split; try lia. intros _ Hen. congruence.
    + destruct (process_raw w f s0) as [r s1]. cbn [fst snd] in *. subst r.
      set (s2 := mkState (set_processed_files (processed_files (self s1) + 1) (self s1))
                         (disk s1)).
      destruct (IH (S i) s2) as (Hok & k & j & P1 & P2 & P3 & P4 & P5).
      split; [exact Hok|]. exists (S k), j.
      assert (Q1 : processed_files (self s2) = processed_files (self s) + 1)
        by (unfold s2; cbn; congruence).
      assert (Q2 : List.length (fs_files (disk s2))
                   = S (List.length (fs_files (disk s))))
        by (unfold s2; cbn [disk]; rewrite F, Hd; reflexivity).
      assert (Q3 : error_log (self s2) = error_log (self s))
        by (unfold s2; cbn; congruence).
      assert (Q4 : process_raw_enabled (self s2) = process_raw_enabled (self s))
        by (unfold s2; cbn; congruence).
      clearbody s2. rewrite P1, P2, P3, Q1, Q2, Q3.
      split; [lia|]. split; [lia|]. split; [lia|]. split; [cbn [List.length]; lia|].
      intros Hr Hen. rewrite Q4 in P5. specialize (P5 Hr Hen).
      cbn [List.length]. lia.
    + destruct (process_raw w f s0) as [r s1]. cbn [fst snd] in *. subst r.
      destruct (IH (S i) s1) as (Hok & k & j & P1 & P2 & P3 & P4 & P5).
      split; [exact Hok|]. exists k, (S j).
      assert (Q1 : processed_files (self s1) = processed_files (self s))
        by (rewrite K; cbn; congruence).
      assert (Q2 : fs_files (disk s1) = fs_files (disk s)) by congruence.
      assert (Q3 : List.length (error_log (self s1))
                   = S (List.length (error_log (self s))))
        by (rewrite K; cbn [error_log set_error_log];
            rewrite length_app, Hl; cbn [List.length]; lia).
      assert (Q4 : process_raw_enabled (self s1) = process_raw_enabled (self s))
        by (rewrite K; cbn; congruence).
      clear K F. rewrite P1, P2, P3, Q1, Q2, Q3.
      split; [lia|]. split; [lia|]. split; [lia|]. split; [cbn [List.length]; lia|].
      intros Hr Hen. rewrite Q4 in P5. specialize (P5 Hr Hen).
      cbn [List.length]. lia.
Qed.

Lemma process_raw_files_accounting w files s :
  fst (process_raw_files w files s) = Ok tt /\
  exists k j : nat,
    processed_files (self (snd (process_raw_files w files s)))
    = processed_files (self s) + Z.of_nat k /\
    List.length (fs_files (disk (snd (process_raw_files w files s))))
    = (k + List.length (fs_files (disk s)))%nat /\
    List.length (error_log (self (snd (process_raw_files w files s))))
    = (j + List.length (error_log (self s)))%nat /\
    (k + j <= List.length files)%nat /\
    (running (self (snd (process_raw_files w files s))) = true ->
     process_raw_enabled (self s) = true ->
     (k + j = List.length files)%nat).
Proof.
  unfold process_raw_files, bind, get_self.
  destruct (nonempty files) eqn:Ne; cbn [negb orb].
  2:{ cbn. split; [reflexivity|]. exists 0%nat, 0%nat.
      destruct files; [| discriminate]. cbn. repeat split; lia. }
  destruct (running (self s)) eqn:Run; cbn [negb orb].
  2:{ cbn. split; [reflexivity|]. exists 0%nat, 0%nat.
      cbn. repeat split; try lia; try congruence. }
  destruct (process_raw_enabled (self s)) eqn:En; cbn [negb].
  2:{ cbn. split; [reflexivity|]. exists 0%nat, 0%nat.
      cbn. repeat split; try lia; try congruence. }
  destruct (raw_loop_accounting w files 0%nat s) as (Hok & k & j & P).
  split; [exact Hok|]. exists k, j. rewrite En in P. exact P.
Qed.

(** The [try] block of the task wrapper never raises, and accounts for its
    file once. *)
Lemma jpg_task_body_outcome w f s :
  fst (jpg_task_body w f s) = Ok tt /\
  ((processed_files (self (snd (jpg_task_body w f s)))
    = processed_files (self s) + 1 /\
    error_log (self (snd (jpg_task_body w f s))) = error_log (self s) /\
    exists n size,
      (n <= JPG_RETRY_COUNT)%nat /\ decode w f n = Ok size /\
      fs_files (disk (snd (jpg_task_body w f s)))
      = std_output (self s) f size :: fs_files (disk s)) \/
   (processed_files (self (snd (jpg_task_body w f s)))
    = processed_files (self s) /\
    fs_files (disk (snd (jpg_task_body w f s))) = fs_files (disk s) /\
    exists e,
      error_log (self (snd (jpg_task_body w f s)))
      = (error_log (self s) ++ [mkEntry (basename f) e])%list)).
Proof.
  unfold jpg_task_body, bind.
  destruct (process_image_written w f s)
    as [(R & K & n & size & Hn & D & F) | (R & F & e & K)];
    destruct (process_image w f s) as [r s1]; cbn [fst snd] in *; subst r;
    cbn [truthy].
  - cbn. split; [reflexivity|]. left. rewrite K. repeat split.
    exists n, size. auto.
  - cbn. split; [reflexivity|]. right. rewrite K. cbn. repeat split; auto.
    exists e. reflexivity.
Qed.

(** The wrapper runs the block and then [task_done]: its state is the
    block's, its result the block's unless the queue refuses. *)
Lemma jpg_task_wrapper_eq w f n s :
  jpg_task_wrapper w f n s
  = if n <=? 0
    then (Raise "task_done() called too many times", n, snd (jpg_task_body w f s))
    else (Ok tt, n - 1, snd (jpg_task_body w f s)).
Proof.
  unfold jpg_task_wrapper, task_done.
  destruct (jpg_task_body_outcome w f s) as [R _].
  destruct (jpg_task_body w f s) as [r s1]. cbn [fst snd] in *. subst r.
  destruct (n <=? 0); reflexivity.
Qed.

(** ** The counters and the result of run *)

Lemma keeps_write_report w : keeps_self (write_report w).
Proof.
  unfold write_report.
  apply keeps_bind; [apply keeps_get_self | intro p].
  destruct (error_log p); [apply keeps_ret | apply keeps_write_file].
Qed.

Lemma len_nonneg l : 0 <= len l.
Proof. unfold len. lia. Qed.

Lemma nonempty_len l : nonempty l = true -> 0 < len l.
Proof. destruct l; [discriminate|]. intros _. unfold len. cbn [List.length]. lia. Qed.

Lemma jpg_stage_processed w files s :
  processed_files (self s)
  <= processed_files (self (snd (jpg_stage w files s)))
  <= processed_files (self s) + len files.
Proof.
  pose proof (jpg_stage_accounting w files s) as H.
  destruct (jpg_stage w files s) as [[rep | e] s']; cbn [snd].
  - destruct H as (Hperm & Hcount & _ & _).
    pose proof (count_ok_nonneg (counted rep)).
    pose proof (count_ok_le_length (counted rep)).
    pose proof (Permutation_length Hperm) as Hlen.
    rewrite !length_app, length_map in Hlen. unfold len. lia.
  - destruct H as [_ ->]. pose proof (len_nonneg files). lia.
Qed.

Lemma jpg_stage_returns w files s :
  0 < jpg_threads (self s) -> nonempty files = true ->
  exists rep, fst (jpg_stage w files s) = Ok rep.
Proof.
  intros Ht Hne. apply nonempty_len in Hne.
  pose proof (jpg_stage_accounting w files s) as H.
  destruct (jpg_stage w files s) as [[rep | e] s']; cbn [fst].
  - now exists rep.
  - destruct H as [H _]. lia.
Qed.

(** The two stages and the report: [total_files] is not written, and the
    counter of processed files grows by at most the length of the two work
    lists. *)
Lemma run_stages_counters w p1 imgs raws s :
  total_files (self (snd (run_stages w p1 imgs raws s))) = total_files (self s) /\
  processed_files (self s)
  <= processed_files (self (snd (run_stages w p1 imgs raws s)))
  <= processed_files (self s) + len imgs + len raws.
Proof.
  split.
  { apply (field_run_stages total_files); reflexivity. }
  pose proof (len_nonneg imgs) as Li. pose proof (len_nonneg raws) as Lr.
  remember (run_stages w p1 imgs raws s) as r eqn:Hr.
  unfold run_stages in Hr. unfold bind at 1 in Hr.
  set (stage1 := if (nonempty imgs && running p1)%bool
                 then jpg_stage w imgs ;; ret tt else ret tt) in Hr.
  assert (H1 : processed_files (self s)
               <= processed_files (self (snd (stage1 s)))
               <= processed_files (self s) + len imgs).
  { unfold stage1. destruct (nonempty imgs && running p1)%bool; [| cbn; lia].
    unfold bind. pose proof (jpg_stage_processed w imgs s) as H.
    destruct (jpg_stage w imgs s) as [[rep | e] s']; exact H. }
  destruct (stage1 s) as [[[] | e] s1]; cbn [snd] in H1; [| subst r; cbn [snd]; lia].
  unfold bind at 1 in Hr. cbn [get_self] in Hr. unfold bind at 1 in Hr.
  set (stage2 := if (nonempty raws && running (self s1)
                     && process_raw_enabled (self s1))%bool
                 then process_raw_files w raws else ret tt) in Hr.
  assert (H2 : processed_files (self s1)
               <= processed_files (self (snd (stage2 s1)))
               <= processed_files (self s1) + len raws).
  { unfold stage2.
    destruct (nonempty raws && running (self s1) && process_raw_enabled (self s1))%bool;
      [| cbn; lia].
    destruct (process_raw_files_accounting w raws s1)
      as (_ & k & j & P1 & _ & _ & P4 & _).
    rewrite P1. unfold len. lia. }
  destruct (stage2 s1) as [[[] | e] s2]; cbn [snd] in H2; [| subst r; cbn [snd]; lia].
  unfold bind at 1 in Hr. cbn [get_self] in Hr.
  destruct (running (self s2)); [| subst r; cbn [snd ret]; lia].
  subst r. rewrite keeps_write_report. lia.
Qed.

(** With a positive number of threads the stages can only fail in writing
    the report: then the error log is not empty, the run was not cancelled,
    and it is the [open] of the report that failed, in the state the stages
    left. When they do not fail, the run was cancelled, or the log is
    empty, or the report could be opened. *)
Lemma run_stages_result w p1 imgs raws s :
  0 < jpg_threads (self s) ->
  (fst (run_stages w p1 imgs raws s) = Ok tt /\
   (running (self (snd (run_stages w p1 imgs raws s))) = false \/
    error_log (self (snd (run_stages w p1 imgs raws s))) = [] \/
    fst (open_for_writing w
           (report_path (self (snd (run_stages w p1 imgs raws s))))
           (snd (run_stages w p1 imgs raws s))) = Ok tt)) \/
  (exists e,
     fst (run_stages w p1 imgs raws s) = Raise e /\
     running (self (snd (run_stages w p1 imgs raws s))) = true /\
     error_log (self (snd (run_stages w p1 imgs raws s))) <> [] /\
     open_for_writing w (report_path (self (snd (run_stages w p1 imgs raws s))))
       (snd (run_stages w p1 imgs raws s))
     = (Raise e, snd (run_stages w p1 imgs raws s))).
Proof.
  intros Ht. remember (run_stages w p1 imgs raws s) as r eqn:Hr.
  unfold run_stages in Hr. unfold bind at 1 in Hr.
  set (stage1 := if (nonempty imgs && running p1)%bool
                 then jpg_stage w imgs ;; ret tt else ret tt) in Hr.
  assert (H1 : fst (stage1 s) = Ok tt).
  { unfold stage1. destruct (nonempty imgs) eqn:Ne; cbn [andb]; [| reflexivity].
    destruct (running p1); [| reflexivity].
    unfold bind. destruct (jpg_stage_returns w imgs s Ht Ne) as (rep & H).
    destruct (jpg_stage w imgs s) as [r0 s']. cbn [fst] in H. subst r0. reflexivity. }
  destruct (stage1 s) as [r1 s1]. cbn [fst] in H1. subst r1.
  unfold bind at 1 in Hr. cbn [get_self] in Hr. unfold bind at 1 in Hr.
  set (stage2 := if (nonempty raws && running (self s1)
                     && process_raw_enabled (self s1))%bool
                 then process_raw_files w raws else ret tt) in Hr.
  assert (H2 : fst (stage2 s1) = Ok tt).
  { unfold stage2.
    destruct (nonempty raws && running (self s1) && process_raw_enabled (self s1))%bool;
      [| reflexivity].
    apply process_raw_files_accounting. }
  destruct (stage2 s1) as [r2 s2]. cbn [fst] in H2. subst r2.
  unfold bind at 1 in Hr. cbn [get_self] in Hr.
  destruct (running (self s2)) eqn:Hrun; subst r.
  2:{ left. split; [reflexivity|]. left. exact Hrun. }
  pose proof (keeps_write_report w s2) as K.
  unfold write_report, bind, get_self in *.
  destruct (error_log (self s2)) as [| e0 l] eqn:E.
  { left. split; [reflexivity|]. right. left. exact E. }
  fold (report_path (self s2)) in *.
  destruct (fst (write_file w (report_path (self s2)) (Report (e0 :: l)) s2))
    as [[] | e] eqn:W.
  - left. split; [reflexivity|]. right. right.
    rewrite K. now apply write_file_success.
  - right. exists e. apply write_file_failure in W as [W O]. rewrite W.
    cbn [fst snd]. rewrite E. repeat split; try assumption. discriminate.
Qed.

Lemma before_scan_fields w s :
  config_of (before_scan w s) = config_of (self s) /\
  processed_files (before_scan w s) = processed_files (self s) /\
  total_files (before_scan w s) = total_files (self s) /\
  error_log (before_scan w s) = error_log (self s) /\
  skip_files (before_scan w s) = skip_files (self s).
Proof.
  unfold before_scan.
  destruct (process_raw_enabled (self s) && negb (rawpy_available w))%bool;
    repeat split.
Qed.

Lemma after_scan_processed w s :
  processed_files (self (after_scan w s)) = processed_files (self s).
Proof.
  unfold after_scan. cbn [self].
  destruct (before_scan_fields w s) as (_ & <- & _).
  destruct (scan_and_group_files_field processed_files
              ltac:(reflexivity) ltac:(reflexivity) ltac:(reflexivity)
              w (before_scan w s)) as [[_ H] | (p'' & H & E)].
  - exact H.
  - rewrite E. exact H.
Qed.

Lemma after_scan_total w s :
  0 <= total_files (self s) -> 0 <= total_files (self (after_scan w s)).
Proof.
  intros H0. unfold after_scan. cbn [self].
  destruct (before_scan_fields w s) as (_ & _ & Ht & _).
  destruct (scan_and_group_files_field total_files
              ltac:(reflexivity) ltac:(reflexivity) ltac:(reflexivity)
              w (before_scan w s)) as [[_ H] | (p'' & H & E)].
  - rewrite H, Ht. exact H0.
  - rewrite E. cbn [total_files set_total_files].
    pose proof (len_nonneg (fst (fst (scan_and_group_files w (before_scan w s))))).
    pose proof (len_nonneg (snd (fst (scan_and_group_files w (before_scan w s))))).
    lia.
Qed.

Lemma after_scan_config w s :
  config_of (self (after_scan w s)) = config_of (self s).
Proof.
  unfold after_scan. cbn [self]. rewrite scan_and_group_files_config.
  apply before_scan_fields.
Qed.

(** From fresh counters, a run ends with
    [0 <= processed_files <= total_files]. *)
Lemma run_progress w s :
  processed_files (self s) = 0 -> 0 <= total_files (self s) ->
  0 <= processed_files (self (snd (run w s))) <= total_files (self (snd (run w s))).
Proof.
  intros Hp Ht. rewrite run_eq.
  pose proof (after_scan_processed w s) as P. rewrite Hp in P.
  pose proof (after_scan_total w s Ht) as T.
  destruct (negb (running (self (after_scan w s)))); cbn [snd]; [lia|].
  match goal with |- context [run_stages w ?p ?i ?r ?s2] =>
    destruct (run_stages_counters w p i r s2) as (Q1 & Q2) end.
  rewrite Q1. cbn [self total_files processed_files set_total_files] in *. lia.
Qed.

Lemma run_result w s :
  0 < jpg_threads (self s) ->
  (fst (run w s) = Ok tt /\
   (running (self (snd (run w s))) = false \/
    error_log (self (snd (run w s))) = [] \/
    fst (open_for_writing w (report_path (self (snd (run w s)))) (snd (run w s)))
    = Ok tt)) \/
  (exists e,
     fst (run w s) = Raise e /\
     running (self (snd (run w s))) = true /\
     error_log (self (snd (run w s))) <> [] /\
     open_for_writing w (report_path (self (snd (run w s)))) (snd (run w s))
     = (Raise e, snd (run w s))).
Proof.
  intros Ht. rewrite run_eq.
  destruct (negb (running (self (after_scan w s)))) eqn:R.
  { left. split; [reflexivity|]. left. cbn [snd].
    now apply negb_true_iff in R. }
  apply run_stages_result. cbn [self].
  pose proof (after_scan_config w s) as C. unfold config_of in C.
  inversion C. cbn. congruence.
Qed.

(** ** A scan that is cancelled *)

Lemma scan_dirs_cancelled n dirs :
  forall idx gp,
    (idx <= n < idx + List.length dirs)%nat ->
    fst (scan_dirs (Some n) idx dirs gp) = None /\
    running (snd (scan_dirs (Some n) idx dirs gp)) = false.
Proof.
  induction dirs as [| [root files] rest IH]; intros idx gp Hn; cbn [List.length] in Hn.
  - lia.
  - cbn [scan_dirs].
    destruct (Nat.eqb_spec n idx) as [-> | Hne].
    + cbn. split; reflexivity.
    + destruct (running (snd gp)) eqn:Run; cbn [negb fst snd].
      * apply IH. lia.
      * split; [reflexivity | exact Run].
Qed.

Lemma scan_cancelled w p n :
  scan_cancel w = Some n -> (n < List.length (walk w))%nat ->
  fst (scan_and_group_files w p) = ([], []) /\
  running (snd (scan_and_group_files w p)) = false /\
  total_files (snd (scan_and_group_files w p)) = total_files p /\
  processed_files (snd (scan_and_group_files w p)) = processed_files p /\
  error_log (snd (scan_and_group_files w p)) = error_log p /\
  skip_files (snd (scan_and_group_files w p)) = skip_files p.
Proof.
  intros Hc Hn. unfold scan_and_group_files. rewrite Hc.
  destruct (scan_dirs_cancelled n (walk w) 0%nat ([], p) ltac:(lia)) as [H1 H2].
  pose proof (scan_dirs_field total_files ltac:(reflexivity) ltac:(reflexivity)
                (Some n) 0%nat (walk w) ([], p)) as F1.
  pose proof (scan_dirs_field processed_files ltac:(reflexivity) ltac:(reflexivity)
                (Some n) 0%nat (walk w) ([], p)) as F2.
  pose proof (scan_dirs_field error_log ltac:(reflexivity) ltac:(reflexivity)
                (Some n) 0%nat (walk w) ([], p)) as F3.
  pose proof (scan_dirs_field skip_files ltac:(reflexivity) ltac:(reflexivity)
                (Some n) 0%nat (walk w) ([], p)) as F4.
  destruct (scan_dirs (Some n) 0 (walk w) ([], p)) as [[groups |] p'];
    cbn [fst snd] in *; [discriminate|].
  repeat split; assumption.
Qed.

Lemma run_cancelled_in_scan w s n :
  scan_cancel w = Some n -> (n < List.length (walk w))%nat ->
  fst (run w s) = Ok tt /\
  disk (snd (run w s)) = disk s /\
  running (self (snd (run w s))) = false /\
  total_files (self (snd (run w s))) = total_files (self s) /\
  processed_files (self (snd (run w s))) = processed_files (self s) /\
  error_log (self (snd (run w s))) = error_log (self s) /\
  skip_files (self (snd (run w s))) = skip_files (self s).
Proof.
  intros Hc Hn. rewrite run_eq. unfold after_scan. cbn [self].
  destruct (scan_cancelled w (before_scan w s) n Hc Hn)
    as (_ & R & T & P & E & K).
  destruct (before_scan_fields w s) as (_ & P0 & T0 & E0 & K0).
  rewrite R. cbn. repeat split; congruence.
Qed.

(** A cancellation that arrives anywhere in the walk leaves [running] false
    at its end. *)
Lemma scan_dirs_cancel_seen n dirs :
  forall idx gp,
    (idx <= n <= idx + List.length dirs)%nat ->
    running (snd (scan_dirs (Some n) idx dirs gp)) = false.
Proof.
  induction dirs as [| [root files] rest IH]; intros idx gp Hn;
    cbn [List.length] in Hn; cbn [scan_dirs].
  - replace n with idx by lia. rewrite Nat.eqb_refl. reflexivity.
  - destruct (Nat.eqb_spec n idx) as [-> | Hne].
    + cbn. reflexivity.
    + destruct (running (snd gp)) eqn:Run; cbn [negb fst snd].
      * apply IH. lia.
      * exact Run.
Qed.

(** When no test of [running] sees the cancellation, the walk is the walk
    without cancellation, and [running] is cleared at its end. *)
Lemma scan_dirs_cancel_unseen dirs :
  forall n idx gp,
    n = (idx + List.length dirs)%nat ->
    scan_dirs (Some n) idx dirs gp
    = match scan_dirs None idx dirs gp with
      | (Some groups, p) => (Some groups, cancel p)
      | (None, p) => (None, p)
      end.
Proof.
  induction dirs as [| [root files] rest IH]; intros n idx gp Hn;
    cbn [List.length] in Hn; cbn [scan_dirs].
  - replace n with idx by lia. rewrite Nat.eqb_refl. reflexivity.
  - destruct (Nat.eqb_spec n idx) as [E | Hne]; [lia|].
    destruct (negb (running (snd gp))); [reflexivity|].
    apply IH. lia.
Qed.

Lemma select_group_cancel g imgs raws p :
  select_group g (imgs, raws, cancel p)
  = (fst (fst (select_group g (imgs, raws, p))),
     snd (fst (select_group g (imgs, raws, p))),
     cancel (snd (select_group g (imgs, raws, p)))).
Proof.
  unfold select_group.
  destruct (slot (image g)); destruct (slot (raw g)); cbn [process_raw_enabled cancel set_running];
    destruct (process_raw_enabled p); reflexivity.
Qed.

Lemma select_groups_cancel groups p :
  select_groups groups (cancel p)
  = (fst (fst (select_groups groups p)), snd (fst (select_groups groups p)),
     cancel (snd (select_groups groups p))).
Proof.
  unfold select_groups.
  assert (H : forall imgs raws q,
    fold_left (fun acc kv => select_group (snd kv) acc) groups (imgs, raws, cancel q)
    = (fst (fst (fold_left (fun acc kv => select_group (snd kv) acc) groups (imgs, raws, q))),
       snd (fst (fold_left (fun acc kv => select_group (snd kv) acc) groups (imgs, raws, q))),
       cancel (snd (fold_left (fun acc kv => select_group (snd kv) acc) groups (imgs, raws, q))))).
  { induction groups as [| kv rest IH]; intros imgs raws q; cbn [fold_left].
    - reflexivity.
    - rewrite select_group_cancel.
      destruct (select_group (snd kv) (imgs, raws, q)) as [[i r] q'].
      cbn [fst snd]. apply IH. }
  apply H.
Qed.

Lemma scan_dirs_none cancel_at dirs :
  forall idx gp,
    fst (scan_dirs cancel_at idx dirs gp) = None ->
    running (snd (scan_dirs cancel_at idx dirs gp)) = false.
Proof.
  induction dirs as [| [root files] rest IH]; intros idx gp; cbn [scan_dirs].
  - cbn [fst]. discriminate.
  - match goal with |- context [negb (running ?q)] =>
      destruct (running q) eqn:Run end; cbn [negb fst snd].
    + apply IH.
    + intros _. exact Run.
Qed.

Lemma cancel_not_running p : running p = false -> cancel p = p.
Proof. destruct p. cbn. intros ->. reflexivity. Qed.

(** A cancellation that no test of the walk sees lets the scan finish: it
    returns what the undisturbed scan returns, with [running] false. *)
Lemma scan_cancel_unseen w p :
  scan_cancel w = Some (List.length (walk w)) ->
  scan_and_group_files w p
  = (fst (scan_and_group_files (without_scan_cancel w) p),
     cancel (snd (scan_and_group_files (without_scan_cancel w) p))).
Proof.
  intros Hc. unfold scan_and_group_files, without_scan_cancel.
  cbn [scan_cancel walk]. rewrite Hc.
  rewrite (scan_dirs_cancel_unseen (walk w) (List.length (walk w)) 0%nat
             ([], p) eq_refl).
  pose proof (scan_dirs_none None (walk w) 0%nat ([], p)) as N.
  destruct (scan_dirs None 0 (walk w) ([], p)) as [[groups |] p'].
  - rewrite select_groups_cancel.
    destruct (select_groups groups p') as [[i r] q]. reflexivity.
  - cbn [fst snd] in *. now rewrite cancel_not_running by auto.
Qed.

(** The attributes that neither the scan nor a cancellation writes. *)
Lemma scan_keeps {B : Type} (proj : processor -> B) w p :
  (forall n q, proj (set_skipped_system_files n q) = proj q) ->
  (forall n q, proj (set_skip_files n q) = proj q) ->
  (forall b q, proj (set_running b q) = proj q) ->
  (forall n q, proj (set_total_files n q) = proj q) ->
  proj (snd (scan_and_group_files w p)) = proj p.
Proof.
  intros H1 H2 H3 H4.
  destruct (scan_and_group_files_field proj H1 H2 H3 w p)
    as [[_ H] | (p'' & H & E)]; [exact H|].
  rewrite E, H4. exact H.
Qed.

Lemma select_groups_running groups p :
  running (snd (select_groups groups p)) = running p.
Proof.
  unfold select_groups.
  assert (H : forall acc,
    running (snd (fold_left (fun acc kv => select_group (snd kv) acc) groups acc))
    = running (snd acc)).
  { induction groups as [| kv rest IH]; intros acc; cbn [fold_left].
    - reflexivity.
    - rewrite IH. destruct acc as [[imgs raws] q]. unfold select_group.
      destruct (slot (image (snd kv))); destruct (slot (raw (snd kv)));
        destruct (process_raw_enabled q); reflexivity. }
  apply (H ([], [], p)).
Qed.

Lemma scan_cancel_seen w p n :
  scan_cancel w = Some n -> (n <= List.length (walk w))%nat ->
  running (snd (scan_and_group_files w p)) = false.
Proof.
  intros Hc Hn. unfold scan_and_group_files. rewrite Hc.
  pose proof (scan_dirs_cancel_seen n (walk w) 0%nat ([], p) ltac:(lia)) as R.
  destruct (scan_dirs (Some n) 0 (walk w) ([], p)) as [[groups |] p'];
    cbn [snd] in R; [| exact R].
  pose proof (select_groups_running groups p') as G.
  destruct (select_groups groups p') as [[i r] q]. cbn [snd] in *.
  cbn. congruence.
Qed.

(** A run whose scan is cancelled: it returns normally, with [running]
    false; the disk, the counter of processed files and the error log are
    as before. When a test of [running] in the walk saw the cancellation the
    other counters are as before too; otherwise the scan has finished and
    the processor is the one of the finished scan, with [running] false. *)
Lemma run_cancel_in_scan w s n :
  scan_cancel w = Some n -> (n <= List.length (walk w))%nat ->
  fst (run w s) = Ok tt /\
  disk (snd (run w s)) = disk s /\
  running (self (snd (run w s))) = false /\
  processed_files (self (snd (run w s))) = processed_files (self s) /\
  error_log (self (snd (run w s))) = error_log (self s) /\
  if (n <? List.length (walk w))%nat
  then total_files (self (snd (run w s))) = total_files (self s) /\
       skip_files (self (snd (run w s))) = skip_files (self s)
  else self (snd (run w s))
       = cancel (snd (scan_and_group_files (without_scan_cancel w)
                        (before_scan w s))).
Proof.
  intros Hc Hn. rewrite run_eq.
  pose proof (scan_cancel_seen w (before_scan w s) n Hc Hn) as R.
  unfold after_scan. cbn [self disk]. rewrite R. cbn [negb fst snd self disk].
  destruct (before_scan_fields w s) as (_ & P0 & T0 & E0 & K0).
  split; [reflexivity|]. split; [reflexivity|]. split; [exact R|].
  split; [rewrite <- P0; now apply (scan_keeps processed_files)|].
  split; [rewrite <- E0; now apply (scan_keeps error_log)|].
  destruct (Nat.ltb_spec n (List.length (walk w))) as [Hlt | Hge].
  - destruct (scan_cancelled w (before_scan w s) n Hc Hlt)
      as (_ & _ & T & _ & _ & K).
    split; congruence.
  - assert (n = List.length (walk w)) by lia. subst n.
    now rewrite (scan_cancel_unseen w _ Hc).
Qed.

(** ** The worker adjuster *)

(** Sampling the CPU never raises: a failed sample is logged once and
    replaced by 50. *)
Lemma get_current_cpu_usage_spec sample s :
  get_current_cpu_usage sample s
  = match sample with
    | Ok c => (Ok c, s)
    | Raise e =>
        (Ok (mkFloat 50 0),
         mkState (set_error_log
                    (error_log (self s)
                     ++ [mkEntry "CPU监测" ("获取CPU占用失败：" ++ e)])%list
                    (self s))
                 (disk s))
    end.
Proof. destruct sample; reflexivity. Qed.

Lemma set_workers_ok new_workers t st :
  0 < new_workers ->
  set_workers new_workers t st
  = (Ok tt,
     mkAdj (mkAdjuster (max_jpg_threads (attrs st)) (min_jpg_threads (attrs st))
              (cpu_high_threshold (attrs st)) (cpu_low_threshold (attrs st))
              (cpu_check_interval (attrs st)) new_workers t)
           (Some (mkPool new_workers (task_queue st) false))
           (match executor st with
            | Some e => shut e :: replaced st
            | None => replaced st
            end)
           [] (unfinished_tasks st) (task_queue st)
           (orphaned st ++ waiting st)%list).
Proof.
  intros H. unfold set_workers.
  destruct (Z.leb_spec new_workers 0); [lia | reflexivity].
Qed.

Lemma set_workers_attrs new_workers t st :
  attrs (snd (set_workers new_workers t st))
  = mkAdjuster (max_jpg_threads (attrs st)) (min_jpg_threads (attrs st))
      (cpu_high_threshold (attrs st)) (cpu_low_threshold (attrs st))
      (cpu_check_interval (attrs st)) new_workers t.
Proof. unfold set_workers. destruct (new_workers <=? 0); reflexivity. Qed.

Lemma all_tasks_set_workers new_workers t st :
  all_tasks (snd (set_workers new_workers t st)) = all_tasks st.
Proof.
  unfold set_workers, all_tasks.
  destruct (new_workers <=? 0); cbn [snd task_queue executor replaced].
  - destruct (executor st); reflexivity.
  - destruct (executor st) as [e |]; cbn [flat_map submitted shut app];
      rewrite ?app_nil_r; reflexivity.
Qed.

(** What an iteration does, case by case. *)
Lemma adjuster_iteration_cases o st s :
  let a := attrs st in
  let s1 := snd (get_current_cpu_usage (cpu_percent o) s) in
  (now o - last_adjust_time a < THREAD_ADJUST_MIN_INTERVAL * 1000000 /\
   adjuster_iteration o st s = (Ok tt, st, s)) \/
  (THREAD_ADJUST_MIN_INTERVAL * 1000000 <= now o - last_adjust_time a /\
   ((py_gt_int (sampled_load o) (cpu_high_threshold a) = true /\
     min_jpg_threads a < current_jpg_workers a /\
     adjuster_iteration o st s
     = (fst (set_workers (Z.max (current_jpg_workers a - 2) (min_jpg_threads a))
                         (now o) st),
        snd (set_workers (Z.max (current_jpg_workers a - 2) (min_jpg_threads a))
                         (now o) st),
        s1)) \/
    (py_lt_int (sampled_load o) (cpu_low_threshold a) = true /\
     current_jpg_workers a < max_jpg_threads a /\
     adjuster_iteration o st s
     = (fst (set_workers (Z.min (current_jpg_workers a + 2) (max_jpg_threads a))
                         (now o) st),
        snd (set_workers (Z.min (current_jpg_workers a + 2) (max_jpg_threads a))
                         (now o) st),
        s1)) \/
    adjuster_iteration o st s = (Ok tt, st, s1))).
Proof.
  intros a s1. unfold adjuster_iteration. fold a.
  destruct (Z.ltb_spec (now o - last_adjust_time a)
                       (THREAD_ADJUST_MIN_INTERVAL * 1000000)) as [Hlt | Hge].
  { left. now split. }
  right. split; [exact Hge|].
  subst s1. rewrite get_current_cpu_usage_spec. unfold sampled_load.
  destruct (cpu_percent o) as [c | e]; cbn [snd].
  - destruct (py_gt_int c (cpu_high_threshold a)) eqn:G; cbn [andb].
    + destruct (Z.gtb_spec (current_jpg_workers a) (min_jpg_threads a)).
      * left. repeat split; [lia|]. now destruct (set_workers _ _ _).
      * destruct (py_lt_int c (cpu_low_threshold a)) eqn:L; cbn [andb].
        -- destruct (Z.ltb_spec (current_jpg_workers a) (max_jpg_threads a)).
           ++ right. left. repeat split; [lia|]. now destruct (set_workers _ _ _).
           ++ right. right. reflexivity.
        -- right. right. reflexivity.
    + destruct (py_lt_int c (cpu_low_threshold a)) eqn:L; cbn [andb].
      * destruct (Z.ltb_spec (current_jpg_workers a) (max_jpg_threads a)).
        -- right. left. repeat split; [lia|]. now destruct (set_workers _ _ _).
        -- right. right. reflexivity.
      * right. right. reflexivity.
  - destruct (py_gt_int (mkFloat 50 0) (cpu_high_threshold a)) eqn:G; cbn [andb].
    + destruct (Z.gtb_spec (current_jpg_workers a) (min_jpg_threads a)).
      * left. repeat split; [lia|]. now destruct (set_workers _ _ _).
      * destruct (py_lt_int (mkFloat 50 0) (cpu_low_threshold a)) eqn:L; cbn [andb].
        -- destruct (Z.ltb_spec (current_jpg_workers a) (max_jpg_threads a)).
           ++ right. left. repeat split; [lia|]. now destruct (set_workers _ _ _).
           ++ right. right. reflexivity.
        -- right. right. reflexivity.
    + destruct (py_lt_int (mkFloat 50 0) (cpu_low_threshold a)) eqn:L; cbn [andb].
      * destruct (Z.ltb_spec (current_jpg_workers a) (max_jpg_threads a)).
        -- right. left. repeat split; [lia|]. now destruct (set_workers _ _ _).
        -- right. right. reflexivity.
      * right. right. reflexivity.
Qed.

(** Within the bounds an iteration never raises, stays within the bounds and
    neither loses nor duplicates a task; of the shared state it can only
    extend the error log. *)
Lemma adjuster_iteration_bounds o st s initial :
  within_bounds initial (attrs st) ->
  fst (fst (adjuster_iteration o st s)) = Ok tt /\
  within_bounds initial (attrs (snd (fst (adjuster_iteration o st s)))) /\
  all_tasks (snd (fst (adjuster_iteration o st s))) = all_tasks st /\
  disk (snd (adjuster_iteration o st s)) = disk s /\
  running (self (snd (adjuster_iteration o st s))) = running (self s) /\
  config_of (self (snd (adjuster_iteration o st s))) = config_of (self s) /\
  processed_files (self (snd (adjuster_iteration o st s)))
  = processed_files (self s).
Proof.
  intros (Hmax & Hmin & Hhi & Hlo & Hcur).
  assert (Hs1 : disk (snd (get_current_cpu_usage (cpu_percent o) s)) = disk s /\
                running (self (snd (get_current_cpu_usage (cpu_percent o) s)))
                = running (self s) /\
                config_of (self (snd (get_current_cpu_usage (cpu_percent o) s)))
                = config_of (self s) /\
                processed_files (self (snd (get_current_cpu_usage (cpu_percent o) s)))
                = processed_files (self s)).
  { rewrite get_current_cpu_usage_spec.
    destruct (cpu_percent o); repeat split; reflexivity. }
  destruct (adjuster_iteration_cases o st s)
    as [[_ E] | [_ [(_ & Hc & E) | [(_ & Hc & E) | E]]]]; rewrite E; cbn [fst snd].
  - repeat split; auto; lia.
  - rewrite set_workers_ok by lia. cbn [fst snd attrs].
    split; [reflexivity|]. split.
    + unfold within_bounds. cbn. repeat split; auto; lia.
    + split; [| exact Hs1].
      rewrite <- (all_tasks_set_workers
        (Z.max (current_jpg_workers (attrs st) - 2) (min_jpg_threads (attrs st)))
        (now o) st).
      now rewrite set_workers_ok by lia.
  - rewrite set_workers_ok by lia. cbn [fst snd attrs].
    split; [reflexivity|]. split.
    + unfold within_bounds. cbn. repeat split; auto; lia.
    + split; [| exact Hs1].
      rewrite <- (all_tasks_set_workers
        (Z.min (current_jpg_workers (attrs st) + 2) (max_jpg_threads (attrs st)))
        (now o) st).
      now rewrite set_workers_ok by lia.
  - repeat split; auto; try lia; apply Hs1.
Qed.

(** ** The worker threads *)

Lemma frames_jpg_task_body w f : frames (jpg_task_body w f).
Proof.
  unfold jpg_task_body. apply frames_bind; [apply frames_process_image | intro ok].
  destruct (truthy ok); [| apply frames_ret].
  intros s. reflexivity.
Qed.

(** A task leaves the configuration alone, only adds outputs to the disk,
    and counts at most one file. *)
Lemma jpg_task_wrapper_step w p f n s :
  config_of (self s) = config_of p ->
  config_of (self (snd (jpg_task_wrapper w f n s))) = config_of p /\
  adds w p s (snd (jpg_task_wrapper w f n s)) /\
  processed_files (self s)
  <= processed_files (self (snd (jpg_task_wrapper w f n s))).
Proof.
  intros Hc. rewrite jpg_task_wrapper_eq.
  assert (H : config_of (self (snd (jpg_task_body w f s))) = config_of p /\
              adds w p s (snd (jpg_task_body w f s)) /\
              processed_files (self s)
              <= processed_files (self (snd (jpg_task_body w f s)))).
  { split; [rewrite frames_jpg_task_body; exact Hc|].
    split; [now apply only_adds_jpg_task_body|].
    destruct (jpg_task_body_outcome w f s) as [_ [(P & _) | (P & _)]]; lia. }
  destruct (n <=? 0); exact H.
Qed.

Lemma run_tasks_step w p is_done tasks :
  forall n s,
    config_of (self s) = config_of p ->
    config_of (self (snd (run_tasks w is_done tasks n s))) = config_of p /\
    adds w p s (snd (run_tasks w is_done tasks n s)) /\
    processed_files (self s)
    <= processed_files (self (snd (run_tasks w is_done tasks n s))) /\
    fst (fst (run_tasks w is_done tasks n s))
    = filter (fun f => negb (is_done f)) tasks.
Proof.
  induction tasks as [| f rest IH]; intros n s Hc; cbn [run_tasks filter].
  - cbn [fst snd]. split; [exact Hc|]. split; [apply adds_refl|].
    split; [lia | reflexivity].
  - destruct (is_done f); cbn [negb].
    + destruct (jpg_task_wrapper_step w p f n s Hc) as (C1 & A1 & P1).
      destruct (jpg_task_wrapper w f n s) as [[r n1] s1]. cbn [snd] in *.
      destruct (IH n1 s1 C1) as (C2 & A2 & P2 & F2).
      split; [exact C2|]. split; [eapply adds_trans; eassumption|].
      split; [lia | exact F2].
    + destruct (IH n s Hc) as (C2 & A2 & P2 & F2).
      destruct (run_tasks w is_done rest n s) as [[l n1] s1]. cbn [fst snd] in *.
      split; [exact C2|]. split; [exact A2|]. split; [exact P2|].
      now subst l.
Qed.

Lemma workers_progress_step w p is_done st s :
  config_of (self s) = config_of p ->
  config_of (self (snd (workers_progress w is_done st s))) = config_of p /\
  adds w p s (snd (workers_progress w is_done st s)) /\
  processed_files (self s)
  <= processed_files (self (snd (workers_progress w is_done st s))) /\
  attrs (fst (workers_progress w is_done st s)) = attrs st /\
  executor (fst (workers_progress w is_done st s)) = executor st /\
  replaced (fst (workers_progress w is_done st s)) = replaced st /\
  task_queue (fst (workers_progress w is_done st s)) = task_queue st.
Proof.
  intros Hc. unfold workers_progress.
  destruct (run_tasks_step w p is_done (orphaned st) (unfinished_tasks st) s Hc)
    as (C1 & A1 & P1 & _).
  destruct (run_tasks w is_done (orphaned st) (unfinished_tasks st) s)
    as [[o1 n1] s1]. cbn [snd] in *.
  destruct (run_tasks_step w p is_done (waiting st) n1 s1 C1)
    as (C2 & A2 & P2 & _).
  destruct (run_tasks w is_done (waiting st) n1 s1) as [[w2 n2] s2].
  cbn [fst snd attrs executor replaced task_queue] in *.
  split; [exact C2|]. split; [eapply adds_trans; eassumption|].
  split; [lia|]. repeat split.
Qed.

Lemma shutdown_wait_step w p st s :
  config_of (self s) = config_of p ->
  config_of (self (snd (shutdown_wait w st s))) = config_of p /\
  adds w p s (snd (shutdown_wait w st s)) /\
  processed_files (self s)
  <= processed_files (self (snd (shutdown_wait w st s))) /\
  attrs (fst (shutdown_wait w st s)) = attrs st /\
  all_tasks (fst (shutdown_wait w st s)) = all_tasks st /\
  (executor (fst (shutdown_wait w st s)) <> None ->
   waiting (fst (shutdown_wait w st s)) = []).
Proof.
  intros Hc. unfold shutdown_wait. destruct (executor st) as [e |] eqn:E.
  - destruct (run_tasks_step w p (fun _ => true) (waiting st)
                (unfinished_tasks st) s Hc) as (C1 & A1 & P1 & _).
    destruct (run_tasks w (fun _ => true) (waiting st) (unfinished_tasks st) s)
      as [[l n1] s1]. cbn [fst snd attrs waiting] in *.
    split; [exact C1|]. split; [exact A1|]. split; [exact P1|].
    split; [reflexivity|]. split; [| reflexivity].
    unfold all_tasks. cbn [task_queue executor replaced shut submitted].
    now rewrite E.
  - cbn [fst snd]. split; [exact Hc|]. split; [apply adds_refl|].
    split; [lia|]. split; [reflexivity|]. split; [reflexivity|].
    intros H. rewrite E in H. congruence.
Qed.

(** The whole method, for as many iterations as there are observations. *)
Lemma jpg_worker_adjuster_bounds w p initial obs :
  forall st s,
    within_bounds initial (attrs st) ->
    config_of (self s) = config_of p ->
    (forall msg, fst (fst (jpg_worker_adjuster w obs st s)) <> Raised msg) /\
    within_bounds initial (attrs (snd (fst (jpg_worker_adjuster w obs st s)))) /\
    all_tasks (snd (fst (jpg_worker_adjuster w obs st s))) = all_tasks st /\
    adds w p s (snd (jpg_worker_adjuster w obs st s)) /\
    processed_files (self s)
    <= processed_files (self (snd (jpg_worker_adjuster w obs st s))) /\
    (fst (fst (jpg_worker_adjuster w obs st s)) = Returned ->
     executor (snd (fst (jpg_worker_adjuster w obs st s))) <> None ->
     waiting (snd (fst (jpg_worker_adjuster w obs st s))) = []).
Proof.
  induction obs as [| o rest IH]; intros st s Hb Hc; cbn [jpg_worker_adjuster].
  - cbn [fst snd]. split; [intros msg; discriminate|].
    split; [exact Hb|]. split; [reflexivity|]. split; [apply adds_refl|].
    split; [lia | discriminate].
  - destruct (workers_progress_step w p (finished o) st s Hc)
      as (C1 & A1 & P1 & W1 & W2 & W3 & W4).
    destruct (workers_progress w (finished o) st s) as [st1 s1].
    cbn [fst snd] in *.
    assert (T1 : all_tasks st1 = all_tasks st)
      by (unfold all_tasks; now rewrite W2, W3, W4).
    assert (Hb1 : within_bounds initial (attrs st1)) by now rewrite W1.
    set (s0 := if cancel_before o then mkState (cancel (self s1)) (disk s1) else s1).
    assert (Hs0 : disk s0 = disk s1 /\ config_of (self s0) = config_of p /\
                  processed_files (self s0) = processed_files (self s1)).
    { unfold s0. destruct (cancel_before o); repeat split; assumption. }
    destruct Hs0 as (Hd0 & Hc0 & Hp0).
    assert (A0 : adds w p s s0).
    { eapply adds_trans; [exact A1 | now apply adds_same_disk]. }
    destruct (running (self s0)
              && (nonempty (task_queue st1)
                  || match executor st1 with
                     | Some _ => 0 <? work_queue_size o
                     | None => false
                     end))%bool.
    + destruct (adjuster_iteration_bounds o st1 s0 initial Hb1)
        as (R & B & T & D & _ & C & P).
      destruct (adjuster_iteration o st1 s0) as [[r st'] s']. cbn [fst snd] in *.
      subst r.
      destruct (IH st' s' B ltac:(congruence)) as (I1 & I2 & I3 & I4 & I5 & I6).
      split; [exact I1|]. split; [exact I2|]. split; [congruence|].
      split; [| split; [lia | exact I6]].
      eapply adds_trans; [exact A0|].
      eapply adds_trans; [apply adds_same_disk; exact D | exact I4].
    + destruct (shutdown_wait_step w p st1 s0 Hc0) as (C2 & A2 & P2 & W5 & T2 & E2).
      destruct (shutdown_wait w st1 s0) as [st2 s2]. cbn [fst snd] in *.
      split; [intros msg; discriminate|].
      split; [now rewrite W5|]. split; [congruence|].
      split; [eapply adds_trans; eassumption|]. split; [lia|].
      intros _. exact E2.
Qed.

(** ** No task is lost

    Every task that has left the queue and the executors has accounted for
    its file, by the counter or by the error log; the adjuster itself adds
    at most one entry per iteration, for a load that could not be read. *)

Lemma jpg_task_wrapper_account w f n s :
  task_account (snd (jpg_task_wrapper w f n s)) = task_account s + 1.
Proof.
  rewrite jpg_task_wrapper_eq. unfold task_account.
  assert (H : processed_files (self (snd (jpg_task_body w f s)))
              + Z.of_nat (List.length (error_log (self (snd (jpg_task_body w f s)))))
              = processed_files (self s)
                + Z.of_nat (List.length (error_log (self s))) + 1).
  { destruct (jpg_task_body_outcome w f s)
      as [_ [(P & L & _) | (P & _ & e & L)]]; rewrite P, L; [lia|].
    rewrite length_app. cbn [List.length]. lia. }
  destruct (n <=? 0); exact H.
Qed.

Lemma run_tasks_account w is_done tasks :
  forall n s,
    task_account (snd (run_tasks w is_done tasks n s))
    + Z.of_nat (List.length (fst (fst (run_tasks w is_done tasks n s))))
    = task_account s + Z.of_nat (List.length tasks).
Proof.
  induction tasks as [| f rest IH]; intros n s; cbn [run_tasks].
  - cbn [fst snd List.length]. lia.
  - destruct (is_done f).
    + pose proof (jpg_task_wrapper_account w f n s) as A.
      destruct (jpg_task_wrapper w f n s) as [[r n1] s1]. cbn [snd] in A.
      specialize (IH n1 s1). cbn [List.length]. lia.
    + specialize (IH n s).
      destruct (run_tasks w is_done rest n s) as [[l n1] s1].
      cbn [fst snd List.length] in *. lia.
Qed.

Lemma workers_progress_account w is_done st s :
  task_account (snd (workers_progress w is_done st s))
  + pending_count (fst (workers_progress w is_done st s))
  = task_account s + pending_count st.
Proof.
  unfold workers_progress, pending_count.
  pose proof (run_tasks_account w is_done (orphaned st) (unfinished_tasks st) s) as A1.
  destruct (run_tasks w is_done (orphaned st) (unfinished_tasks st) s)
    as [[o1 n1] s1]. cbn [fst snd] in A1.
  pose proof (run_tasks_account w is_done (waiting st) n1 s1) as A2.
  destruct (run_tasks w is_done (waiting st) n1 s1) as [[w2 n2] s2].
  cbn [fst snd task_queue waiting orphaned] in *. lia.
Qed.

Lemma shutdown_wait_account w st s :
  task_account (snd (shutdown_wait w st s))
  + pending_count (fst (shutdown_wait w st s))
  = task_account s + pending_count st.
Proof.
  unfold shutdown_wait, pending_count. destruct (executor st) as [e |].
  - pose proof (run_tasks_account w (fun _ => true) (waiting st)
                  (unfinished_tasks st) s) as A.
    pose proof (run_tasks_step w (self s) (fun _ => true) (waiting st)
                  (unfinished_tasks st) s eq_refl) as (_ & _ & _ & F).
    destruct (run_tasks w (fun _ => true) (waiting st) (unfinished_tasks st) s)
      as [[l n1] s1].
    cbn [fst snd task_queue waiting orphaned List.length] in *.
    assert (Hl : l = []).
    { subst l. clear.
      induction (waiting st) as [| x r IH]; [reflexivity | exact IH]. }
    rewrite Hl in A. cbn [List.length] in *. lia.
  - cbn [fst snd]. reflexivity.
Qed.

Lemma set_workers_pending new_workers t st :
  pending_count (snd (set_workers new_workers t st)) = pending_count st.
Proof.
  unfold set_workers, pending_count.
  destruct (new_workers <=? 0); cbn [snd task_queue waiting orphaned];
    [reflexivity|].
  rewrite length_app. cbn [List.length]. lia.
Qed.

Lemma adjuster_iteration_account o st s :
  pending_count (snd (fst (adjuster_iteration o st s))) = pending_count st /\
  task_account s <= task_account (snd (adjuster_iteration o st s))
  <= task_account s + 1.
Proof.
  assert (Hs1 : task_account s
                <= task_account (snd (get_current_cpu_usage (cpu_percent o) s))
                <= task_account s + 1).
  { rewrite get_current_cpu_usage_spec. unfold task_account.
    destruct (cpu_percent o); cbn [snd self processed_files error_log
      set_error_log]; [lia|].
    rewrite length_app. cbn [List.length]. lia. }
  destruct (adjuster_iteration_cases o st s)
    as [[_ E] | [_ [(_ & _ & E) | [(_ & _ & E) | E]]]]; rewrite E; cbn [fst snd].
  - split; [reflexivity | lia].
  - split; [apply set_workers_pending | exact Hs1].
  - split; [apply set_workers_pending | exact Hs1].
  - split; [reflexivity | exact Hs1].
Qed.

Lemma jpg_worker_adjuster_account w obs :
  forall st s,
    pending_count st
    - pending_count (snd (fst (jpg_worker_adjuster w obs st s)))
    <= task_account (snd (jpg_worker_adjuster w obs st s)) - task_account s
    <= pending_count st
       - pending_count (snd (fst (jpg_worker_adjuster w obs st s)))
       + Z.of_nat (List.length obs).
Proof.
  induction obs as [| o rest IH]; intros st s; cbn [jpg_worker_adjuster].
  - cbn [fst snd List.length]. lia.
  - pose proof (workers_progress_account w (finished o) st s) as A1.
    destruct (workers_progress w (finished o) st s) as [st1 s1].
    cbn [fst snd] in A1.
    set (s0 := if cancel_before o then mkState (cancel (self s1)) (disk s1) else s1).
    assert (H0 : task_account s0 = task_account s1)
      by (unfold s0; now destruct (cancel_before o)).
    destruct (running (self s0)
              && (nonempty (task_queue st1)
                  || match executor st1 with
                     | Some _ => 0 <? work_queue_size o
                     | None => false
                     end))%bool.
    + destruct (adjuster_iteration_account o st1 s0) as (P & T).
      destruct (adjuster_iteration o st1 s0) as [[[[] | e] st'] s'];
        cbn [fst snd] in *.
      * specialize (IH st' s'). cbn [List.length].
        rewrite Nat2Z.inj_succ. lia.
      * cbn [List.length]. rewrite Nat2Z.inj_succ. lia.
    + pose proof (shutdown_wait_account w st1 s0) as A2.
      destruct (shutdown_wait w st1 s0) as [st2 s2]. cbn [fst snd] in *.
      cbn [List.length]. rewrite Nat2Z.inj_succ. lia.
Qed.

(** ** The progress percentage *)

Lemma rne_le_int N D K :
  0 <= N -> 0 < D -> N <= K * D -> rne N D <= K.
Proof.
  intros HN HD H. pose proof (rne_spec N D HN HD) as [_ Hu]. nia.
Qed.

(** Rounding does not cross a small integer: a quotient that is at most [j]
    rounds to a float that is at most [j]. *)
Lemma rnd_le_int n d j :
  0 <= n -> 0 < d -> 0 <= j < 2 ^ 52 -> n <= d * j ->
  (val (rnd n d) <= IZR j)%R.
Proof.
  intros Hn Hd [Hj0 Hj] Hle. unfold rnd.
  destruct (Z.eqb_spec n 0) as [-> | Hn0].
  { unfold val, float_num, float_den. cbn [mant expo].
    rewrite Z.mul_0_l. unfold Rdiv. rewrite Rmult_0_l. now apply IZR_le. }
  assert (Hnpos : 0 < n) by lia.
  pose proof (rnd_expo_norm n d Hnpos Hd) as Hnorm.
  set (e := rnd_expo n d) in *.
  assert (He : e <= 0).
  { destruct (Z_le_gt_dec e 0) as [H | H]; [exact H | exfalso].
    destruct (up2_nonneg_exp e ltac:(lia)) as [E1 E2].
    rewrite E1, E2 in Hnorm.
    pose proof (Z.pow_pos_nonneg 2 e ltac:(lia) ltac:(lia)) as Hpow.
    change (2 ^ 52) with 4503599627370496 in *. nia. }
  destruct (up2_neg_exp e He) as [E1 E2].
  unfold val, float_num, float_den. cbn [mant expo]. rewrite E1, E2.
  rewrite !Z.mul_1_r.
  assert (HP : 0 < 2 ^ (- e)) by (apply Z.pow_pos_nonneg; lia).
  assert (Hm : rne (n * 2 ^ (- e)) d <= j * 2 ^ (- e)).
  { apply rne_le_int; [nia | lia | nia]. }
  apply IZR_le in Hm. rewrite mult_IZR in Hm.
  assert (HPR : (0 < IZR (2 ^ (- e)))%R) by (apply IZR_lt; lia).
  apply (Rmult_le_reg_r (IZR (2 ^ (- e)))); [exact HPR|].
  unfold Rdiv. rewrite Rmult_assoc, Rinv_l by lra. lra.
Qed.

Lemma val_le_num f (j : Z) :
  (val f <= IZR j)%R -> float_num f <= j * float_den f.
Proof.
  intros H. pose proof (float_den_pos f) as Hd.
  assert (HdR : (0 < IZR (float_den f))%R) by (apply IZR_lt; lia).
  apply le_IZR. rewrite mult_IZR. unfold val, Rdiv in H.
  apply (Rmult_le_compat_r (IZR (float_den f))) in H; [| lra].
  rewrite Rmult_assoc, Rinv_l, Rmult_1_r in H by lra. exact H.
Qed.

Lemma val_eq_num f (j : Z) :
  val f = IZR j -> float_num f = j * float_den f.
Proof.
  intros H. pose proof (float_den_pos f) as Hd.
  assert (HdR : (0 < IZR (float_den f))%R) by (apply IZR_lt; lia).
  apply eq_IZR. rewrite mult_IZR. unfold val, Rdiv in H.
  rewrite <- H. rewrite Rmult_assoc, Rinv_l, Rmult_1_r by lra. reflexivity.
Qed.

(** The percentage is 0 for an empty total, lies between 0 and 100 for
    [0 <= processed <= total], and is exactly 100 when all is processed. *)
Lemma update_progress_range processed total :
  0 <= processed <= total ->
  (0 <= val (update_progress processed total) <= 100)%R /\
  (total = 0 -> update_progress processed total = mkFloat 0 0) /\
  (0 < total -> processed = total ->
   val (update_progress processed total) = 100%R).
Proof.
  intros [H0 H1]. unfold update_progress.
  destruct (Z.eqb_spec total 0) as [-> | Hne].
  { split; [| split; [reflexivity | lia]].
    unfold val, float_num, float_den. cbn. lra. }
  assert (Ht : 0 < total) by lia.
  unfold py_truediv, py_mul_int.
  pose proof (rnd_num_nonneg processed total H0 Ht) as Hnum.
  pose proof (float_den_pos (rnd processed total)) as Hden.
  split; [| split; [lia |]].
  - split.
    + apply val_nonneg; lia.
    + apply (rnd_le_int _ _ 100); [lia | lia | lia |].
      pose proof (rnd_le_int processed total 1 H0 Ht ltac:(lia) ltac:(lia)) as Hr.
      apply val_le_num in Hr. lia.
  - intros _ ->.
    pose proof (rnd_exact total 1 Ht ltac:(lia)) as Hr.
    rewrite Z.mul_1_r in Hr. apply val_eq_num in Hr. rewrite Hr.
    replace (100 * (1 * float_den (rnd total total)))
      with (float_den (rnd total total) * 100) by lia.
    apply rnd_exact; [exact Hden | lia].
Qed.

(** ** The work lists against the walk *)

Lemma append_nonempty a b : b <> "" -> (a ++ b)%string <> "".
Proof. destruct a; cbn; [auto | discriminate]. Qed.

Lemma path_join_nonempty a b : b <> "" -> path_join a b <> "".
Proof.
  intros Hb. unfold path_join.
  destruct (startswith b "/"); [exact Hb|].
  destruct (String.eqb a "" || endswith_char a sep)%bool.
  - now apply append_nonempty.
  - apply append_nonempty. now apply append_nonempty.
Qed.

Lemma entry_path_nonempty e : snd e <> "" -> entry_path e <> "".
Proof. intros H. now apply path_join_nonempty. Qed.

Lemma plain_entry_nonempty es e :
  plain_names es -> In e es -> entry_path e <> "".
Proof.
  intros Hp Hin. apply entry_path_nonempty.
  unfold plain_names in Hp. rewrite Forall_forall in Hp. now apply (Hp e Hin).
Qed.

Lemma slot_nonempty x : x <> "" -> slot (Some x) = Some x.
Proof.
  intros H. cbn. destruct (String.eqb_spec x ""); [contradiction | reflexivity].
Qed.

Lemma last_image_exists e es :
  In e es -> is_image_entry e = true ->
  exists i, last_image (entry_key e) es = Some i.
Proof.
  intros Hin He. induction es as [| x es IH] using rev_ind; [contradiction|].
  rewrite last_image_snoc.
  destruct (is_image_entry x && String.eqb (entry_key x) (entry_key e))%bool eqn:C;
    [eauto|].
  apply in_app_or in Hin as [Hin | [-> | []]]; [now apply IH|].
  rewrite He, String.eqb_refl in C. discriminate.
Qed.

Lemma last_raw_exists e es :
  In e es -> is_raw_entry e = true ->
  exists r, last_raw (entry_key e) es = Some r.
Proof.
  intros Hin He. induction es as [| x es IH] using rev_ind; [contradiction|].
  rewrite last_raw_snoc.
  destruct (is_raw_entry x && String.eqb (entry_key x) (entry_key e))%bool eqn:C;
    [eauto|].
  apply in_app_or in Hin as [Hin | [-> | []]]; [now apply IH|].
  rewrite He, String.eqb_refl in C. discriminate.
Qed.

Section Selection.
Variable w : world.
Variable p : processor.
Hypothesis Hcancel : scan_cancel w = None.
Hypothesis Hrun : running p = true.

Let es := entries (walk w).
Let groups := scan_groups w p.

Lemma selection_lists :
  image_files_of w p = images_of groups /\
  raw_files_of w p = raws_of (process_raw_enabled p) groups.
Proof.
  unfold image_files_of, raw_files_of.
  rewrite (scan_and_group_files_eq w p Hcancel Hrun). split; reflexivity.
Qed.

Lemma group_image_origin k g i :
  In (k, g) groups -> image g = Some i ->
  exists e, In e es /\ i = entry_path e /\ is_image_entry e = true
            /\ entry_key e = k.
Proof.
  intros Hin Hi.
  assert (Hnd : NoDup (map fst groups)) by (apply scan_entries_nodup; constructor).
  apply (In_dict_get _ _ _ Hnd) in Hin.
  destruct (scan_entries_get es p k) as (A & _ & _).
  change (fst (scan_entries es ([], p))) with groups in A.
  rewrite Hin in A. cbn [img_of] in A. rewrite Hi in A. symmetry in A.
  exact (last_image_origin _ _ _ A).
Qed.

Lemma group_raw_entry k g r :
  In (k, g) groups -> raw g = Some r ->
  exists e, In e es /\ r = entry_path e /\ is_raw_entry e = true
            /\ entry_key e = k.
Proof.
  intros Hin Hr.
  assert (Hnd : NoDup (map fst groups)) by (apply scan_entries_nodup; constructor).
  apply (In_dict_get _ _ _ Hnd) in Hin.
  destruct (scan_entries_get es p k) as (_ & A & _).
  change (fst (scan_entries es ([], p))) with groups in A.
  rewrite Hin in A. cbn [raw_of] in A. rewrite Hr in A. symmetry in A.
  exact (last_raw_origin _ _ _ A).
Qed.

(** Everything in the work lists comes from the walk, with the right kind
    of extension. *)
Lemma selected_from_walk :
  (forall i, In i (image_files_of w p) ->
     exists e, In e es /\ i = entry_path e /\ is_image_entry e = true) /\
  (forall r, In r (raw_files_of w p) ->
     process_raw_enabled p = true /\
     exists e, In e es /\ r = entry_path e /\ is_raw_entry e = true).
Proof.
  destruct selection_lists as [-> ->]. split.
  - intros i Hi. apply In_images_of in Hi as (k & g & Hin & Hs).
    apply slot_Some in Hs.
    destruct (group_image_origin k g i Hin Hs) as (e & H1 & H2 & H3 & _).
    now exists e.
  - intros r Hr. apply In_raws_of in Hr as (k & g & Hin & _ & Hs & En).
    apply slot_Some in Hs. split; [exact En|].
    destruct (group_raw_entry k g r Hin Hs) as (e & H1 & H2 & H3 & _).
    now exists e.
Qed.

(** No key of the walk is dropped: a standard image is represented by a
    selected image with its key; a RAW file by a selected image or, when RAW
    processing is enabled, a selected RAW file with its key. *)
Lemma walk_represented :
  plain_names es ->
  (forall e, In e es -> is_image_entry e = true ->
     exists e', In e' es /\ is_image_entry e' = true /\
                entry_key e' = entry_key e /\
                In (entry_path e') (image_files_of w p)) /\
  (forall e, In e es -> is_raw_entry e = true ->
     (exists e', In e' es /\ is_image_entry e' = true /\
                 entry_key e' = entry_key e /\
                 In (entry_path e') (image_files_of w p)) \/
     process_raw_enabled p = false \/
     (exists e', In e' es /\ is_raw_entry e' = true /\
                 entry_key e' = entry_key e /\
                 In (entry_path e') (raw_files_of w p))).
Proof.
  intros Hplain. destruct selection_lists as [-> ->].
  assert (Himg : forall k g i, In (k, g) groups -> image g = Some i ->
            exists e', In e' es /\ is_image_entry e' = true /\
                       entry_key e' = k /\ In (entry_path e') (images_of groups)).
  { intros k g i Hin Hi.
    destruct (group_image_origin k g i Hin Hi) as (e' & H1 & H2 & H3 & H4).
    exists e'. repeat split; auto. apply In_images_of. exists k, g.
    split; [exact Hin|]. rewrite Hi, H2. apply slot_nonempty.
    now apply (plain_entry_nonempty es). }
  split.
  - intros e Hin He.
    destruct (last_image_exists e es Hin He) as (i & L).
    destruct (scan_entries_get es p (entry_key e)) as (A & _ & _).
    change (fst (scan_entries es ([], p))) with groups in A. rewrite L in A.
    destruct (dict_get (entry_key e) groups) as [g |] eqn:D; [| discriminate].
    cbn [img_of] in A. apply dict_get_In in D.
    exact (Himg _ g i D A).
  - intros e Hin He.
    destruct (last_raw_exists e es Hin He) as (r & L).
    destruct (scan_entries_get es p (entry_key e)) as (_ & A & _).
    change (fst (scan_entries es ([], p))) with groups in A. rewrite L in A.
    destruct (dict_get (entry_key e) groups) as [g |] eqn:D; [| discriminate].
    cbn [raw_of] in A. apply dict_get_In in D.
    destruct (image g) as [i |] eqn:Ei.
    + left. exact (Himg _ g i D Ei).
    + right. destruct (process_raw_enabled p) eqn:En; [right | now left].
      destruct (group_raw_entry _ g r D A) as (e' & H1 & H2 & H3 & H4).
      exists e'. repeat split; auto. apply In_raws_of. exists (entry_key e), g.
      split; [exact D|]. split; [rewrite Ei; reflexivity|].
      split; [| reflexivity].
      rewrite A, H2. apply slot_nonempty.
      now apply (plain_entry_nonempty es).
Qed.

End Selection.

(** ** A processor that is not running *)

Lemma scan_not_running w p :
  running p = false ->
  fst (scan_and_group_files w p) = ([], []) /\
  running (snd (scan_and_group_files w p)) = false.
Proof.
  intros Hr. unfold scan_and_group_files.
  destruct (walk w) as [| [root files] rest]; cbn [scan_dirs fst snd].
  - destruct (scan_cancel w) as [n |]; [destruct (Nat.eqb n 0)|]; cbn; now split.
  - assert (H : running (match scan_cancel w with
                         | Some n => if Nat.eqb n 0 then cancel p else p
                         | None => p
                         end) = false).
    { destruct (scan_cancel w) as [n |]; [destruct (Nat.eqb n 0)|]; auto. }
    rewrite H. cbn. now split.
Qed.

Lemma after_scan_error_log w s :
  error_log (self (after_scan w s)) = error_log (self s).
Proof.
  unfold after_scan. cbn [self].
  destruct (before_scan_fields w s) as (_ & _ & _ & <- & _).
  destruct (scan_and_group_files_field error_log
              ltac:(reflexivity) ltac:(reflexivity) ltac:(reflexivity)
              w (before_scan w s)) as [[_ H] | (p'' & H & E)].
  - exact H.
  - rewrite E. exact H.
Qed.

Lemma before_scan_running w s : running (before_scan w s) = running (self s).
Proof.
  unfold before_scan.
  destruct (process_raw_enabled (self s) && negb (rawpy_available w))%bool;
    reflexivity.
Qed.

Lemma run_not_running w s :
  running (self s) = false ->
  fst (run w s) = Ok tt /\
  disk (snd (run w s)) = disk s /\
  running (self (snd (run w s))) = false /\
  processed_files (self (snd (run w s))) = processed_files (self s) /\
  error_log (self (snd (run w s))) = error_log (self s).
Proof.
  intros Hr. rewrite run_eq.
  pose proof (after_scan_processed w s) as P.
  pose proof (after_scan_error_log w s) as E.
  assert (R : running (self (after_scan w s)) = false).
  { unfold after_scan. cbn [self]. apply scan_not_running.
    now rewrite before_scan_running. }
  rewrite R. cbn [negb fst snd]. repeat split; auto.
Qed.

(** ** RAW processing switched off *)

Lemma select_group_disabled g imgs raws p :
  process_raw_enabled p = false ->
  snd (fst (select_group g (imgs, raws, p))) = raws /\
  snd (select_group g (imgs, raws, p)) = p.
Proof.
  intros H. unfold select_group.
  destruct (slot (image g)); destruct (slot (raw g)); rewrite ?H; now split.
Qed.

Lemma select_groups_disabled groups p :
  process_raw_enabled p = false ->
  snd (fst (select_groups groups p)) = [] /\ snd (select_groups groups p) = p.
Proof.
  intros H. unfold select_groups.
  assert (G : forall acc,
    snd acc = p ->
    snd (fst (fold_left (fun acc kv => select_group (snd kv) acc) groups acc))
    = snd (fst acc) /\
    snd (fold_left (fun acc kv => select_group (snd kv) acc) groups acc) = p).
  { induction groups as [| kv rest IH]; intros acc Hacc; cbn [fold_left].
    - now split.
    - destruct acc as [[imgs raws] q]. cbn [snd] in Hacc. subst q.
      destruct (select_group_disabled (snd kv) imgs raws p H) as [A B].
      destruct (IH (select_group (snd kv) (imgs, raws, p)) B) as [C D].
      split; [| exact D]. rewrite C, A. reflexivity. }
  apply (G ([], [], p)). reflexivity.
Qed.

Lemma scan_raw_disabled w p :
  process_raw_enabled p = false ->
  snd (fst (scan_and_group_files w p)) = [] /\
  skip_files (snd (scan_and_group_files w p)) = skip_files p /\
  process_raw_enabled (snd (scan_and_group_files w p)) = false.
Proof.
  intros H. unfold scan_and_group_files.
  pose proof (scan_dirs_field skip_files ltac:(reflexivity) ltac:(reflexivity)
                (scan_cancel w) 0%nat (walk w) ([], p)) as F1.
  pose proof (scan_dirs_field process_raw_enabled ltac:(reflexivity)
                ltac:(reflexivity) (scan_cancel w) 0%nat (walk w) ([], p)) as F2.
  destruct (scan_dirs (scan_cancel w) 0 (walk w) ([], p)) as [[groups |] p'];
    cbn [fst snd] in *.
  - assert (H' : process_raw_enabled p' = false) by congruence.
    destruct (select_groups_disabled groups p' H') as [A B].
    destruct (select_groups groups p') as [[imgs raws] p'']. cbn [fst snd] in *.
    subst. repeat split; auto.
  - repeat split; congruence.
Qed.

Lemma before_scan_disabled w s :
  process_raw_enabled (self s) = false \/ rawpy_available w = false ->
  process_raw_enabled (before_scan w s) = false.
Proof.
  unfold before_scan. intros [H | H].
  - now rewrite H.
  - rewrite H. destruct (process_raw_enabled (self s)) eqn:E; cbn; auto.
Qed.

Lemma run_raw_disabled w s :
  process_raw_enabled (self s) = false \/ rawpy_available w = false ->
  pending_raws w s = [] /\
  skip_files (self (snd (run w s))) = skip_files (self s) /\
  process_raw_enabled (self (snd (run w s))) = false /\
  processed_files (self (snd (run w s)))
  <= processed_files (self s) + len (pending_images w s).
Proof.
  intros H. apply (before_scan_disabled w s) in H.
  destruct (scan_raw_disabled w (before_scan w s) H) as (R & K & En).
  destruct (before_scan_fields w s) as (_ & _ & _ & _ & K0).
  pose proof (after_scan_processed w s) as P.
  split; [exact R|]. rewrite run_eq.
  destruct (negb (running (self (after_scan w s)))); cbn [snd].
  - unfold after_scan. cbn [self]. pose proof (len_nonneg (pending_images w s)).
    repeat split; try congruence. unfold after_scan in P. cbn [self] in P. lia.
  - match goal with |- context [run_stages w ?p ?i ?r ?s2] =>
      pose proof (field_run_stages skip_files ltac:(reflexivity)
                    ltac:(reflexivity) ltac:(reflexivity) w p i r s2) as F1;
      pose proof (field_run_stages process_raw_enabled ltac:(reflexivity)
                    ltac:(reflexivity) ltac:(reflexivity) w p i r s2) as F2;
      destruct (run_stages_counters w p i r s2) as (_ & Q)
    end.
    rewrite F1, F2. cbn [self skip_files process_raw_enabled processed_files
      set_total_files] in *.
    unfold after_scan. cbn [self].
    split; [congruence|]. split; [exact En|].
    assert (L0 : len (pending_raws w s) = 0).
    { change (pending_raws w s) with
        (snd (fst (scan_and_group_files w (before_scan w s)))).
      rewrite R. reflexivity. }
    unfold after_scan in P, Q. cbn [self] in P, Q. lia.
Qed.

(** ** The size of the error log *)

Lemma process_image_log w f s :
  (log_size s <= log_size (snd (process_image w f s)) <= log_size s + 1)%nat.
Proof.
  unfold log_size.
  destruct (process_image_outcome w f s) as [(s' & E & H) | (s' & e & E & H)];
    rewrite E; cbn [snd]; rewrite H; [lia|].
  cbn [error_log set_error_log]. rewrite length_app. cbn [List.length]. lia.
Qed.

Lemma record_result_log f r s :
  (log_size s <= log_size (snd (record_result f r s)) <= log_size s + 1)%nat.
Proof.
  unfold log_size. destruct r as [v | e]; cbn [record_result].
  - destruct (truthy v); cbn; [lia|]. rewrite length_app. cbn [List.length]. lia.
  - cbn. rewrite length_app. cbn [List.length]. lia.
Qed.

Lemma poll_futures_log w d futures s :
  (log_size s <= log_size (snd (poll_futures w d futures s))
   <= log_size s + 2 * List.length (fst (poll_futures w d futures s)))%nat.
Proof.
  revert s. induction futures as [| f rest IH]; intros s; cbn [poll_futures].
  - cbn. lia.
  - destruct (d f); [| apply IH].
    unfold run_job.
    pose proof (process_image_log w f s) as H1.
    destruct (process_image w f s) as [r s1]. cbn [snd] in H1.
    pose proof (record_result_log f r s1) as H2.
    specialize (IH (snd (record_result f r s1))).
    destruct (poll_futures w d rest (snd (record_result f r s1))) as [done s3].
    cbn [fst snd List.length] in *. lia.
Qed.

Lemma shutdown_log w futures s :
  (log_size s <= log_size (snd (shutdown w futures s))
   <= log_size s + List.length (fst (shutdown w futures s)))%nat.
Proof.
  revert s. induction futures as [| f rest IH]; intros s; cbn [shutdown].
  - cbn. lia.
  - unfold run_job.
    pose proof (process_image_log w f s) as H1.
    destruct (process_image w f s) as [r s1]. cbn [snd] in H1.
    specialize (IH s1). destruct (shutdown w rest s1) as [rs s2].
    cbn [fst snd List.length] in *. lia.
Qed.

Lemma stage_loop_log fuel w limit :
  forall evs pending futures acc s ex s',
    stage_loop fuel w limit evs pending futures acc s = Some (ex, s') ->
    (log_size s <= log_size s' /\
     log_size s' + 2 * List.length acc
     <= log_size s + 2 * List.length (recorded ex))%nat.
Proof.
  induction fuel as [| fuel IH]; intros evs pending futures acc s ex s';
    cbn [stage_loop]; [discriminate|].
  destruct (negb (running (self s))).
  { intros H. inversion H. subst. cbn [recorded]. lia. }
  destruct (futures ++ firstn (limit - List.length futures) pending)%list
    as [| f0 fs] eqn:E.
  { intros H. inversion H. subst. cbn [recorded]. lia. }
  destruct (next_poll evs) as [ev evs'].
  pose proof (poll_futures_log w (done_now ev) (f0 :: fs) s) as H1.
  destruct (poll_futures w (done_now ev) (f0 :: fs) s) as [done s1].
  cbn [fst snd] in H1. intros H. apply IH in H.
  rewrite length_app in H.
  assert (Hs : log_size (if cancel_after ev
                         then mkState (cancel (self s1)) (disk s1) else s1)
               = log_size s1) by (destruct (cancel_after ev); reflexivity).
  rewrite Hs in H. lia.
Qed.

Lemma jpg_stage_log w files s :
  (log_size s <= log_size (snd (jpg_stage w files s))
   <= log_size s + 2 * List.length files)%nat.
Proof.
  pose proof (jpg_stage_accounting w files s) as A.
  unfold jpg_stage, bind, get_self in *.
  destruct (Z.min (jpg_threads (self s)) (len files) <=? 0); [cbn; lia|].
  destruct (stage_loop _ w _ (polls w) files [] [] s) as [[ex s1] |] eqn:E;
    [| cbn; lia].
  apply stage_loop_log in E. cbn [List.length] in E.
  pose proof (shutdown_log w (in_flight ex) s1) as H2.
  destruct (shutdown w (in_flight ex) s1) as [rs s2].
  cbn [fst snd counted abandoned never_submitted] in *.
  destruct A as (Hperm & _).
  apply Permutation_length in Hperm. rewrite !length_app, !length_map in Hperm.
  lia.
Qed.

Lemma run_stages_log w p1 imgs raws s :
  (log_size s <= log_size (snd (run_stages w p1 imgs raws s))
   <= log_size s + 2 * List.length imgs + List.length raws)%nat.
Proof.
  remember (run_stages w p1 imgs raws s) as r eqn:Hr.
  unfold run_stages in Hr. unfold bind at 1 in Hr.
  set (stage1 := if (nonempty imgs && running p1)%bool
                 then jpg_stage w imgs ;; ret tt else ret tt) in Hr.
  assert (H1 : (log_size s <= log_size (snd (stage1 s))
                <= log_size s + 2 * List.length imgs)%nat).
  { unfold stage1. destruct (nonempty imgs && running p1)%bool; [| cbn; lia].
    unfold bind. pose proof (jpg_stage_log w imgs s) as H.
    destruct (jpg_stage w imgs s) as [[rep | e] s']; exact H. }
  destruct (stage1 s) as [[[] | e] s1]; cbn [snd] in H1; [| subst r; cbn [snd]; lia].
  unfold bind at 1 in Hr. cbn [get_self] in Hr. unfold bind at 1 in Hr.
  set (stage2 := if (nonempty raws && running (self s1)
                     && process_raw_enabled (self s1))%bool
                 then process_raw_files w raws else ret tt) in Hr.
  assert (H2 : (log_size s1 <= log_size (snd (stage2 s1))
                <= log_size s1 + List.length raws)%nat).
  { unfold stage2, log_size.
    destruct (nonempty raws && running (self s1) && process_raw_enabled (self s1))%bool;
      [| cbn; lia].
    destruct (process_raw_files_accounting w raws s1)
      as (_ & k & j & _ & _ & P3 & P4 & _).
    rewrite P3. lia. }
  destruct (stage2 s1) as [[[] | e] s2]; cbn [snd] in H2; [| subst r; cbn [snd]; lia].
  unfold bind at 1 in Hr. cbn [get_self] in Hr.
  destruct (running (self s2)); [| subst r; cbn [snd ret]; lia].
  subst r. unfold log_size in *. rewrite keeps_write_report. lia.
Qed.

Lemma run_log w s :
  (log_size s <= log_size (snd (run w s))
   <= log_size s + 2 * List.length (pending_images w s)
      + List.length (pending_raws w s))%nat.
Proof.
  rewrite run_eq.
  pose proof (after_scan_error_log w s) as E.
  destruct (negb (running (self (after_scan w s)))); cbn [snd].
  - unfold log_size. rewrite E. lia.
  - match goal with |- context [run_stages w ?p ?i ?r ?s2] =>
      pose proof (run_stages_log w p i r s2) as Q end.
    unfold log_size in *. cbn [self error_log set_total_files] in Q.
    rewrite E in Q. exact Q.
Qed.

(** ** A file that is in no work list

    A run reads the codecs only for the files of its work lists: how any
    other file would decode makes no difference to it. *)

(** Two computations that do the same in every state. *)
Definition same {A : Type} (m1 m2 : M A) : Prop := forall s, m1 s = m2 s.

Lemma same_refl {A : Type} (m : M A) : same m m.
Proof. intros s. reflexivity. Qed.

Lemma same_bind {A B : Type} (m1 m2 : M A) (k1 k2 : A -> M B) :
  same m1 m2 -> (forall a, same (k1 a) (k2 a)) -> same (bind m1 k1) (bind m2 k2).
Proof.
  intros Hm Hk s. unfold bind. rewrite Hm.
  destruct (m2 s) as [[a | e] s1]; [apply Hk | reflexivity].
Qed.

Lemma same_try {A : Type} (m1 m2 : M A) (h1 h2 : string -> M A) :
  same m1 m2 -> (forall e, same (h1 e) (h2 e)) ->
  same (try_except m1 h1) (try_except m2 h2).
Proof.
  intros Hm Hh s. unfold try_except. rewrite Hm.
  destruct (m2 s) as [[a | e] s1]; [reflexivity | apply Hh].
Qed.

Lemma same_if {A : Type} (b : bool) (m1 m2 n1 n2 : M A) :
  same m1 m2 -> same n1 n2 -> same (if b then m1 else n1) (if b then m2 else n2).
Proof. destruct b; auto. Qed.

Section Codec.
Variable w : world.
Variable f : string.
Variable d : nat -> result (Z * Z).
Variable rd : result (Z * Z).

Let w' := with_codec w f d rd.

Lemma decode_with_codec g n : g <> f -> decode w' g n = decode w g n.
Proof.
  intros H. apply String.eqb_neq in H. unfold w', with_codec. cbn [decode].
  now rewrite H.
Qed.

Lemma raw_decode_with_codec g : g <> f -> raw_decode w' g = raw_decode w g.
Proof.
  intros H. apply String.eqb_neq in H. unfold w', with_codec. cbn [raw_decode].
  now rewrite H.
Qed.

Lemma mkdirs_with_codec ds : same (mkdirs w' ds) (mkdirs w ds).
Proof.
  induction ds as [| x rest IH]; cbn [mkdirs]; [apply same_refl|].
  apply same_bind; [apply same_refl | intro; exact IH].
Qed.

Lemma makedirs_with_codec dir : same (makedirs w' dir) (makedirs w dir).
Proof.
  unfold makedirs. apply same_if; [apply same_refl|].
  apply same_bind; [apply same_refl | intro; apply mkdirs_with_codec].
Qed.

Lemma convert_image_with_codec g n :
  g <> f -> same (convert_image w' g n) (convert_image w g n).
Proof.
  intros H. unfold convert_image. rewrite (decode_with_codec g n H).
  apply same_bind; [apply same_refl | intro p].
  apply same_bind; [apply same_refl | intro size].
  apply same_bind; [apply same_refl | intro new_size].
  apply same_bind; [apply makedirs_with_codec | intro; apply same_refl].
Qed.

Lemma process_image_loop_with_codec g retries :
  g <> f -> same (process_image_loop w' g retries) (process_image_loop w g retries).
Proof.
  intros H. induction retries as [| n rest IH]; cbn [process_image_loop].
  - apply same_refl.
  - apply same_try.
    + apply same_bind; [now apply convert_image_with_codec | intro; apply same_refl].
    + intro e. apply same_if; [exact IH | apply same_refl].
Qed.

Lemma process_image_with_codec g s :
  g <> f -> process_image w' g s = process_image w g s.
Proof. intros H. unfold process_image. now apply process_image_loop_with_codec. Qed.

Lemma process_raw_with_codec g :
  g <> f -> same (process_raw w' g) (process_raw w g).
Proof.
  intros H. unfold process_raw, convert_raw.
  rewrite (raw_decode_with_codec g H).
  apply same_bind; [apply same_refl | intro p].
  apply same_if; [apply same_refl|].
  apply same_try; [| intro; apply same_refl].
  apply same_bind; [| intro; apply same_refl].
  apply same_bind; [apply same_refl | intro p'].
  apply same_bind; [apply same_refl | intro].
  apply same_bind; [apply same_refl | intro size].
  apply same_bind; [apply same_refl | intro new_size].
  apply same_bind; [apply makedirs_with_codec | intro; apply same_refl].
Qed.

Lemma poll_futures_with_codec is_done futures :
  forall s, ~ In f futures ->
            poll_futures w' is_done futures s = poll_futures w is_done futures s.
Proof.
  induction futures as [| g rest IH]; intros s Hn; cbn [poll_futures].
  - reflexivity.
  - assert (Hg : g <> f) by (intros ->; apply Hn; now left).
    assert (Hr : ~ In f rest) by (intros Hin; apply Hn; now right).
    destruct (is_done g); [| now apply IH].
    unfold run_job. rewrite (process_image_with_codec g s Hg).
    destruct (process_image w g s) as [r s1]. now rewrite IH.
Qed.

Lemma shutdown_with_codec futures :
  forall s, ~ In f futures -> shutdown w' futures s = shutdown w futures s.
Proof.
  induction futures as [| g rest IH]; intros s Hn; cbn [shutdown].
  - reflexivity.
  - assert (Hg : g <> f) by (intros ->; apply Hn; now left).
    assert (Hr : ~ In f rest) by (intros Hin; apply Hn; now right).
    unfold run_job. rewrite (process_image_with_codec g s Hg).
    destruct (process_image w g s) as [r s1]. now rewrite IH.
Qed.

Lemma stage_loop_with_codec fuel limit :
  forall evs pending futures acc s,
    ~ In f pending -> ~ In f futures ->
    stage_loop fuel w' limit evs pending futures acc s
    = stage_loop fuel w limit evs pending futures acc s.
Proof.
  induction fuel as [| fuel IH]; intros evs pending futures acc s Hp Hf;
    cbn [stage_loop]; [reflexivity|].
  destruct (negb (running (self s))); [reflexivity|].
  set (n := (limit - List.length futures)%nat).
  assert (H1 : ~ In f (futures ++ firstn n pending)%list).
  { intros Hin. apply in_app_or in Hin as [Hin | Hin]; [now apply Hf|].
    apply Hp. rewrite <- (firstn_skipn n pending). apply in_or_app. now left. }
  assert (H2 : ~ In f (skipn n pending)).
  { intros Hin. apply Hp. rewrite <- (firstn_skipn n pending).
    apply in_or_app. now right. }
  destruct (futures ++ firstn n pending)%list as [| g gs] eqn:E; [reflexivity|].
  destruct (next_poll evs) as [ev evs'].
  rewrite (poll_futures_with_codec (done_now ev) (g :: gs) s H1).
  destruct (poll_futures w (done_now ev) (g :: gs) s) as [done s1].
  apply IH; [exact H2|].
  intros Hin. apply filter_In in Hin as [Hin _]. now apply H1.
Qed.

(** The jobs in flight when the loop is left come from the work list. *)
Lemma stage_loop_in_flight fuel limit evs pending s ex s' g :
  stage_loop fuel w limit evs pending [] [] s = Some (ex, s') ->
  In g (in_flight ex) -> In g pending.
Proof.
  intros H Hin. apply stage_loop_accounting in H as (Hperm & _).
  cbn [map app] in Hperm.
  apply (Permutation_in _ (Permutation_sym Hperm)).
  apply in_or_app. right. apply in_or_app. now left.
Qed.

Lemma jpg_stage_with_codec files s :
  ~ In f files -> jpg_stage w' files s = jpg_stage w files s.
Proof.
  intros Hn. unfold jpg_stage, bind, get_self.
  destruct (Z.min (jpg_threads (self s)) (len files) <=? 0); [reflexivity|].
  change (polls w') with (polls w).
  rewrite stage_loop_with_codec by (auto; intros []).
  destruct (stage_loop (stage_fuel (polls w) files) w
              (Z.to_nat (Z.min (jpg_threads (self s)) (len files) * 2))
              (polls w) files [] [] s) as [[ex s1] |] eqn:E; [| reflexivity].
  rewrite shutdown_with_codec; [reflexivity|].
  intros Hin. apply Hn. eapply stage_loop_in_flight; eassumption.
Qed.

Lemma raw_loop_with_codec files :
  forall i, ~ In f files -> same (raw_loop w' i files) (raw_loop w i files).
Proof.
  induction files as [| g rest IH]; intros i Hn; cbn [raw_loop].
  - apply same_refl.
  - assert (Hg : g <> f) by (intros ->; apply Hn; now left).
    assert (Hr : ~ In f rest) by (intros Hin; apply Hn; now right).
    apply same_bind; [apply same_refl | intro].
    apply same_bind; [apply same_refl | intro p].
    apply same_if; [apply same_refl|].
    apply same_bind; [now apply process_raw_with_codec | intro ok].
    apply same_bind; [apply same_refl | intro; now apply IH].
Qed.

Lemma process_raw_files_with_codec files :
  ~ In f files -> same (process_raw_files w' files) (process_raw_files w files).
Proof.
  intros Hn. unfold process_raw_files.
  apply same_bind; [apply same_refl | intro p].
  apply same_if; [apply same_refl | now apply raw_loop_with_codec].
Qed.

Lemma run_stages_with_codec p1 imgs raws :
  ~ In f imgs -> ~ In f raws ->
  same (run_stages w' p1 imgs raws) (run_stages w p1 imgs raws).
Proof.
  intros Hi Hr. unfold run_stages.
  apply same_bind.
  { apply same_if; [| apply same_refl].
    apply same_bind; [| intro; apply same_refl].
    intros s. now apply jpg_stage_with_codec. }
  intros _. apply same_bind; [apply same_refl | intro p].
  apply same_bind.
  { apply same_if; [| apply same_refl]. now apply process_raw_files_with_codec. }
  intros _. apply same_refl.
Qed.

(** The run does not depend on how a file outside its work lists decodes. *)
Lemma run_with_codec s :
  ~ In f (pending_images w s) -> ~ In f (pending_raws w s) ->
  run w' s = run w s.
Proof.
  intros Hi Hr. rewrite !run_eq.
  change (after_scan w' s) with (after_scan w s).
  change (pending_images w' s) with (pending_images w s).
  change (pending_raws w' s) with (pending_raws w s).
  destruct (negb (running (self (after_scan w s)))); [reflexivity|].
  now apply run_stages_with_codec.
Qed.

End Codec.

(** ** The groups against the files of the walk *)

Lemma has_image_iff k es :
  has_image k es = true <->
  exists e, In e es /\ is_image_entry e = true /\ entry_key e = k.
Proof.
  unfold has_image. rewrite existsb_exists. split.
  - intros (e & Hin & H). apply andb_true_iff in H as [H1 H2].
    apply String.eqb_eq in H2. now exists e.
  - intros (e & Hin & H1 & H2). exists e. split; [assumption|].
    rewrite H1, H2, String.eqb_refl. reflexivity.
Qed.

Lemma has_raw_iff k es :
  has_raw k es = true <->
  exists e, In e es /\ is_raw_entry e = true /\ entry_key e = k.
Proof.
  unfold has_raw. rewrite existsb_exists. split.
  - intros (e & Hin & H). apply andb_true_iff in H as [H1 H2].
    apply String.eqb_eq in H2. now exists e.
  - intros (e & Hin & H1 & H2). exists e. split; [assumption|].
    rewrite H1, H2, String.eqb_refl. reflexivity.
Qed.

Lemma last_image_has k es :
  (exists i, last_image k es = Some i) <-> has_image k es = true.
Proof.
  rewrite has_image_iff. split.
  - intros (i & H). destruct (last_image_origin _ _ _ H) as (e & H1 & _ & H2 & H3).
    now exists e.
  - intros (e & Hin & He & <-). now apply last_image_exists.
Qed.

Lemma last_raw_has k es :
  (exists r, last_raw k es = Some r) <-> has_raw k es = true.
Proof.
  rewrite has_raw_iff. split.
  - intros (r & H). destruct (last_raw_origin _ _ _ H) as (e & H1 & _ & H2 & H3).
    now exists e.
  - intros (e & Hin & He & <-). now apply last_raw_exists.
Qed.

Lemma paired_keys_nodup es : NoDup (paired_keys es).
Proof. unfold paired_keys. apply NoDup_filter, NoDup_nodup. Qed.

Lemma In_paired_keys k es :
  In k (paired_keys es) <-> has_image k es = true /\ has_raw k es = true.
Proof.
  unfold paired_keys. rewrite filter_In, nodup_In, andb_true_iff. split.
  - intros [_ H]. exact H.
  - intros [H1 H2]. split; [| now split].
    apply has_image_iff in H1 as (e & Hin & _ & <-). now apply in_map.
Qed.

Lemma In_pairs_of k (groups : file_groups) :
  In k (pairs_of groups) <->
  exists g i r, In (k, g) groups /\ slot (image g) = Some i
                /\ slot (raw g) = Some r.
Proof.
  unfold pairs_of. rewrite in_flat_map. split.
  - intros ([k' g] & Hin & H). cbn [fst snd] in H.
    destruct (slot (image g)) as [i |] eqn:Ei; [| contradiction].
    destruct (slot (raw g)) as [r |] eqn:Er; [| contradiction].
    destruct H as [-> | []]. now exists g, i, r.
  - intros (g & i & r & Hin & Hi & Hr). exists (k, g). split; [assumption|].
    cbn [fst snd]. rewrite Hi, Hr. now left.
Qed.

Lemma pairs_of_nodup (groups : file_groups) :
  NoDup (map fst groups) -> NoDup (pairs_of groups).
Proof.
  induction groups as [| [k g] rest IH]; intros Hnd; [constructor|].
  inversion Hnd as [| ? ? Hnot Hnd']. subst.
  unfold pairs_of. cbn [flat_map fst snd]. fold (pairs_of rest).
  destruct (slot (image g)); [| now apply IH].
  destruct (slot (raw g)); [| now apply IH].
  cbn [app]. constructor; [| now apply IH].
  intros Hin. apply In_pairs_of in Hin as (g' & _ & _ & Hin & _).
  apply Hnot. change k with (fst (k, g')). now apply in_map.
Qed.

Section WalkGroups.
Variable es : list entry.
Variable p : processor.
Hypothesis Hplain : plain_names es.

Let groups := fst (scan_entries es ([], p)).

(** The slots of a group are never empty paths. *)
Lemma group_image_slot k g i :
  In (k, g) groups -> image g = Some i -> slot (image g) = Some i.
Proof.
  intros Hin Hi. rewrite Hi. apply slot_nonempty.
  assert (Hnd : NoDup (map fst groups)) by (apply scan_entries_nodup; constructor).
  apply (In_dict_get _ _ _ Hnd) in Hin.
  destruct (scan_entries_get es p k) as (A & _ & _).
  change (fst (scan_entries es ([], p))) with groups in A.
  rewrite Hin in A. cbn [img_of] in A. rewrite Hi in A. symmetry in A.
  destruct (last_image_origin _ _ _ A) as (e & He & -> & _).
  now apply (plain_entry_nonempty es).
Qed.

Lemma group_raw_slot k g r :
  In (k, g) groups -> raw g = Some r -> slot (raw g) = Some r.
Proof.
  intros Hin Hr. rewrite Hr. apply slot_nonempty.
  assert (Hnd : NoDup (map fst groups)) by (apply scan_entries_nodup; constructor).
  apply (In_dict_get _ _ _ Hnd) in Hin.
  destruct (scan_entries_get es p k) as (_ & A & _).
  change (fst (scan_entries es ([], p))) with groups in A.
  rewrite Hin in A. cbn [raw_of] in A. rewrite Hr in A. symmetry in A.
  destruct (last_raw_origin _ _ _ A) as (e & He & -> & _).
  now apply (plain_entry_nonempty es).
Qed.

(** A group holds both an image and a RAW file exactly when the walk does,
    for its key. *)
Lemma pairs_of_paired k : In k (pairs_of groups) <-> In k (paired_keys es).
Proof.
  rewrite In_pairs_of, In_paired_keys, <- last_image_has, <- last_raw_has.
  assert (Hnd : NoDup (map fst groups)) by (apply scan_entries_nodup; constructor).
  destruct (scan_entries_get es p k) as (A & B & _).
  change (fst (scan_entries es ([], p))) with groups in A, B.
  split.
  - intros (g & i & r & Hin & Hi & Hr).
    apply (In_dict_get _ _ _ Hnd) in Hin. rewrite Hin in A, B.
    cbn [img_of raw_of] in A, B.
    apply slot_Some in Hi. apply slot_Some in Hr.
    split; [exists i | exists r]; congruence.
  - intros [(i & Hi) (r & Hr)].
    destruct (dict_get k groups) as [g |] eqn:D;
      [| rewrite Hi in A; discriminate].
    cbn [img_of raw_of] in A, B. apply dict_get_In in D.
    exists g, i, r. split; [exact D|].
    split; [apply (group_image_slot k g i D) | apply (group_raw_slot k g r D)];
      congruence.
Qed.

Lemma pairs_of_count : len (pairs_of groups) = len (paired_keys es).
Proof.
  apply len_permutation. apply NoDup_Permutation.
  - apply pairs_of_nodup. apply scan_entries_nodup. constructor.
  - apply paired_keys_nodup.
  - apply pairs_of_paired.
Qed.

(** The image of a key that the walk holds is selected; no RAW file with
    that key is. *)
Lemma key_with_image k :
  has_image k es = true ->
  (exists e, In e es /\ is_image_entry e = true /\ entry_key e = k /\
             In (entry_path e) (images_of groups)) /\
  (forall enabled r, In r (raws_of enabled groups) -> path_key r <> k).
Proof.
  intros H. apply last_image_has in H as (i & Hi).
  assert (Hnd : NoDup (map fst groups)) by (apply scan_entries_nodup; constructor).
  destruct (scan_entries_get es p k) as (A & _ & _).
  change (fst (scan_entries es ([], p))) with groups in A. rewrite Hi in A.
  destruct (dict_get k groups) as [g |] eqn:D; [| discriminate].
  cbn [img_of] in A. pose proof (dict_get_In _ _ _ D) as Hin.
  pose proof (group_image_slot k g i Hin A) as Hs.
  split.
  - destruct (last_image_origin _ _ _ Hi) as (e & He & -> & Hie & Hk).
    exists e. repeat split; auto. apply In_images_of. now exists k, g.
  - intros enabled r Hr Hkey.
    apply In_raws_of in Hr as (k' & g' & Hin' & Hnone & Hraw & _).
    assert (Hk' : path_key r = k')
      by (apply (group_raw_key es p Hplain k' g' r Hin'); now apply slot_Some).
    assert (Hg : Some g' = Some g).
    { rewrite <- (In_dict_get k' g' _ Hnd Hin'), <- D. congruence. }
    inversion Hg. subst g'. congruence.
Qed.

(** A RAW file of the walk is never taken for an image. *)
Lemma raw_entry_not_image r :
  In r es -> is_raw_entry r = true -> ~ In (entry_path r) (images_of groups).
Proof.
  intros Hin Hr Hi. apply In_images_of in Hi as (k & g & Hg & Hs).
  apply slot_Some in Hs.
  assert (Hnd : NoDup (map fst groups)) by (apply scan_entries_nodup; constructor).
  apply (In_dict_get _ _ _ Hnd) in Hg.
  destruct (scan_entries_get es p k) as (A & _ & _).
  change (fst (scan_entries es ([], p))) with groups in A.
  rewrite Hg in A. cbn [img_of] in A. rewrite Hs in A. symmetry in A.
  destruct (last_image_origin _ _ _ A) as (e & He & Hpath & Hie & _).
  assert (Hb : snd r = snd e).
  { rewrite <- (plain_entry_basename es r Hplain Hin).
    rewrite <- (plain_entry_basename es e Hplain He). now rewrite Hpath. }
  apply is_image_not_raw in Hie.
  unfold is_raw_entry, entry_ext in Hie, Hr. rewrite Hb in Hr. congruence.
Qed.

End WalkGroups.

(** ** System files *)

Lemma add_system_cancel n p : cancel (add_system n p) = add_system n (cancel p).
Proof. reflexivity. Qed.

Lemma add_system_skip n k p : add_skip k (add_system n p) = add_system n (add_skip k p).
Proof. reflexivity. Qed.

Lemma add_system_total n t p :
  set_total_files t (add_system n p) = add_system n (set_total_files t p).
Proof. reflexivity. Qed.

Lemma count_system_nonneg es : 0 <= count_system es.
Proof. unfold count_system. lia. Qed.

Lemma count_system_app a b : count_system (a ++ b) = count_system a + count_system b.
Proof.
  unfold count_system. now rewrite filter_app, length_app, Nat2Z.inj_add.
Qed.

(** The groups do not depend on the processor, and a system file leaves
    them alone. *)
Lemma scan_files_system root files :
  forall groups p q,
    fst (scan_files root files (groups, p))
    = fst (scan_files root (filter (fun f => negb (is_system_file f)) files)
             (groups, q)).
Proof.
  unfold scan_files.
  induction files as [| f rest IH]; intros groups p q; [reflexivity|].
  cbn [fold_left filter].
  destruct (is_system_file f) eqn:Sys; cbn [negb].
  - unfold scan_file at 2. rewrite Sys. apply IH.
  - cbn [fold_left].
    pose proof (scan_file_groups root f groups p) as G1.
    pose proof (scan_file_groups root f groups q) as G2.
    pose proof (scan_file_proc root f groups p) as P1.
    pose proof (scan_file_proc root f groups q) as P2.
    destruct (scan_file root f (groups, p)) as [g1 p1].
    destruct (scan_file root f (groups, q)) as [g2 q1].
    cbn [fst snd] in *. rewrite G1, <- G2. apply IH.
Qed.

Lemma scan_files_proc root files groups p :
  snd (scan_files root files (groups, p))
  = add_system (count_system (map (pair root) files)) p.
Proof. rewrite scan_files_entries. apply scan_entries_proc. Qed.

Lemma count_system_filtered root files :
  count_system (map (pair root) (filter (fun f => negb (is_system_file f)) files)) = 0.
Proof.
  unfold count_system.
  induction files as [| f rest IH]; [reflexivity|].
  cbn [filter]. destruct (is_system_file f) eqn:Sys; cbn [negb]; [exact IH|].
  cbn [map filter snd]. rewrite Sys. exact IH.
Qed.

Lemma scan_dirs_system cancel_at dirs :
  forall idx (groups : list (string * group)) p n,
    0 <= n ->
    fst (scan_dirs cancel_at idx dirs (groups, add_system n p))
    = fst (scan_dirs cancel_at idx (drop_system_files dirs) (groups, p)) /\
    exists m,
      n <= m <= n + count_system (entries dirs) /\
      snd (scan_dirs cancel_at idx dirs (groups, add_system n p))
      = add_system m (snd (scan_dirs cancel_at idx (drop_system_files dirs)
                             (groups, p))) /\
      (cancel_at = None -> running p = true ->
       m = n + count_system (entries dirs)).
Proof.
  induction dirs as [| [root files] rest IH]; intros idx groups p n Hn;
    cbn [drop_system_files map scan_dirs fst snd].
  - split; [reflexivity|]. exists n. change (count_system (entries [])) with 0.
    split; [lia|]. split; [| intros; lia].
    destruct cancel_at as [c |]; [destruct (Nat.eqb c idx)|]; reflexivity.
  - fold (drop_system_files rest).
    set (pc := match cancel_at with
               | Some c => if Nat.eqb c idx then cancel p else p
               | None => p
               end).
    assert (Hpc : match cancel_at with
                  | Some c => if Nat.eqb c idx then cancel (add_system n p)
                              else add_system n p
                  | None => add_system n p
                  end = add_system n pc).
    { unfold pc. destruct cancel_at as [c |]; [destruct (Nat.eqb c idx)|];
        reflexivity. }
    rewrite Hpc. change (running (add_system n pc)) with (running pc).
    assert (Hcount : count_system (entries ((root, files) :: rest))
                     = count_system (map (pair root) files)
                       + count_system (entries rest)).
    { unfold entries. cbn [flat_map fst snd]. apply count_system_app. }
    pose proof (count_system_nonneg (map (pair root) files)) as K0.
    pose proof (count_system_nonneg (entries rest)) as K1.
    destruct (running pc) eqn:Run; cbn [negb fst snd].
    + pose proof (scan_files_system root files groups (add_system n pc) pc) as G.
      pose proof (scan_files_proc root files groups (add_system n pc)) as P1.
      pose proof (scan_files_proc root
                    (filter (fun f => negb (is_system_file f)) files) groups pc)
        as P2.
      rewrite count_system_filtered, add_system_0 in P2.
      rewrite add_system_add in P1. unfold file_groups in *.
      destruct (scan_files root files (groups, add_system n pc)) as [g1 p1].
      destruct (scan_files root
                  (filter (fun f => negb (is_system_file f)) files) (groups, pc))
        as [g2 p2].
      cbn [fst snd] in G, P1, P2. subst g2 p1 p2.
      destruct (IH (S idx) g1 pc (n + count_system (map (pair root) files))
                  ltac:(lia)) as (F & m & Hm & S & Hfull).
      split; [exact F|]. exists m. split; [lia|]. split; [exact S|].
      intros Hc Hr. rewrite Hcount.
      assert (Hpcr : running pc = true) by exact Run.
      rewrite (Hfull Hc Hpcr). lia.
    + split; [reflexivity|]. exists n. split; [lia|]. split; [reflexivity|].
      intros Hc Hr. unfold pc in Run. rewrite Hc in Run. congruence.
Qed.

(** The scan of a tree and of the same tree without its system files:
    the same work lists, and the same processor but for the count of
    system files. *)
Lemma scan_without_system_files w p :
  fst (scan_and_group_files w p)
  = fst (scan_and_group_files (without_system_files w) p) /\
  exists m,
    0 <= m <= count_system (entries (walk w)) /\
    snd (scan_and_group_files w p)
    = add_system m (snd (scan_and_group_files (without_system_files w) p)) /\
    (scan_cancel w = None -> running p = true ->
     m = count_system (entries (walk w))).
Proof.
  unfold scan_and_group_files, without_system_files. cbn [walk scan_cancel].
  fold (drop_system_files (walk w)).
  destruct (scan_dirs_system (scan_cancel w) (walk w) 0%nat [] p 0 ltac:(lia))
    as (F & m & Hm & S & Hfull).
  rewrite add_system_0 in F, S. unfold file_groups in *.
  destruct (scan_dirs (scan_cancel w) 0 (walk w) ([], p)) as [og p1].
  destruct (scan_dirs (scan_cancel w) 0 (drop_system_files (walk w)) ([], p))
    as [og0 p0].
  cbn [fst snd] in F, S. subst og0 p1.
  destruct og as [groups |].
  - rewrite !select_groups_eq. cbn [fst snd].
    change (process_raw_enabled (add_system m p0)) with (process_raw_enabled p0).
    split; [reflexivity|]. exists m. split; [lia|]. split; [| exact Hfull].
    destruct (process_raw_enabled p0); reflexivity.
  - cbn [fst snd]. split; [reflexivity|]. exists m.
    split; [lia|]. split; [reflexivity | exact Hfull].
Qed.

(** On a tree without system files the scan leaves their count alone. *)
Lemma scan_dirs_clean cancel_at dirs :
  forall idx (groups : list (string * group)) p,
    skipped_system_files
      (snd (scan_dirs cancel_at idx (drop_system_files dirs) (groups, p)))
    = skipped_system_files p.
Proof.
  induction dirs as [| [root files] rest IH]; intros idx groups p;
    cbn [drop_system_files map scan_dirs fst snd].
  - destruct cancel_at as [c |]; [destruct (Nat.eqb c idx)|]; reflexivity.
  - fold (drop_system_files rest).
    set (pc := match cancel_at with
               | Some c => if Nat.eqb c idx then cancel p else p
               | None => p
               end).
    assert (Hpc : skipped_system_files pc = skipped_system_files p).
    { unfold pc. destruct cancel_at as [c |]; [destruct (Nat.eqb c idx)|];
        reflexivity. }
    destruct (negb (running pc)); cbn [snd]; [exact Hpc|].
    pose proof (scan_files_proc root
                  (filter (fun f => negb (is_system_file f)) files) groups pc)
      as P2.
    rewrite count_system_filtered, add_system_0 in P2.
    unfold file_groups in *.
    destruct (scan_files root
                (filter (fun f => negb (is_system_file f)) files) (groups, pc))
      as [g2 p2].
    cbn [snd] in P2. subst p2. now rewrite IH.
Qed.

Lemma scan_clean_tree w p :
  skipped_system_files (snd (scan_and_group_files (without_system_files w) p))
  = skipped_system_files p.
Proof.
  unfold scan_and_group_files, without_system_files. cbn [walk scan_cancel].
  pose proof (scan_dirs_clean (scan_cancel w) (walk w) 0%nat [] p) as H.
  unfold file_groups in *.
  destruct (scan_dirs (scan_cancel w) 0 (drop_system_files (walk w)) ([], p))
    as [[groups |] p0]; cbn [snd] in H; [| exact H].
  rewrite select_groups_eq. cbn [snd].
  destruct (process_raw_enabled p0); exact H.
Qed.

(** ** What the jobs of a stage leave behind *)

Section StageSteps.
Variable w : world.
Variable p : processor.

Lemma stage_steps_nil b s :
  config_of (self s) = config_of p -> stage_steps w p b [] s s.
Proof.
  intros Hc. split; [| split; [apply adds_refl | exact Hc]].
  split.
  - exists []. split; [constructor|]. cbn. now rewrite app_nil_r.
  - intros f r [].
Qed.

Lemma stage_steps_app b j1 j2 s s1 s2 :
  stage_steps w p b j1 s s1 -> stage_steps w p b j2 s1 s2 ->
  stage_steps w p b (j1 ++ j2) s s2.
Proof.
  intros ([(l1 & F1 & E1) P1] & A1 & C1) ([(l2 & F2 & E2) P2] & A2 & C2).
  split; [| split; [eapply adds_trans; eassumption | exact C2]].
  split.
  - exists (l1 ++ l2)%list. split; [now apply Forall2_app|].
    rewrite E2, E1, concat_app. now rewrite app_assoc.
  - intros f r Hin Hs. apply in_app_or in Hin as [Hin | Hin].
    + apply (is_processed_config s1 s2 f); [congruence | | now apply (P1 f r)].
      intros path. now apply (adds_path_exists w p).
    + now apply (P2 f r).
Qed.

Lemma stage_steps_cancel b jobs s s1 :
  stage_steps w p b jobs s s1 ->
  stage_steps w p b jobs s (mkState (cancel (self s1)) (disk s1)).
Proof.
  intros ([(l & F & E) P] & A & C).
  split; [| split].
  - split; [exists l; split; [exact F | exact E]|].
    intros f r Hin Hs. exact (P f r Hin Hs).
  - eapply adds_trans; [exact A | now apply adds_same_disk].
  - exact C.
Qed.

(** One job, as the worker leaves it. *)
Lemma job_step f s :
  config_of (self s) = config_of p ->
  stage_steps w p false [(f, fst (process_image w f s))] s
              (snd (process_image w f s)).
Proof.
  intros Hc.
  split; [| split; [now apply only_adds_process_image
                   | now rewrite frames_process_image]].
  pose proof (process_image_then_processed w f s) as Hdone.
  destruct (process_image_written w f s)
    as [(R & K & _) | (R & _ & e & K)]; rewrite R in *.
  - split.
    + exists [[]]. split; [repeat constructor|]. rewrite K. cbn.
      now rewrite app_nil_r.
    + intros f' r' [H | []] _. inversion H. subst. now apply Hdone.
  - split.
    + exists [[mkEntry (basename f) e]]. split.
      * constructor; [| constructor]. cbn. now exists e.
      * rewrite K. reflexivity.
    + intros f' r' [H | []] Hs. inversion H. subst. discriminate.
Qed.

(** One job, after the control thread has read its future. *)
Lemma job_recorded_step f s :
  config_of (self s) = config_of p ->
  stage_steps w p true [(f, fst (process_image w f s))] s
              (snd (record_result f (fst (process_image w f s))
                      (snd (process_image w f s)))).
Proof.
  intros Hc. destruct (job_step f s Hc) as ([(l & F & E) P] & A & C).
  pose proof (process_image_outcome w f s) as Hout.
  destruct (process_image w f s) as [r s1]. cbn [fst snd] in *.
  assert (Hr : exists b, r = Ok (PyBool b)).
  { destruct Hout as [(s' & H & _) | (s' & e & H & _)]; inversion H; eauto. }
  destruct Hr as (b & ->).
  inversion F as [| ? l0 ? ? J F']. subst. inversion F'. subst.
  unfold job_entries in J. cbn [snd fst succeeded truthy] in J.
  cbn [record_result truthy].
  destruct b.
  - subst l0. split; [| split].
    + split.
      * exists [[]]. split; [repeat constructor|]. cbn. exact E.
      * intros f' r' Hin Hs. exact (P f' r' Hin Hs).
    + eapply adds_trans; [exact A | now apply adds_same_disk].
    + exact C.
  - destruct J as (e & ->). split; [| split].
    + split.
      * exists [[mkEntry (basename f) e; mkEntry (basename f) "处理失败"]].
        split.
        -- constructor; [| constructor]. unfold job_entries. cbn.
           now exists e.
        -- cbn. cbn in E. rewrite E. rewrite <- app_assoc. reflexivity.
      * intros f' r' [H | []] Hs. inversion H. subst. discriminate.
    + eapply adds_trans; [exact A | now apply adds_same_disk].
    + exact C.
Qed.

Lemma poll_futures_steps is_done futures :
  forall s,
    config_of (self s) = config_of p ->
    stage_steps w p true (fst (poll_futures w is_done futures s)) s
                (snd (poll_futures w is_done futures s)).
Proof.
  induction futures as [| f rest IH]; intros s Hc; cbn [poll_futures].
  - now apply stage_steps_nil.
  - destruct (is_done f); [| now apply IH].
    unfold run_job. pose proof (job_recorded_step f s Hc) as J.
    destruct (process_image w f s) as [r s1]. cbn [fst snd] in J.
    assert (Hc2 : config_of (self (snd (record_result f r s1))) = config_of p)
      by apply J.
    specialize (IH _ Hc2).
    destruct (poll_futures w is_done rest (snd (record_result f r s1)))
      as [done s3].
    cbn [fst snd] in *.
    change ((f, r) :: done) with ([(f, r)] ++ done)%list.
    eapply stage_steps_app; eassumption.
Qed.

Lemma shutdown_steps futures :
  forall s,
    config_of (self s) = config_of p ->
    stage_steps w p false (fst (shutdown w futures s)) s
                (snd (shutdown w futures s)).
Proof.
  induction futures as [| f rest IH]; intros s Hc; cbn [shutdown].
  - now apply stage_steps_nil.
  - unfold run_job. pose proof (job_step f s Hc) as J.
    destruct (process_image w f s) as [r s1]. cbn [fst snd] in J.
    assert (Hc1 : config_of (self s1) = config_of p) by apply J.
    specialize (IH _ Hc1). destruct (shutdown w rest s1) as [rs s2].
    cbn [fst snd] in *.
    change ((f, r) :: rs) with ([(f, r)] ++ rs)%list.
    eapply stage_steps_app; eassumption.
Qed.

Lemma stage_loop_steps fuel limit :
  forall evs pending futures acc s0 s ex s',
    stage_steps w p true acc s0 s ->
    stage_loop fuel w limit evs pending futures acc s = Some (ex, s') ->
    stage_steps w p true (recorded ex) s0 s'.
Proof.
  induction fuel as [| fuel IH]; intros evs pending futures acc s0 s ex s' Hacc;
    cbn [stage_loop]; [discriminate|].
  destruct (negb (running (self s))).
  { intros H. inversion H. subst. exact Hacc. }
  destruct (futures ++ firstn (limit - List.length futures) pending)%list
    as [| f0 fs] eqn:E.
  { intros H. inversion H. subst. exact Hacc. }
  destruct (next_poll evs) as [ev evs'].
  assert (Hc : config_of (self s) = config_of p) by apply Hacc.
  pose proof (poll_futures_steps (done_now ev) (f0 :: fs) s Hc) as P1.
  destruct (poll_futures w (done_now ev) (f0 :: fs) s) as [done s1].
  cbn [fst snd] in P1.
  pose proof (stage_steps_app _ _ _ _ _ _ Hacc P1) as P2.
  apply IH. destruct (cancel_after ev); [now apply stage_steps_cancel | exact P2].
Qed.

End StageSteps.

(** The error log and the disk after the stage: the jobs recorded by a poll
    have left the entries of process_image and of run, those finished by the
    pool shutdown the entry of process_image only; and every job that
    succeeded, counted or not, has its output on the disk. *)
Lemma jpg_stage_log_disk w files s :
  match jpg_stage w files s with
  | (Ok rep, s') =>
      (exists lc la,
         Forall2 (job_entries true) (counted rep) lc /\
         Forall2 (job_entries false) (abandoned rep) la /\
         error_log (self s')
         = (error_log (self s) ++ List.concat lc ++ List.concat la)%list) /\
      (forall f r, In (f, r) (counted rep ++ abandoned rep)%list ->
                   succeeded r = true -> is_processed s' f = true)
  | (Raise _, _) => True
  end.
Proof.
  unfold jpg_stage, bind, get_self.
  destruct (Z.min (jpg_threads (self s)) (len files) <=? 0); [exact I|].
  destruct (stage_loop _ w _ (polls w) files [] [] s) as [[ex s1] |] eqn:E;
    [| exact I].
  pose proof (stage_loop_steps w (self s) _ _ _ _ _ _ s _ _ _
                (stage_steps_nil w (self s) true s eq_refl) E) as S1.
  assert (Hc1 : config_of (self s1) = config_of (self s)) by apply S1.
  pose proof (shutdown_steps w (self s) (in_flight ex) s1 Hc1) as S2.
  destruct (shutdown w (in_flight ex) s1) as [rs s2].
  cbn [fst snd counted abandoned] in *.
  destruct S1 as ([(lc & Fc & Ec) Pc] & Ac & Cc).
  destruct S2 as ([(la & Fa & Ea) Pa] & Aa & Ca).
  split.
  - exists lc, la. split; [exact Fc|]. split; [exact Fa|].
    rewrite Ea, Ec. now rewrite app_assoc.
  - intros f r Hin Hs. apply in_app_or in Hin as [Hin | Hin].
    + apply (is_processed_config s1 s2 f); [congruence | | now apply (Pc f r)].
      intros path. now apply (adds_path_exists w (self s)).
    + now apply (Pa f r).
Qed.

(** ** The error log only grows *)

Lemma extends_ret {A : Type} (a : A) : extends_log (ret a).
Proof. intros s. exists []. cbn. now rewrite app_nil_r. Qed.

Lemma extends_keeps {A : Type} (m : M A) : keeps_self m -> extends_log m.
Proof. intros H s. exists []. rewrite H. now rewrite app_nil_r. Qed.

Lemma extends_bind {A B : Type} (m : M A) (k : A -> M B) :
  extends_log m -> (forall a, extends_log (k a)) -> extends_log (bind m k).
Proof.
  intros Hm Hk s. unfold bind. destruct (Hm s) as (l1 & E1).
  destruct (m s) as [[a | e] s1]; cbn [snd] in *.
  - destruct (Hk a s1) as (l2 & E2). exists (l1 ++ l2)%list.
    rewrite E2, E1. now rewrite app_assoc.
  - now exists l1.
Qed.

Lemma extends_try {A : Type} (m : M A) (h : string -> M A) :
  extends_log m -> (forall e, extends_log (h e)) -> extends_log (try_except m h).
Proof.
  intros Hm Hh s. unfold try_except. destruct (Hm s) as (l1 & E1).
  destruct (m s) as [[a | e] s1]; cbn [snd] in *.
  - now exists l1.
  - destruct (Hh e s1) as (l2 & E2). exists (l1 ++ l2)%list.
    rewrite E2, E1. now rewrite app_assoc.
Qed.

Lemma extends_if {A : Type} (b : bool) (m1 m2 : M A) :
  extends_log m1 -> extends_log m2 -> extends_log (if b then m1 else m2).
Proof. destruct b; auto. Qed.

Lemma extends_modify_self f :
  (forall p, error_log (f p) = error_log p) -> extends_log (modify_self f).
Proof. intros H s. exists []. cbn. rewrite H. now rewrite app_nil_r. Qed.

Lemma extends_log_error f e : extends_log (log_error f e).
Proof. intros s. eexists. reflexivity. Qed.

Lemma extends_process_raw w f : extends_log (process_raw w f).
Proof.
  unfold process_raw. apply extends_bind; [apply extends_keeps, keeps_get_self|].
  intro p. apply extends_if; [apply extends_ret|].
  apply extends_try.
  - apply extends_bind; [apply extends_keeps, keeps_convert_raw|].
    intro. apply extends_ret.
  - intro e. apply extends_bind; [apply extends_log_error | intro; apply extends_ret].
Qed.

Lemma extends_raw_loop w files : forall i, extends_log (raw_loop w i files).
Proof.
  induction files as [| f rest IH]; intros i; cbn [raw_loop];
    [apply extends_ret|].
  apply extends_bind.
  { destruct (raw_cancel w) as [n |]; [destruct (Nat.eqb n i)|];
      try apply extends_ret.
    apply extends_modify_self. reflexivity. }
  intros _. apply extends_bind; [apply extends_keeps, keeps_get_self | intro p].
  apply extends_if; [apply extends_ret|].
  apply extends_bind; [apply extends_process_raw | intro ok].
  apply extends_bind; [| intros _; apply IH].
  apply extends_if; [| apply extends_ret].
  apply extends_modify_self. reflexivity.
Qed.

Lemma extends_process_raw_files w files : extends_log (process_raw_files w files).
Proof.
  unfold process_raw_files.
  apply extends_bind; [apply extends_keeps, keeps_get_self | intro p].
  apply extends_if; [apply extends_ret | apply extends_raw_loop].
Qed.

Lemma extends_jpg_stage w files : extends_log (jpg_stage w files).
Proof.
  intros s. pose proof (jpg_stage_log_disk w files s) as H.
  pose proof (jpg_stage_accounting w files s) as A.
  destruct (jpg_stage w files s) as [[rep | e] s']; cbn [snd].
  - destruct H as [(lc & la & _ & _ & E) _]. eexists. exact E.
  - destruct A as [_ ->]. exists []. now rewrite app_nil_r.
Qed.

Lemma extends_run_stages w p1 imgs raws : extends_log (run_stages w p1 imgs raws).
Proof.
  unfold run_stages. apply extends_bind.
  { apply extends_if; [| apply extends_ret].
    apply extends_bind; [apply extends_jpg_stage | intro; apply extends_ret]. }
  intros _. apply extends_bind; [apply extends_keeps, keeps_get_self | intro p].
  apply extends_bind.
  { apply extends_if; [apply extends_process_raw_files | apply extends_ret]. }
  intros _. apply extends_bind; [apply extends_keeps, keeps_get_self | intro p'].
  apply extends_if; [apply extends_keeps, keeps_write_report | apply extends_ret].
Qed.

(** A run keeps every entry of the error log, in place, and appends at most
    two entries for each standard image and one for each RAW file it has to
    process. *)
Lemma run_log_extends w s :
  exists added,
    error_log (self (snd (run w s))) = (error_log (self s) ++ added)%list /\
    (List.length added
     <= 2 * List.length (pending_images w s) + List.length (pending_raws w s))%nat.
Proof.
  assert (H : exists added,
             error_log (self (snd (run w s))) = (error_log (self s) ++ added)%list).
  { rewrite run_eq. pose proof (after_scan_error_log w s) as E.
    destruct (negb (running (self (after_scan w s)))); cbn [snd].
    - exists []. rewrite E. now rewrite app_nil_r.
    - match goal with |- context [run_stages w ?p ?i ?r ?s2] =>
        destruct (extends_run_stages w p i r s2) as (added & Q) end.
      exists added. rewrite Q. cbn [self error_log set_total_files].
      now rewrite E. }
  destruct H as (added & E). exists added. split; [exact E|].
  pose proof (run_log w s) as L. unfold log_size in L.
  rewrite E, length_app in L. lia.
Qed.

(** * The properties of the specification *)

(** C2, as stated, fails: for a 101x50 image and [max_side = 50] the code
    computes 50x24, not 50x26, and 24 is below the scaled height
    [50 * 50 / 101 = 24.75]: [int(round(x, 2))] truncates. *)
Lemma C2_counterexample :
  std_size 50 101 50 = (50, 24) /\
  std_size 50 101 50 <> (50, 26) /\
  ~ even_and_not_below 50 101 50.
Proof.
  assert (E : std_size 50 101 50 = (50, 24)) by (vm_compute; reflexivity).
  split; [exact E|]. split.
  - rewrite E. intros H. inversion H.
  - unfold even_and_not_below. rewrite E. cbn [fst snd].
    intros (_ & _ & _ & H). revert H. apply Z.lt_nge. reflexivity.
Qed.

(** C2, amended: when [max(w, h) > max_side], both computed sides are even,
    each is more than the exact scaled value minus one (the fraction is cut
    off before a side is made even) and at most [max_side + 1]; 101x50 at
    [max_side = 50] gives 50x24. *)
Theorem C2_even_dimensions (ms w h : Z) :
  0 < ms -> 0 < w -> 0 < h -> ms < Z.max w h <= dim_limit ->
  (Z.even (fst (std_size ms w h)) = true /\
   Z.even (snd (std_size ms w h)) = true) /\
  (w * ms < (fst (std_size ms w h) + 1) * Z.max w h /\
   h * ms < (snd (std_size ms w h) + 1) * Z.max w h) /\
  std_size 50 101 50 = (50, 24).
Proof.
  intros Hms Hw Hh [Hlt Hlim].
  rewrite (std_size_resized ms w h Hlt). cbn [fst snd].
  destruct (std_dim_bounds ms (Z.max w h) w ltac:(lia) Hlim ltac:(lia))
    as (Ew & _ & Lw).
  destruct (std_dim_bounds ms (Z.max w h) h ltac:(lia) Hlim ltac:(lia))
    as (Eh & _ & Lh).
  repeat split; try assumption.
Qed.

Lemma C2_even_dimensions_witness :
  (Z.even (fst (std_size 1920 4000 3000)) = true /\
   Z.even (snd (std_size 1920 4000 3000)) = true) /\
  (4000 * 1920 < (fst (std_size 1920 4000 3000) + 1) * Z.max 4000 3000 /\
   3000 * 1920 < (snd (std_size 1920 4000 3000) + 1) * Z.max 4000 3000) /\
  std_size 50 101 50 = (50, 24).
Proof.
  apply (C2_even_dimensions 1920 4000 3000); unfold dim_limit; simpl; lia.
Defined.

(** C9, as stated, fails in its example: in the RAW pipeline a 4367x4367
    image with [max_side = 3001] comes out as 3000x3000, because the float
    product [4367 * (3001 / 4367)] is just below 3001 and [int] cuts it to
    3000, which is already even. *)
Lemma C9_counterexample :
  Z.odd 3001 = true /\ 3001 < 4367 /\
  raw_size 3001 4367 4367 = (3000, 3000) /\
  ~ square_grows_in_both 3001 4367.
Proof.
  assert (E : raw_size 3001 4367 4367 = (3000, 3000)) by (vm_compute; reflexivity).
  repeat split; try reflexivity; try exact E.
  intros [_ H]. rewrite E in H. inversion H.
Qed.

(** C9, amended: forcing a side even can push it above [max_side] (a
    4000x4000 image at [max_side = 3001] becomes 3002x3002 in both
    pipelines), and no side ever exceeds [max_side + 1]. A square image
    larger than an odd [max_side] becomes [(max_side + 1)] squared in the
    standard pipeline; in the RAW pipeline it becomes that, or
    [(max_side - 1)] squared when the float product falls just below
    [max_side]. *)
Theorem C9_even_forcing_overshoot (ms w h : Z) :
  0 < ms -> 0 < w -> 0 < h -> ms < Z.max w h <= dim_limit ->
  (std_size 3001 4000 4000 = (3002, 3002) /\
   raw_size 3001 4000 4000 = (3002, 3002)) /\
  (fst (std_size ms w h) <= ms + 1 /\ snd (std_size ms w h) <= ms + 1 /\
   fst (raw_size ms w h) <= ms + 1 /\ snd (raw_size ms w h) <= ms + 1) /\
  (w = h -> Z.odd ms = true ->
   std_size ms w h = (ms + 1, ms + 1) /\
   (raw_size ms w h = (ms + 1, ms + 1) \/ raw_size ms w h = (ms - 1, ms - 1))).
Proof.
  intros Hms Hw Hh [Hlt Hlim].
  split; [split; vm_compute; reflexivity|].
  rewrite (std_size_resized ms w h Hlt), (raw_size_resized ms w h Hlt).
  cbn [fst snd]. split.
  - destruct (std_dim_bounds ms (Z.max w h) w ltac:(lia) Hlim ltac:(lia))
      as (_ & Uw & _).
    destruct (std_dim_bounds ms (Z.max w h) h ltac:(lia) Hlim ltac:(lia))
      as (_ & Uh & _).
    destruct (raw_dim_bounds ms (Z.max w h) w ltac:(lia) Hlim ltac:(lia))
      as (_ & Rw).
    destruct (raw_dim_bounds ms (Z.max w h) h ltac:(lia) Hlim ltac:(lia))
      as (_ & Rh).
    repeat split; assumption.
  - intros <- Hodd. rewrite Z.max_id in *.
    unfold std_dim, raw_dim.
    rewrite (square_std_trunc ms w ltac:(lia) Hlim).
    rewrite (force_even_odd ms Hodd). split; [reflexivity|].
    destruct (square_raw_trunc ms w ltac:(lia) Hlim) as [-> | ->].
    + left. now rewrite (force_even_odd ms Hodd).
    + right. rewrite force_even_evn; [reflexivity|].
      rewrite Z.even_sub. rewrite <- Z.negb_odd, Hodd. reflexivity.
Qed.

Lemma C9_even_forcing_overshoot_witness :
  (std_size 3001 4000 4000 = (3002, 3002) /\
   raw_size 3001 4000 4000 = (3002, 3002)) /\
  (fst (std_size 3001 4367 4367) <= 3001 + 1 /\
   snd (std_size 3001 4367 4367) <= 3001 + 1 /\
   fst (raw_size 3001 4367 4367) <= 3001 + 1 /\
   snd (raw_size 3001 4367 4367) <= 3001 + 1) /\
  (4367 = 4367 -> Z.odd 3001 = true ->
   std_size 3001 4367 4367 = (3001 + 1, 3001 + 1) /\
   (raw_size 3001 4367 4367 = (3001 + 1, 3001 + 1) \/
    raw_size 3001 4367 4367 = (3001 - 1, 3001 - 1))).
Proof.
  apply (C9_even_forcing_overshoot 3001 4367 4367); unfold dim_limit; simpl; lia.
Defined.

(** C8: the quality stored by the constructor is the input clamped to
    [85, 100]: 10 gives 85, 500 gives 100, a value already in the range is
    kept; and no step of a run writes the attribute, so the clamped value
    is the one in force at the end of every run, in every environment. *)
Theorem C8_quality_clamp (input output : string) (ms q : Z) (pr hq : bool)
    (threads : option Z) (cpu : Z) :
  let p := init input output ms q pr hq threads cpu in
  jpg_quality p = Z.max 85 (Z.min q 100) /\
  85 <= jpg_quality p <= 100 /\
  (85 <= q <= 100 -> jpg_quality p = q) /\
  jpg_quality (init input output ms 10 pr hq threads cpu) = 85 /\
  jpg_quality (init input output ms 500 pr hq threads cpu) = 100 /\
  forall (w : world) (fs : filesystem),
    jpg_quality (self (snd (run w (mkState p fs)))) = jpg_quality p.
Proof.
  intros p. subst p. cbn [init jpg_quality].
  repeat split; try lia.
  intros w fs.
  pose proof (frames_run w (mkState (init input output ms q pr hq threads cpu) fs))
    as H.
  unfold config_of in H. cbn [self] in H.
  injection H as _ _ _ Hq _ _. exact Hq.
Qed.

(** C7: groups are keyed by the lower-cased basename. Let the walk hold a
    standard image [e] and a RAW file [r] with the same key, neither of
    them a system file. Then a standard image with that key is selected,
    and it is the only selected file with that key: the selected images
    have pairwise different keys and no selected RAW file has this key; in
    particular [r] is in neither work list. [skip_files] grows by one for
    each key that the walk holds both as an image and as a RAW file, this
    key among them, when RAW processing is enabled. And [r] produces no
    output: the run never reads it, it is the same run however [r] would
    decode. *)
Theorem C7_group_selection (w : world) (p : processor) (e r : entry) :
  scan_cancel w = None -> running p = true -> plain_names (entries (walk w)) ->
  In e (entries (walk w)) -> In r (entries (walk w)) ->
  is_image_entry e = true -> is_raw_entry r = true ->
  entry_key e = entry_key r ->
  (exists i, In i (entries (walk w)) /\ is_image_entry i = true /\
             entry_key i = entry_key e /\
             In (entry_path i) (image_files_of w p)) /\
  NoDup (map path_key (image_files_of w p)) /\
  (forall r', In r' (raw_files_of w p) -> path_key r' <> entry_key e) /\
  ~ In (entry_path r) (image_files_of w p) /\
  ~ In (entry_path r) (raw_files_of w p) /\
  In (entry_key e) (paired_keys (entries (walk w))) /\
  NoDup (paired_keys (entries (walk w))) /\
  skip_files (scanned w p)
  = skip_files p
    + (if process_raw_enabled p
       then len (paired_keys (entries (walk w))) else 0) /\
  (forall s d rd,
     before_scan w s = p ->
     run (with_codec w (entry_path r) d rd) s = run w s).
Proof.
  intros Hc Hrun Hplain Hine Hinr Hie Hir Hkey.
  pose proof (scan_and_group_files_eq w p Hc Hrun) as E.
  assert (Hhas : has_image (entry_key e) (entries (walk w)) = true)
    by (apply has_image_iff; now exists e).
  destruct (key_with_image _ p Hplain _ Hhas)
    as [(i & Hi1 & Hi2 & Hi3 & Hi4) Hraws].
  assert (Hnd : NoDup (map fst (scan_groups w p)))
    by (apply scan_entries_nodup; constructor).
  assert (Hnot_img : ~ In (entry_path r) (image_files_of w p)).
  { unfold image_files_of. rewrite E. cbn [fst].
    now apply (raw_entry_not_image _ p Hplain). }
  assert (Hno_raw : forall r', In r' (raw_files_of w p) ->
                               path_key r' <> entry_key e).
  { unfold raw_files_of. rewrite E. cbn [fst snd]. intros r'. apply Hraws. }
  assert (Hnot_raw : ~ In (entry_path r) (raw_files_of w p)).
  { intros Hin. apply (Hno_raw _ Hin).
    rewrite (plain_entry_key _ r Hplain Hinr). now symmetry. }
  split; [| split; [| split; [| split; [| split; [| split; [| split; [| split]]]]]]].
  - exists i. unfold image_files_of. rewrite E. cbn [fst]. auto.
  - unfold image_files_of. rewrite E. cbn [fst].
    apply images_of_keys_nodup; [exact Hnd|].
    intros k g i'. apply (group_image_key _ p Hplain).
  - exact Hno_raw.
  - exact Hnot_img.
  - exact Hnot_raw.
  - apply In_paired_keys. split; [exact Hhas|].
    apply has_raw_iff. exists r. auto.
  - apply paired_keys_nodup.
  - unfold scanned. rewrite E. cbn [snd].
    rewrite <- (pairs_of_count _ p Hplain).
    fold (scan_groups w p).
    destruct (process_raw_enabled p); cbn; lia.
  - intros s d rd Hs. subst p. apply run_with_codec.
    + unfold pending_images. intros Hin. apply filter_In in Hin as [Hin _].
      now apply Hnot_img.
    + exact Hnot_raw.
Qed.

(** C10: groups are keyed by lower-cased basename over the whole tree. Of
    two standard images [e1], [e2] with the same key, wherever they stand in
    the walk, the later one takes the image slot (it keeps it when no image
    with that key follows) and is selected; the selected images have
    pairwise different keys; the earlier file is in neither work list, and
    the scan ends with the same processor object (all counters, the error
    log) and the same work lists, up to order, as on the tree without it:
    it is counted nowhere. It produces no output and no failure either: the
    run never reads it, it is the same run however the file would decode. *)
Theorem C10_shadowed_image (w w' : world) (p : processor)
    (es1 es2 es3 : list entry) (e1 e2 : entry) :
  scan_cancel w = None -> scan_cancel w' = None -> running p = true ->
  entries (walk w) = (es1 ++ e1 :: es2 ++ e2 :: es3)%list ->
  entries (walk w') = (es1 ++ es2 ++ e2 :: es3)%list ->
  plain_names (entries (walk w)) ->
  is_image_entry e1 = true -> is_image_entry e2 = true ->
  entry_key e1 = entry_key e2 -> entry_path e1 <> entry_path e2 ->
  last_image (entry_key e2) es3 = None ->
  img_of (dict_get (entry_key e1) (scan_groups w p)) = Some (entry_path e2) /\
  In (entry_path e2) (image_files_of w p) /\
  NoDup (map path_key (image_files_of w p)) /\
  ~ In (entry_path e1) (image_files_of w p) /\
  ~ In (entry_path e1) (raw_files_of w p) /\
  Permutation (image_files_of w p) (image_files_of w' p) /\
  Permutation (raw_files_of w p) (raw_files_of w' p) /\
  scanned w p = scanned w' p /\
  (forall s d rd,
     before_scan w s = p ->
     run (with_codec w (entry_path e1) d rd) s = run w s).
Proof.
  intros Hc Hc' Hrun Hes Hes' Hplain He1 He2 Hkey Hne Hlast.
  pose proof (scan_and_group_files_eq w p Hc Hrun) as E.
  pose proof (scan_and_group_files_eq w' p Hc' Hrun) as E'.
  assert (Hnd : NoDup (map fst (scan_groups w p)))
    by (apply scan_entries_nodup; constructor).
  assert (Hperm : Permutation (scan_groups w p) (scan_groups w' p)).
  { unfold scan_groups. rewrite Hes, Hes'.
    now apply shadowed_groups_permutation. }
  assert (Hslot : img_of (dict_get (entry_key e1) (scan_groups w p))
                  = Some (entry_path e2)).
  { unfold scan_groups. rewrite Hes. now apply shadowed_slot. }
  assert (Hin1 : In e1 (entries (walk w))).
  { rewrite Hes, in_app_iff. right. now left. }
  assert (Hk1 : path_key (entry_path e1) = entry_key e1)
    by now apply (plain_entry_key (entries (walk w))).
  assert (Hnot_img : ~ In (entry_path e1) (image_files_of w p)).
  { unfold image_files_of. rewrite E. cbn [fst].
    intros Hin. apply In_images_of in Hin as (k & g & Hin & Hs).
    apply slot_Some in Hs.
    pose proof (group_image_key _ p Hplain k g _ Hin Hs) as Hk.
    rewrite Hk1 in Hk. subst k.
    rewrite (In_dict_get _ _ _ Hnd Hin) in Hslot. cbn [img_of] in Hslot.
    congruence. }
  assert (Hnot_raw : ~ In (entry_path e1) (raw_files_of w p)).
  { unfold raw_files_of. rewrite E. cbn [fst snd].
    intros Hin. apply In_raws_of in Hin as (k & g & Hin & _ & Hr & _).
    apply slot_Some in Hr.
    destruct (group_raw_origin _ p k g _ Hin Hr) as (e & He & Hpath & Hraw).
    assert (Hb : snd e1 = snd e).
    { rewrite <- (plain_entry_basename _ e1 Hplain Hin1).
      rewrite <- (plain_entry_basename _ e Hplain He). now rewrite Hpath. }
    apply is_image_not_raw in He1.
    unfold is_raw_entry, entry_ext in He1, Hraw. rewrite Hb in He1. congruence. }
  split; [exact Hslot|].
  split; [| split; [| split; [| split; [| split; [| split; [| split]]]]]].
  - unfold image_files_of. rewrite E. cbn [fst].
    destruct (dict_get (entry_key e1) (scan_groups w p)) as [g |] eqn:D;
      [| discriminate].
    cbn [img_of] in Hslot. apply dict_get_In in D.
    apply In_images_of. exists (entry_key e1), g. split; [exact D|].
    now apply (group_image_slot _ p Hplain (entry_key e1)).
  - unfold image_files_of. rewrite E. cbn [fst].
    apply images_of_keys_nodup; [exact Hnd|].
    intros k g i. apply (group_image_key _ p Hplain).
  - exact Hnot_img.
  - exact Hnot_raw.
  - unfold image_files_of. rewrite E, E'. cbn [fst].
    now apply images_of_permutation.
  - unfold raw_files_of. rewrite E, E'. cbn [fst snd].
    now apply raws_of_permutation.
  - unfold scanned. rewrite E, E'. cbn [snd].
    rewrite (len_permutation _ _ (images_of_permutation _ _ Hperm)).
    rewrite (len_permutation _ _
               (raws_of_permutation (process_raw_enabled p) _ _ Hperm)).
    rewrite (len_permutation _ _ (pairs_of_permutation _ _ Hperm)).
    rewrite Hes, Hes'.
    now rewrite (shadowed_count_system es1 es2 es3 e1 e2 He1).
  - intros s d rd Hs. subst p. apply run_with_codec.
    + unfold pending_images. intros Hin. apply filter_In in Hin as [Hin _].
      now apply Hnot_img.
    + exact Hnot_raw.
Qed.


(** * Further properties *)

(** X1: the output path computed by the code is the mirrored path (output root,
    relative position, final extension replaced by [.jpg]) for every input
    whose extension occurs nowhere else in the output path. *)
Theorem X1_output_path_mirrored (input output f : string) :
  snd (splitext (output_path_of input output f)) <> "" ->
  occurs_early (snd (splitext (output_path_of input output f)))
               (output_path_of input output f) = false ->
  output_jpg input output f = mirrored_jpg input output f.
Proof. apply output_jpg_mirrored. Qed.

Lemma X1_output_path_mirrored_witness :
  output_jpg "/in" "/out" "/in/sub/x.PNG" = mirrored_jpg "/in" "/out" "/in/sub/x.PNG".
Proof.
  apply (X1_output_path_mirrored "/in" "/out" "/in/sub/x.PNG").
  - vm_compute. discriminate.
  - reflexivity.
Defined.

(** X2: the standard-image stage counts each job at most once: the counter
    of processed files grows by exactly the number of jobs in the list
    [counted] whose future held a true value; these jobs come from the work
    list, no job of a duplicate-free work list is in [counted] twice, and
    the output of each of them is on the disk. *)
Theorem X2_stage_counts_each_job_once (w : world) (files : list string) (s : state) :
  match jpg_stage w files s with
  | (Ok rep, s') =>
      processed_files (self s')
      = processed_files (self s)
        + Z.of_nat (List.length (filter (fun x => succeeded (snd x)) (counted rep))) /\
      0 <= processed_files (self s') - processed_files (self s) <= len files /\
      incl (map fst (counted rep)) files /\
      (NoDup files -> NoDup (map fst (counted rep))) /\
      (forall f r, In (f, r) (counted rep) -> succeeded r = true ->
                   is_processed s' f = true)
  | (Raise _, _) => True
  end.
Proof.
  pose proof (jpg_stage_accounting w files s) as H.
  pose proof (jpg_stage_log_disk w files s) as L.
  destruct (jpg_stage w files s) as [[rep | e] s']; [| exact I].
  destruct H as (Hperm & Hcount & _ & _). destruct L as (_ & Hdisk).
  split; [exact Hcount|]. split; [| split; [| split]].
  - pose proof (count_ok_nonneg (counted rep)).
    pose proof (count_ok_le_length (counted rep)).
    pose proof (Permutation_length Hperm) as Hlen.
    rewrite !length_app, length_map in Hlen. unfold len. lia.
  - intros f Hin. apply (Permutation_in _ (Permutation_sym Hperm)).
    apply in_or_app. now left.
  - intros Hnd. apply (Permutation_NoDup Hperm) in Hnd.
    now apply NoDup_app_remove_r in Hnd.
  - intros f r Hin. apply Hdisk. apply in_or_app. now left.
Qed.

(** X3: the files whose name starts with [._] or [_] only move
    [skipped_system_files]. The scan of a tree returns the work lists of the
    scan of the same tree without these files, and the same processor
    object but for that counter, which has grown by the number of system
    files met: all of them when the scan is not cancelled. *)
Theorem X3_system_files_only_counted (w : world) (p : processor) :
  image_files_of w p = image_files_of (without_system_files w) p /\
  raw_files_of w p = raw_files_of (without_system_files w) p /\
  exists m,
    0 <= m <= count_system (entries (walk w)) /\
    scanned w p = add_system m (scanned (without_system_files w) p) /\
    skipped_system_files (scanned (without_system_files w) p)
    = skipped_system_files p /\
    (scan_cancel w = None -> running p = true ->
     m = count_system (entries (walk w))).
Proof.
  destruct (scan_without_system_files w p) as (F & m & Hm & S & Hfull).
  unfold image_files_of, raw_files_of, scanned. rewrite F.
  split; [reflexivity|]. split; [reflexivity|].
  exists m. split; [exact Hm|]. split; [exact S|]. split; [| exact Hfull].
  apply scan_clean_tree.
Qed.


(** X4: a run never removes or replaces anything: every directory and every
    path that existed before still exists afterwards, and the files of the
    disk are the old ones with new files written on top, each of which is
    the conversion of a standard image that decoded on one of the three
    attempts, the conversion of a RAW file that decoded, or the error
    report. *)
Theorem X4_run_only_adds (w : world) (s : state) :
  incl (fs_dirs (disk s)) (fs_dirs (disk (snd (run w s)))) /\
  (forall path, path_exists path (disk s) = true ->
                path_exists path (disk (snd (run w s))) = true) /\
  exists new,
    fs_files (disk (snd (run w s))) = (new ++ fs_files (disk s))%list /\
    Forall (produced w (self s)) new.
Proof.
  pose proof (only_adds_run w (self s) s eq_refl) as H.
  split; [apply H|]. split; [| apply H].
  intros path. now apply (adds_path_exists w (self s)).
Qed.

(** X5: whatever quality the caller asked for, every JPEG a run writes has
    a quality between 85 and 100: the clamped quality, or 95 in the
    high-quality RAW mode. *)
Theorem X5_written_quality (input output : string) (ms q : Z) (pr hq : bool)
    (threads : option Z) (cpu : Z) (w : world) (fs : filesystem) :
  let s := mkState (init input output ms q pr hq threads cpu) fs in
  exists new,
    fs_files (disk (snd (run w s))) = (new ++ fs_files fs)%list /\
    forall path c q',
      In (path, c) new -> quality_of c = Some q' ->
      85 <= q' <= 100 /\
      (q' = Z.max 85 (Z.min q 100) \/ (hq = true /\ q' = 95)).
Proof.
  intros s.
  destruct (only_adds_run w (self s) s eq_refl) as (_ & new & Hf & Hall).
  exists new. split; [exact Hf|].
  intros path c q' Hin Hq. rewrite Forall_forall in Hall.
  destruct (produced_quality _ _ _ _ _ (Hall _ Hin) Hq) as [E | [E1 E2]].
  - cbn in E. split; [lia | now left].
  - cbn in E1. split; [lia | now right].
Qed.

(** X6: with a positive [max_side] and a codec that reports sizes the imaging
    library can hold, no JPEG a run writes has a side above
    [max_side + 1]. *)
Theorem X6_written_size (w : world) (s : state) :
  sane_sizes w -> 0 < max_side (self s) ->
  exists new,
    fs_files (disk (snd (run w s))) = (new ++ fs_files (disk s))%list /\
    forall path c wd ht,
      In (path, c) new -> size_of c = Some (wd, ht) ->
      wd <= max_side (self s) + 1 /\ ht <= max_side (self s) + 1.
Proof.
  intros Hsane Hms.
  destruct (only_adds_run w (self s) s eq_refl) as (_ & new & Hf & Hall).
  exists new. split; [exact Hf|].
  intros path c wd ht Hin Hsz. rewrite Forall_forall in Hall.
  exact (produced_size _ _ _ _ _ _ Hsane Hms (Hall _ Hin) Hsz).
Qed.



(** X9: a file for which process_image returned [True] is recognised by
    [_is_processed], and stays recognised after any later run on the
    resulting state, whatever that run meets. *)
Theorem X9_converted_stays_processed (w w' : world) (f : string) (s : state) :
  fst (process_image w f s) = Ok (PyBool true) ->
  is_processed (snd (process_image w f s)) f = true /\
  is_processed (snd (run w' (snd (process_image w f s)))) f = true.
Proof.
  intros H. pose proof (process_image_then_processed w f s H) as P.
  split; [exact P|].
  revert P. apply is_processed_config.
  - apply frames_run.
  - intros path. apply (adds_path_exists w' (self (snd (process_image w f s)))).
    now apply only_adds_run.
Qed.



(** X12: a run that starts with [processed_files = 0] ends with
    [0 <= processed_files <= total_files], whatever the codec, the disk and
    the cancellations: the progress it reports never exceeds the total. *)
Theorem X12_run_progress_bounded (w : world) (s : state) :
  processed_files (self s) = 0 -> 0 <= total_files (self s) ->
  0 <= processed_files (self (snd (run w s))) <= total_files (self (snd (run w s))).
Proof. apply run_progress. Qed.


(** X14: when [cancel()] arrives during the directory walk, the run returns
    normally with [running] false, and it converts nothing: the disk, the
    counter of processed files and the error log are as before. When a test
    of [running] at the head of a directory sees the call, the scan is
    given up and the counters of total and skipped files are as before too.
    When the call comes after the last such test, while the files of the
    last directory are scanned, the scan finishes: the processor is the
    one the undisturbed scan leaves, with [running] false. *)
Theorem X14_run_cancelled_in_scan (w : world) (s : state) (n : nat) :
  scan_cancel w = Some n -> (n <= List.length (walk w))%nat ->
  fst (run w s) = Ok tt /\
  disk (snd (run w s)) = disk s /\
  running (self (snd (run w s))) = false /\
  processed_files (self (snd (run w s))) = processed_files (self s) /\
  error_log (self (snd (run w s))) = error_log (self s) /\
  if (n <? List.length (walk w))%nat
  then total_files (self (snd (run w s))) = total_files (self s) /\
       skip_files (self (snd (run w s))) = skip_files (self s)
  else self (snd (run w s))
       = cancel (snd (scan_and_group_files (without_scan_cancel w)
                        (before_scan w s))).
Proof. apply run_cancel_in_scan. Qed.


(** X16: one iteration of the adjuster either changes nothing in its
    variables, or at least five seconds have passed since the last
    adjustment, the time of the adjustment is recorded, and the worker
    count moves by at most two: down, not below the minimum, only when the
    load is above the high threshold; up, not above the maximum, only when
    the load is below the low threshold. When the new executor could be
    created it has the new worker count and has received the whole queue,
    in order. *)
Theorem X16_adjustment_rule (o : observation) (st : adjuster_state) (s : state) :
  let a := attrs st in
  let st' := snd (fst (adjuster_iteration o st s)) in
  st' = st \/
  (THREAD_ADJUST_MIN_INTERVAL * 1000000 <= now o - last_adjust_time a /\
   last_adjust_time (attrs st') = now o /\
   ((current_jpg_workers a - 2 <= current_jpg_workers (attrs st')
       < current_jpg_workers a /\
     min_jpg_threads a <= current_jpg_workers (attrs st') /\
     py_gt_int (sampled_load o) (cpu_high_threshold a) = true) \/
    (current_jpg_workers a < current_jpg_workers (attrs st')
       <= current_jpg_workers a + 2 /\
     current_jpg_workers (attrs st') <= max_jpg_threads a /\
     py_lt_int (sampled_load o) (cpu_low_threshold a) = true)) /\
   (fst (fst (adjuster_iteration o st s)) = Ok tt ->
    executor st'
    = Some (mkPool (current_jpg_workers (attrs st')) (task_queue st) false) /\
    task_queue st' = [])).
Proof.
  intros a st'. subst a st'. cbv zeta in *.
  destruct (adjuster_iteration_cases o st s)
    as [[_ E] | [Hge [(G & Hc & E) | [(L & Hc & E) | E]]]]; rewrite E;
    cbn [fst snd]; try (now left); right.
  - split; [exact Hge|]. rewrite set_workers_attrs.
    cbn [last_adjust_time current_jpg_workers].
    split; [reflexivity|]. split.
    + left. split; [lia|]. split; [lia | exact G].
    + unfold set_workers.
      destruct (Z.max (current_jpg_workers (attrs st) - 2)
                      (min_jpg_threads (attrs st)) <=? 0);
        cbn [fst snd executor task_queue attrs current_jpg_workers];
        [discriminate | auto].
  - split; [exact Hge|]. rewrite set_workers_attrs.
    cbn [last_adjust_time current_jpg_workers].
    split; [reflexivity|]. split.
    + right. split; [lia|]. split; [lia | exact L].
    + unfold set_workers.
      destruct (Z.min (current_jpg_workers (attrs st) + 2)
                      (max_jpg_threads (attrs st)) <=? 0);
        cbn [fst snd executor task_queue attrs current_jpg_workers];
        [discriminate | auto].
Qed.

(** X17: when the CPU load cannot be read, five seconds or more after the
    last adjustment, the iteration does not fail: it appends one entry
    named [CPU监测] to the error log and goes on with a load of 50, which
    is below the low threshold, so that the worker count goes up by two,
    up to 16. *)
Theorem X17_cpu_sampling_failure (o : observation) (st : adjuster_state)
    (s : state) (initial : Z) (e : string) :
  within_bounds initial (attrs st) ->
  cpu_percent o = Raise e ->
  THREAD_ADJUST_MIN_INTERVAL * 1000000 <= now o - last_adjust_time (attrs st) ->
  fst (fst (adjuster_iteration o st s)) = Ok tt /\
  error_log (self (snd (adjuster_iteration o st s)))
  = (error_log (self s) ++ [mkEntry "CPU监测" ("获取CPU占用失败：" ++ e)])%list /\
  current_jpg_workers (attrs (snd (fst (adjuster_iteration o st s))))
  = (if current_jpg_workers (attrs st) <? 16
     then Z.min (current_jpg_workers (attrs st) + 2) 16
     else current_jpg_workers (attrs st)).
Proof.
  intros (Hmax & Hmin & Hhi & Hlo & Hcur) Hcpu Hge.
  unfold adjuster_iteration.
  destruct (Z.ltb_spec (now o - last_adjust_time (attrs st))
                       (THREAD_ADJUST_MIN_INTERVAL * 1000000)); [lia|].
  rewrite get_current_cpu_usage_spec, Hcpu, Hhi, Hlo, Hmax, Hmin.
  replace (py_gt_int (mkFloat 50 0) 85) with false by reflexivity.
  replace (py_lt_int (mkFloat 50 0) 70) with true by reflexivity.
  cbn [andb].
  destruct (current_jpg_workers (attrs st) <? 16) eqn:Lt.
  - apply Z.ltb_lt in Lt. rewrite set_workers_ok by lia.
    cbn. repeat split.
  - cbn. repeat split.
Qed.

Lemma X17_cpu_sampling_failure_witness :
  fst (fst (adjuster_iteration observation_failed example_adjuster_state
              (mkState example_processor example_disk))) = Ok tt /\
  error_log (self (snd (adjuster_iteration observation_failed
                          example_adjuster_state
                          (mkState example_processor example_disk))))
  = (error_log (self (mkState example_processor example_disk))
     ++ [mkEntry "CPU监测" ("获取CPU占用失败：" ++ "access denied")])%list /\
  current_jpg_workers
    (attrs (snd (fst (adjuster_iteration observation_failed
                        example_adjuster_state
                        (mkState example_processor example_disk)))))
  = (if current_jpg_workers (attrs example_adjuster_state) <? 16
     then Z.min (current_jpg_workers (attrs example_adjuster_state) + 2) 16
     else current_jpg_workers (attrs example_adjuster_state)).
Proof.
  apply (X17_cpu_sampling_failure observation_failed example_adjuster_state
           (mkState example_processor example_disk) 4 "access denied").
  - unfold within_bounds. cbn. repeat split; lia.
  - reflexivity.
  - cbn. lia.
Defined.

(** X18: the percentage of the progress bar lies between 0 and 100 whenever
    [0 <= processed <= total]; it is the float 0 for an empty total and
    exactly 100 when everything is processed. *)
Theorem X18_progress_percent (processed total : Z) :
  0 <= processed <= total ->
  (0 <= val (update_progress processed total) <= 100)%R /\
  (total = 0 -> update_progress processed total = mkFloat 0 0) /\
  (0 < total -> processed = total ->
   val (update_progress processed total) = 100%R).
Proof. apply update_progress_range. Qed.

Lemma X18_progress_percent_witness :
  (0 <= val (update_progress 1 3) <= 100)%R /\
  (3 = 0 -> update_progress 1 3 = mkFloat 0 0) /\
  (0 < 3 -> 1 = 3 -> val (update_progress 1 3) = 100%R).
Proof. apply (X18_progress_percent 1 3). lia. Defined.

(** X19: a processor the graphical interface starts has passed every check:
    both directories are named and exist, equal directories were confirmed,
    [max_side] is between 1 and 10000, and the quality entered is between 1
    and 100; the quality in force is that value raised to at least 85. The
    processor starts running, with empty counters and at least 4 threads. *)
Theorem X19_gui_started_processor (abspath : string -> string)
    (input_dir output_dir : string) (input_is_dir output_is_dir confirmed : bool)
    (max_side_var jpg_quality_var : result Z) (saved : result unit)
    (pr hq : bool) (cpu : Z) (p : processor) :
  start_processing abspath input_dir output_dir input_is_dir output_is_dir
    confirmed max_side_var jpg_quality_var saved pr hq cpu = Started p ->
  input_dir <> "" /\ output_dir <> "" /\
  input_is_dir = true /\ output_is_dir = true /\
  (input_dir = output_dir -> confirmed = true) /\
  max_side_var = Ok (max_side p) /\ 1 <= max_side p <= 10000 /\
  (exists v, jpg_quality_var = Ok v /\ 1 <= v <= 100 /\
             jpg_quality p = Z.max 85 v) /\
  85 <= jpg_quality p <= 100 /\
  4 <= jpg_threads p /\
  running p = true /\ processed_files p = 0 /\ total_files p = 0 /\
  error_log p = [].
Proof.
  unfold start_processing.
  destruct (String.eqb_spec input_dir "") as [| Hi]; cbn [orb]; [discriminate|].
  destruct input_is_dir; cbn [negb]; [| discriminate].
  destruct (String.eqb_spec output_dir "") as [| Ho]; cbn [orb]; [discriminate|].
  destruct output_is_dir; cbn [negb]; [| discriminate].
  destruct (String.eqb_spec input_dir output_dir) as [Heq | Hne]; cbn [andb].
  - destruct confirmed; cbn [negb]; [| discriminate].
    destruct max_side_var as [m |]; [| discriminate].
    destruct jpg_quality_var as [v |]; [| discriminate].
    destruct (Z.leb_spec m 0); cbn [orb]; [discriminate|].
    destruct (Z.gtb_spec m 10000); [discriminate|].
    destruct (Z.ltb_spec v 1); cbn [orb]; [discriminate|].
    destruct (Z.gtb_spec v 100); [discriminate|].
    destruct saved; [| discriminate].
    intros Hst. inversion Hst. subst p. cbn.
    repeat split; auto; try lia. exists v. repeat split; lia.
  - destruct max_side_var as [m |]; [| discriminate].
    destruct jpg_quality_var as [v |]; [| discriminate].
    destruct (Z.leb_spec m 0); cbn [orb]; [discriminate|].
    destruct (Z.gtb_spec m 10000); [discriminate|].
    destruct (Z.ltb_spec v 1); cbn [orb]; [discriminate|].
    destruct (Z.gtb_spec v 100); [discriminate|].
    destruct saved; [| discriminate].
    intros Hst. inversion Hst. subst p. cbn.
    repeat split; auto; try lia; try congruence. exists v. repeat split; lia.
Qed.

Lemma X19_gui_started_processor_witness :
  let p := init "/in" "/out" 2000 60 true false None 8 in
  "/in" <> "" /\ "/out" <> "" /\
  true = true /\ true = true /\
  ("/in" = "/out" -> false = true) /\
  Ok 2000 = Ok (max_side p) /\ 1 <= max_side p <= 10000 /\
  (exists v, Ok 60 = Ok v /\ 1 <= v <= 100 /\ jpg_quality p = Z.max 85 v) /\
  85 <= jpg_quality p <= 100 /\
  4 <= jpg_threads p /\
  running p = true /\ processed_files p = 0 /\ total_files p = 0 /\
  error_log p = [].
Proof.
  apply (X19_gui_started_processor (fun x => x) "/in" "/out" true true false
           (Ok 2000) (Ok 60) (Ok tt) true false 8).
  reflexivity.
Defined.

(** X20: the processor the command line runs always has a quality between
    85 and 100, at least 4 threads and a [max_side] that is not 0: an option
    that is absent or 0 is replaced by its default, 3000 for the size and 95
    for the quality, and RAW processing is on unless [--no-raw] is given. *)
Theorem X20_cli_processor (abspath : string -> string) (args : cli_args)
    (cpu : Z) (p : processor) :
  cli_processor abspath args cpu = Some p ->
  arg_cli args = true /\
  85 <= jpg_quality p <= 100 /\
  jpg_quality p = Z.max 85 (Z.min (int_or (arg_quality args) 95) 100) /\
  max_side p = int_or (arg_max_side args) 3000 /\ max_side p <> 0 /\
  4 <= jpg_threads p /\
  process_raw_enabled p = negb (arg_no_raw args) /\
  high_quality_raw p = arg_hq_raw args.
Proof.
  unfold cli_processor.
  destruct (arg_input args) as [i |]; [| discriminate].
  destruct (arg_output args) as [o |]; [| discriminate].
  destruct (arg_cli args); cbn [andb]; [| discriminate].
  destruct (negb (i =? "")%string && negb (o =? "")%string)%bool; [| discriminate].
  intros H. inversion H. subst p. cbn [init jpg_quality max_side jpg_threads
    process_raw_enabled high_quality_raw].
  unfold DEFAULT_JPG_QUALITY, DEFAULT_MAX_SIDE.
  split; [reflexivity|]. split; [lia|]. split; [reflexivity|].
  split; [reflexivity|]. split.
  - unfold int_or. destruct (arg_max_side args) as [n |]; [| lia].
    destruct (Z.eqb_spec n 0); lia.
  - split; [| split; reflexivity].
    destruct (arg_threads args) as [t |]; [destruct (t =? 0)|]; lia.
Qed.

Lemma X20_cli_processor_witness :
  let p := init "/in" "/out" 3000 10 true false None 4 in
  arg_cli example_args = true /\
  85 <= jpg_quality p <= 100 /\
  jpg_quality p = Z.max 85 (Z.min (int_or (arg_quality example_args) 95) 100) /\
  max_side p = int_or (arg_max_side example_args) 3000 /\ max_side p <> 0 /\
  4 <= jpg_threads p /\
  process_raw_enabled p = negb (arg_no_raw example_args) /\
  high_quality_raw p = arg_hq_raw example_args.
Proof.
  apply (X20_cli_processor (fun x => x) example_args 4). reflexivity.
Defined.

(** X21: an uncancelled scan invents nothing: every path of the image work
    list is a file of the walk that is not a system file and has a standard
    image extension, and every path of the RAW work list is a file of the
    walk that is not a system file and has a RAW extension, RAW processing
    being enabled. *)
Theorem X21_selected_from_walk (w : world) (p : processor) :
  scan_cancel w = None -> running p = true ->
  (forall i, In i (image_files_of w p) ->
     exists e, In e (entries (walk w)) /\ i = entry_path e /\
               is_image_entry e = true) /\
  (forall r, In r (raw_files_of w p) ->
     process_raw_enabled p = true /\
     exists e, In e (entries (walk w)) /\ r = entry_path e /\
               is_raw_entry e = true).
Proof. apply selected_from_walk. Qed.

(** X22: an uncancelled scan drops no basename: for every standard image of
    the walk an image with the same key is in the image work list, and for
    every RAW file of the walk either an image with the same key is in the
    image work list, or RAW processing is disabled, or a RAW file with the
    same key is in the RAW work list. The key is the lower-cased name
    without its extension, for any letters. *)
Theorem X22_walk_represented (w : world) (p : processor) :
  scan_cancel w = None -> running p = true -> plain_names (entries (walk w)) ->
  (forall e, In e (entries (walk w)) -> is_image_entry e = true ->
     exists e', In e' (entries (walk w)) /\ is_image_entry e' = true /\
                entry_key e' = entry_key e /\
                In (entry_path e') (image_files_of w p)) /\
  (forall e, In e (entries (walk w)) -> is_raw_entry e = true ->
     (exists e', In e' (entries (walk w)) /\ is_image_entry e' = true /\
                 entry_key e' = entry_key e /\
                 In (entry_path e') (image_files_of w p)) \/
     process_raw_enabled p = false \/
     (exists e', In e' (entries (walk w)) /\ is_raw_entry e' = true /\
                 entry_key e' = entry_key e /\
                 In (entry_path e') (raw_files_of w p))).
Proof. apply walk_represented. Qed.

(** X23: when RAW processing is switched off, by the caller or because the
    [rawpy] module is missing, a run selects no RAW file, counts no RAW file
    as skipped, ends with RAW processing off, and can only count standard
    images as processed. *)
Theorem X23_run_raw_disabled (w : world) (s : state) :
  process_raw_enabled (self s) = false \/ rawpy_available w = false ->
  pending_raws w s = [] /\
  skip_files (self (snd (run w s))) = skip_files (self s) /\
  process_raw_enabled (self (snd (run w s))) = false /\
  processed_files (self (snd (run w s)))
  <= processed_files (self s) + len (pending_images w s).
Proof. apply run_raw_disabled. Qed.

(** X24: a run never removes or rewrites an entry of the error log: the log
    at the end is the log at the start with entries appended, at most two
    for each standard image the run set out to convert and at most one for
    each RAW file. *)
Theorem X24_error_log_size (w : world) (s : state) :
  exists added,
    error_log (self (snd (run w s))) = (error_log (self s) ++ added)%list /\
    (List.length added
     <= 2 * List.length (pending_images w s) + List.length (pending_raws w s))%nat.
Proof. apply run_log_extends. Qed.

(** X25: a processor on which [cancel()] has been called does nothing when
    run: the run returns normally, the disk, the counter of processed files
    and the error log are as before. *)
Theorem X25_run_not_running (w : world) (s : state) :
  running (self s) = false ->
  fst (run w s) = Ok tt /\
  disk (snd (run w s)) = disk s /\
  running (self (snd (run w s))) = false /\
  processed_files (self (snd (run w s))) = processed_files (self s) /\
  error_log (self (snd (run w s))) = error_log (self s).
Proof. apply run_not_running. Qed.

End Program.

(** * The program on the trees of the examples

    Python's [str.lower] maps the letters [A] to [Z] to [a] to [z] and
    leaves every other ASCII character as it is: on the file names of the
    examples below, which are ASCII, it is [ascii_lower]. *)

(** ** The scan *)

Lemma C7_group_selection_witness :
  (exists i, In i (entries (walk world_pair_mixed)) /\
             is_image_entry ascii_lower i = true /\
             entry_key ascii_lower i = entry_key ascii_lower ("/in", "A.JPG") /\
             In (entry_path i)
                 (image_files_of ascii_lower world_pair_mixed example_processor)) /\
  NoDup (map (path_key ascii_lower)
      (image_files_of ascii_lower world_pair_mixed example_processor)) /\
  (forall r', In r' (raw_files_of ascii_lower world_pair_mixed example_processor) ->
              path_key ascii_lower r' <> entry_key ascii_lower ("/in", "A.JPG")) /\
  ~ In (entry_path ("/in", "a.cr2"))
       (image_files_of ascii_lower world_pair_mixed example_processor) /\
  ~ In (entry_path ("/in", "a.cr2"))
       (raw_files_of ascii_lower world_pair_mixed example_processor) /\
  In (entry_key ascii_lower ("/in", "A.JPG"))
      (paired_keys ascii_lower (entries (walk world_pair_mixed))) /\
  NoDup (paired_keys ascii_lower (entries (walk world_pair_mixed))) /\
  skip_files (scanned ascii_lower world_pair_mixed example_processor)
  = skip_files example_processor
    + (if process_raw_enabled example_processor
       then len (paired_keys ascii_lower (entries (walk world_pair_mixed))) else 0) /\
  (forall s d rd,
     before_scan world_pair_mixed s = example_processor ->
     run ascii_lower (with_codec world_pair_mixed (entry_path ("/in", "a.cr2")) d rd) s
     = run ascii_lower world_pair_mixed s).
Proof.
  apply (C7_group_selection ascii_lower world_pair_mixed example_processor
           ("/in", "A.JPG") ("/in", "a.cr2")).
  - reflexivity.
  - reflexivity.
  - repeat constructor; discriminate.
  - left. reflexivity.
  - right. left. reflexivity.
  - reflexivity.
  - reflexivity.
  - reflexivity.
Defined.

(** The example of the specification for C7: [a.jpg] and [a.cr2] in one
    directory, RAW processing enabled. *)
Lemma pair_example :
  scan_and_group_files ascii_lower world_pair example_processor
  = (["/in/a.jpg"], [],
     set_total_files 1 (set_skip_files 1 example_processor)).
Proof. vm_compute. reflexivity. Qed.

(** The same with names in mixed case, and a RAW file without an image:
    [A.JPG] stands for the key [a], [a.cr2] is skipped, [b.CR2] is
    selected; the run writes two files and never reads [a.cr2]. *)
Lemma pair_mixed_example :
  scan_and_group_files ascii_lower world_pair_mixed example_processor
  = (["/in/A.JPG"], ["/in/b.CR2"],
     set_total_files 2 (set_skip_files 1 example_processor)) /\
  paired_keys ascii_lower (entries (walk world_pair_mixed)) = ["a"] /\
  map fst (fs_files (disk (snd (run ascii_lower world_pair_mixed
                                  (mkState example_processor example_disk)))))
  = ["/out/b.jpg"; "/out/A.jpg"].
Proof. vm_compute. repeat split. Qed.

Lemma C10_shadowed_image_witness :
  img_of (dict_get (entry_key ascii_lower ("/in", "a.jpg"))
            (scan_groups ascii_lower world_shadow example_processor))
  = Some (entry_path ("/in/sub", "A.PNG")) /\
  In (entry_path ("/in/sub", "A.PNG"))
     (image_files_of ascii_lower world_shadow example_processor) /\
  NoDup (map (path_key ascii_lower)
      (image_files_of ascii_lower world_shadow example_processor)) /\
  ~ In (entry_path ("/in", "a.jpg"))
       (image_files_of ascii_lower world_shadow example_processor) /\
  ~ In (entry_path ("/in", "a.jpg"))
       (raw_files_of ascii_lower world_shadow example_processor) /\
  Permutation (image_files_of ascii_lower world_shadow example_processor)
              (image_files_of ascii_lower world_shadow_removed example_processor) /\
  Permutation (raw_files_of ascii_lower world_shadow example_processor)
              (raw_files_of ascii_lower world_shadow_removed example_processor) /\
  scanned ascii_lower world_shadow example_processor
  = scanned ascii_lower world_shadow_removed example_processor /\
  (forall s d rd,
     before_scan world_shadow s = example_processor ->
     run ascii_lower (with_codec world_shadow (entry_path ("/in", "a.jpg")) d rd) s
     = run ascii_lower world_shadow s).
Proof.
  apply (C10_shadowed_image ascii_lower world_shadow world_shadow_removed
      example_processor
           [] [] [] ("/in", "a.jpg") ("/in/sub", "A.PNG")).
  - reflexivity.
  - reflexivity.
  - reflexivity.
  - reflexivity.
  - reflexivity.
  - repeat constructor; discriminate.
  - reflexivity.
  - reflexivity.
  - reflexivity.
  - discriminate.
  - reflexivity.
Defined.

(** The same example evaluated: only the later file is selected. *)
Lemma shadow_example :
  scan_and_group_files ascii_lower world_shadow example_processor
  = (["/in/sub/A.PNG"], [], set_total_files 1 example_processor).
Proof. vm_compute. reflexivity. Qed.

(** ** The standard-image stage *)


(** A run over three images, cancelled after a poll that has seen only
    [a.jpg] finished: [a.jpg] is counted; [b.jpg], which does not decode,
    and [c.jpg] finish when the pool shuts down: the output of [c.jpg] is
    written but not counted, and the failure of [b.jpg] has the entry of
    process_image only. *)
Lemma cancelled_mid_stage_example :
  let s' := snd (run ascii_lower world_cancelled_mid_stage
                   (mkState example_processor example_disk)) in
  running (self s') = false /\
  total_files (self s') = 3 /\ processed_files (self s') = 1 /\
  error_log (self s') = [mkEntry "b.jpg" "cannot identify image file"] /\
  map fst (fs_files (disk s')) = ["/out/c.jpg"; "/out/a.jpg"].
Proof. vm_compute. repeat split. Qed.

(** ** Where the code departs from the specification *)

(** C1 (the code departs from it): process_image never raises, a success
    after a failed attempt leaves no entry, and three failed attempts leave
    exactly one entry. But the scheduler loop of [run] adds an entry of its
    own for every job that came back [False]: once recorded, a failed file
    has two entries in the error log, in every environment; for [a.jpg]
    that never decodes the run ends with the two entries shown. *)
Theorem C1_failed_file_logged_twice (w : world) (f : string) (s : state) :
  match run_job w f s with
  | (Ok (PyBool true), s1) =>
      error_log (self (job_then_record w f s)) = error_log (self s)
  | (Ok (PyBool false), s1) =>
      exists e,
        error_log (self s1) = (error_log (self s) ++ [mkEntry (basename f) e])%list /\
        error_log (self (job_then_record w f s))
        = (error_log (self s)
           ++ [mkEntry (basename f) e; mkEntry (basename f) "处理失败"])%list
  | _ => False
  end /\
  fst (run ascii_lower world_broken (mkState example_processor example_disk)) = Ok tt /\
  error_log
      (self (snd
          (run ascii_lower world_broken (mkState example_processor example_disk))))
  = [mkEntry "a.jpg" "cannot identify image file"; mkEntry "a.jpg" "处理失败"] /\
  fst (run_job world_flaky "/in/a.jpg" (mkState example_processor example_disk))
  = Ok (PyBool true) /\
  error_log
      (self (snd
          (run ascii_lower world_flaky (mkState example_processor example_disk))))
  = [] /\
  processed_files
      (self (snd
          (run ascii_lower world_flaky (mkState example_processor example_disk))))
  = 1.
Proof.
  split.
  - unfold job_then_record, run_job.
    destruct (process_image_outcome w f s) as [(s' & E & H) | (s' & e & E & H)];
      rewrite E; cbn [fst snd record_result truthy].
    + cbn. now rewrite H.
    + exists e. cbn. rewrite H. cbn [error_log set_error_log].
      split; [reflexivity|]. now rewrite <- app_assoc.
  - repeat split; vm_compute; reflexivity.
Qed.

(** C5 (the code departs from it, by the defect of C1): one file, [a.jpg],
    that never decodes: the walk reports one file, and at the end of the run
    the processed files, error-log entries and skipped files add up to
    two. The first bound holds there: [processed_files] does
    not exceed [total_files]. *)
Theorem C5_failed_file_counted_twice :
  files_considered world_broken = 1 /\
  accounted
      (self (snd
          (run ascii_lower world_broken (mkState example_processor example_disk))))
  = 2 /\
  processed_files
      (self (snd
          (run ascii_lower world_broken (mkState example_processor example_disk))))
  <= total_files
      (self (snd
          (run ascii_lower world_broken (mkState example_processor example_disk)))).
Proof.
  split; [reflexivity|]. split.
  - vm_compute. reflexivity.
  - vm_compute. discriminate.
Qed.

(** C4 (the code departs from it): [str.replace] rewrites every occurrence
    of the extension. For [/in/a.png.d/x.png] the code computes
    [/out/a.jpg.d/x.jpg], where the mirrored path is [/out/a.png.d/x.jpg];
    the run creates the directory [/out/a.png.d], tries to write into
    [/out/a.jpg.d], which does not exist, and produces no image. *)
Theorem C4_extension_replaced_everywhere :
  output_jpg "/in" "/out" "/in/a.png.d/x.png" = "/out/a.jpg.d/x.jpg" /\
  mirrored_jpg "/in" "/out" "/in/a.png.d/x.png" = "/out/a.png.d/x.jpg" /\
  (let s' := snd
      (run ascii_lower world_dotted (mkState example_processor example_disk)) in
   dir_exists "/out/a.png.d" (disk s') = true /\
   dir_exists "/out/a.jpg.d" (disk s') = false /\
   path_exists "/out/a.png.d/x.jpg" (disk s') = false /\
   path_exists "/out/a.jpg.d/x.jpg" (disk s') = false /\
   processed_files (self s') = 0).
Proof.
  split; [vm_compute; reflexivity|]. split; [vm_compute; reflexivity|].
  vm_compute. repeat split.
Qed.

(** C6 (the code departs from it, by the defect of C4): the pre-filter
    tests the path with every occurrence of the extension replaced. With
    the mirrored output of [/in/a.png.d/x.png] on the disk the file is
    still put on the work list; with only [/out/a.jpg.d/x.jpg] on the disk
    it is excluded although its mirrored output does not exist. The rest
    holds on the examples: a second run over one standard image
    finds nothing to do, and a RAW file is converted again although its
    output exists. *)
Theorem C6_prefilter_uses_rewritten_path :
  (path_exists (mirrored_jpg "/in" "/out" "/in/a.png.d/x.png") disk_mirrored = true /\
   is_processed (mkState example_processor disk_mirrored) "/in/a.png.d/x.png" = false /\
   total_files
       (self (snd
           (run ascii_lower world_dotted (mkState example_processor disk_mirrored))))
   = 1) /\
  (path_exists (mirrored_jpg "/in" "/out" "/in/a.png.d/x.png") disk_rewritten = false /\
   is_processed (mkState example_processor disk_rewritten) "/in/a.png.d/x.png" = true /\
   total_files
       (self (snd
           (run ascii_lower world_dotted (mkState example_processor disk_rewritten))))
   = 0) /\
  (let s1 := snd
      (run ascii_lower world_single (mkState example_processor example_disk)) in
   let s2 := snd (run ascii_lower world_single (mkState example_processor (disk s1))) in
   processed_files (self s1) = 1 /\ total_files (self s2) = 0 /\
   processed_files (self s2) = 0 /\ fs_files (disk s2) = fs_files (disk s1)) /\
  processed_files
    (self (snd
        (run ascii_lower world_raw_only (mkState example_processor disk_raw_done)))) =
            1.
Proof.
  split; [| split; [| split]].
  - vm_compute. repeat split.
  - vm_compute. repeat split.
  - vm_compute. repeat split.
  - vm_compute. reflexivity.
Qed.

(** ** Instances of the further properties *)

Lemma X6_written_size_witness :
  exists new,
    fs_files (disk
        (snd (run ascii_lower world_pair (mkState example_processor example_disk))))
    = (new ++ [])%list /\
    forall path c wd ht,
      In (path, c) new -> size_of c = Some (wd, ht) ->
      wd <= 3000 + 1 /\ ht <= 3000 + 1.
Proof.
  apply (X6_written_size ascii_lower world_pair
      (mkState example_processor example_disk)).
  - split.
    + intros f n size H. inversion H. cbn. unfold dim_limit. lia.
    + intros f size H. inversion H. cbn. unfold dim_limit. lia.
  - reflexivity.
Defined.

Lemma X9_converted_stays_processed_witness :
  is_processed
    (snd (process_image world_single "/in/a.jpg"
            (mkState example_processor example_disk))) "/in/a.jpg" = true /\
  is_processed
    (snd (run ascii_lower world_broken
            (snd (process_image world_single "/in/a.jpg"
                    (mkState example_processor example_disk))))) "/in/a.jpg" = true.
Proof.
  apply (X9_converted_stays_processed ascii_lower world_single world_broken "/in/a.jpg"
           (mkState example_processor example_disk)).
  vm_compute. reflexivity.
Defined.

Lemma X12_run_progress_bounded_witness :
  0 <= processed_files
         (self (snd
             (run ascii_lower world_pair (mkState example_processor example_disk))))
    <= total_files
         (self (snd
             (run ascii_lower world_pair (mkState example_processor example_disk)))).
Proof.
  apply (X12_run_progress_bounded ascii_lower world_pair
           (mkState example_processor example_disk)).
  - reflexivity.
  - cbn. lia.
Defined.

Lemma X14_run_cancelled_in_scan_witness :
  let s := mkState example_processor example_disk in
  fst (run ascii_lower world_cancelled_in_last_dir s) = Ok tt /\
  disk (snd (run ascii_lower world_cancelled_in_last_dir s)) = disk s /\
  running (self (snd (run ascii_lower world_cancelled_in_last_dir s))) = false /\
  processed_files (self (snd (run ascii_lower world_cancelled_in_last_dir s)))
  = processed_files (self s) /\
  error_log (self (snd (run ascii_lower world_cancelled_in_last_dir s))) = error_log
      (self s) /\
  if (1 <? List.length (walk world_cancelled_in_last_dir))%nat
  then total_files (self (snd (run ascii_lower world_cancelled_in_last_dir s)))
       = total_files (self s) /\
       skip_files (self (snd (run ascii_lower world_cancelled_in_last_dir s)))
       = skip_files (self s)
  else self (snd (run ascii_lower world_cancelled_in_last_dir s))
       = cancel (snd (scan_and_group_files ascii_lower
                        (without_scan_cancel world_cancelled_in_last_dir)
                        (before_scan world_cancelled_in_last_dir s))).
Proof.
  apply (X14_run_cancelled_in_scan ascii_lower world_cancelled_in_last_dir
           (mkState example_processor example_disk) 1%nat).
  - reflexivity.
  - cbn. lia.
Defined.

(** The two cases of X14 evaluated: a call seen by the first test of the
    walk leaves every counter alone; a call during the files of the last
    directory leaves the counters of the finished scan. *)
Lemma scan_cancelled_example :
  (let s' := snd (run ascii_lower world_scan_cancelled
                    (mkState example_processor example_disk)) in
   self s' = cancel example_processor /\ disk s' = example_disk) /\
  (let s' := snd (run ascii_lower world_cancelled_in_last_dir
                    (mkState example_processor example_disk)) in
   running (self s') = false /\ total_files (self s') = 3 /\
   skip_files (self s') = 1 /\ processed_files (self s') = 0 /\
   disk s' = example_disk).
Proof. vm_compute. repeat split. Qed.

Lemma X21_selected_from_walk_witness :
  (forall i, In i (image_files_of ascii_lower world_pair example_processor) ->
     exists e, In e (entries (walk world_pair)) /\ i = entry_path e /\
               is_image_entry ascii_lower e = true) /\
  (forall r, In r (raw_files_of ascii_lower world_pair example_processor) ->
     process_raw_enabled example_processor = true /\
     exists e, In e (entries (walk world_pair)) /\ r = entry_path e /\
               is_raw_entry ascii_lower e = true).
Proof.
  apply (X21_selected_from_walk ascii_lower world_pair example_processor); reflexivity.
Defined.

Lemma X22_walk_represented_witness :
  (forall e, In e (entries (walk world_shadow)) -> is_image_entry ascii_lower e = true
      ->
     exists e', In e' (entries (walk world_shadow)) /\ is_image_entry ascii_lower e' =
         true /\
                entry_key ascii_lower e' = entry_key ascii_lower e /\
                In (entry_path e')
                    (image_files_of ascii_lower world_shadow example_processor)) /\
  (forall e, In e (entries (walk world_shadow)) -> is_raw_entry ascii_lower e = true ->
     (exists e', In e' (entries (walk world_shadow)) /\ is_image_entry ascii_lower e'
         = true /\
                 entry_key ascii_lower e' = entry_key ascii_lower e /\
                 In (entry_path e')
                     (image_files_of ascii_lower world_shadow example_processor)) \/
     process_raw_enabled example_processor = false \/
     (exists e', In e' (entries (walk world_shadow)) /\ is_raw_entry ascii_lower e' =
         true /\
                 entry_key ascii_lower e' = entry_key ascii_lower e /\
                 In (entry_path e')
                     (raw_files_of ascii_lower world_shadow example_processor))).
Proof.
  apply (X22_walk_represented ascii_lower world_shadow example_processor).
  - reflexivity.
  - reflexivity.
  - repeat constructor; discriminate.
Defined.

Lemma X23_run_raw_disabled_witness :
  pending_raws ascii_lower world_no_rawpy (mkState example_processor example_disk) =
      [] /\
  skip_files (self (snd (run ascii_lower world_no_rawpy
                           (mkState example_processor example_disk))))
  = skip_files (self (mkState example_processor example_disk)) /\
  process_raw_enabled (self (snd (run ascii_lower world_no_rawpy
                                    (mkState example_processor example_disk))))
  = false /\
  processed_files (self (snd (run ascii_lower world_no_rawpy
                                (mkState example_processor example_disk))))
  <= processed_files (self (mkState example_processor example_disk))
     + len (pending_images ascii_lower world_no_rawpy
              (mkState example_processor example_disk)).
Proof.
  apply (X23_run_raw_disabled ascii_lower world_no_rawpy
           (mkState example_processor example_disk)).
  right. reflexivity.
Defined.

Lemma X25_run_not_running_witness :
  fst (run ascii_lower world_pair (mkState (cancel example_processor) example_disk)) =
      Ok tt /\
  disk (snd
      (run ascii_lower world_pair (mkState (cancel example_processor) example_disk)))
  = disk (mkState (cancel example_processor) example_disk) /\
  running (self (snd (run ascii_lower world_pair
                        (mkState (cancel example_processor) example_disk))))
  = false /\
  processed_files (self (snd (run ascii_lower world_pair
                                (mkState (cancel example_processor) example_disk))))
  = processed_files (self (mkState (cancel example_processor) example_disk)) /\
  error_log (self (snd (run ascii_lower world_pair
                          (mkState (cancel example_processor) example_disk))))
  = error_log (self (mkState (cancel example_processor) example_disk)).
Proof.
  apply (X25_run_not_running ascii_lower world_pair
           (mkState (cancel example_processor) example_disk)).
  reflexivity.
Defined.

(** ** More evaluations *)

(** System files: the two of this tree are counted and nothing else of them
    is seen. *)
Lemma system_files_example :
  scan_and_group_files ascii_lower world_system_files example_processor
  = (["/in/a.jpg"], ["/in/c.CR2"],
     set_total_files 2 (set_skipped_system_files 2 example_processor)) /\
  scan_and_group_files ascii_lower (without_system_files world_system_files)
      example_processor
  = (["/in/a.jpg"], ["/in/c.CR2"], set_total_files 2 example_processor).
Proof. vm_compute. split; reflexivity. Qed.

(** The error report: refused by the operating system, and without its
    directory. The run raises, after having logged the failures. *)
Lemma report_failure_example :
  (let r := run ascii_lower world_report_refused
      (mkState example_processor example_disk) in
   fst r = Raise "Permission denied" /\
   List.length (error_log (self (snd r))) = 2%nat /\ disk (snd r) = example_disk) /\
  (let r := run ascii_lower world_broken (mkState example_processor (mkFs [] [])) in
   fst r = Raise "No such file or directory" /\
   List.length (error_log (self (snd r))) = 2%nat).
Proof. vm_compute. repeat split. Qed.

(** The worker adjuster with one task in its executor and nothing queued:
    whether the workers finish the task before the loop is tested or the
    final [shutdown(wait=True)] has to wait for it, the method returns with
    the file converted and counted and the task marked done. *)
Lemma adjuster_example :
  let st := mkAdj (init_adjuster example_processor 0)
                  (Some (mkPool 4 ["/in/a.jpg"] false)) [] [] 1
                  ["/in/a.jpg"] [] in
  let s := mkState example_processor example_disk in
  forall done,
    let r := jpg_worker_adjuster world_single
               [mkObs false 1000000 (Ok (mkFloat 10 0)) 0 (fun _ => done)] st s in
    fst (fst r) = Returned /\
    waiting (snd (fst r)) = [] /\ unfinished_tasks (snd (fst r)) = 0 /\
    processed_files (self (snd r)) = 1 /\
    map fst (fs_files (disk (snd r))) = ["/out/a.jpg"].
Proof. intros st s [|]; vm_compute; repeat split. Qed.
